(** * Document Assistant: the desktop front end and the retrieval core

    A shallow embedding of the React pages ([HomePage], [ChatPage]), of the
    axios service ([apiService]) and of the Electron main process, together
    with the properties the specification states about them and further
    properties read off the code.  The Python
    back end is not part of the sources; the two properties that speak about
    it (dual-index consistency, score fusion) are stated over definitions
    modelled from the specification and marked as such. *)

From Stdlib Require Import ZArith QArith Qminmax Lqa Lia Ascii.
From stdpp Require Import base decidable option list strings gmap.

Set Warnings "-register-all".
Local Open Scope nat_scope.

(** ** JavaScript strings and values *)

Module Js.

(** A JavaScript string is a sequence of UTF-16 code units. *)
Definition jsstring := list N.

(** Source text is UTF-8; [utf16] decodes it to code units (a code point
    above U+FFFF becomes a surrogate pair). *)
Fixpoint utf16 (bytes : list N) : jsstring :=
  match bytes with
  | [] => []
  | b0 :: rest =>
      if (b0 <? 128)%N then b0 :: utf16 rest
      else if (b0 <? 224)%N then
        match rest with
        | b1 :: rest1 => ((b0 - 192) * 64 + (b1 - 128))%N :: utf16 rest1
        | _ => []
        end
      else if (b0 <? 240)%N then
        match rest with
        | b1 :: b2 :: rest2 =>
            ((b0 - 224) * 4096 + (b1 - 128) * 64 + (b2 - 128))%N
              :: utf16 rest2
        | _ => []
        end
      else
        match rest with
        | b1 :: b2 :: b3 :: rest3 =>
            let cp := ((b0 - 240) * 262144 + (b1 - 128) * 4096
                       + (b2 - 128) * 64 + (b3 - 128))%N in
            (55296 + (cp - 65536) / 1024)%N
              :: (56320 + (cp - 65536) mod 1024)%N :: utf16 rest3
        | _ => []
        end
  end.

Definition str (s : string) : jsstring :=
  utf16 (N_of_ascii <$> String.list_ascii_of_string s).
Global Arguments str : simpl never.

(** [String.prototype.endsWith(search)] with the default end position. *)
Definition endsWith (s search : jsstring) : bool :=
  if decide (length search ≤ length s)
  then bool_decide (drop (length s - length search) s = search)
  else false.

(** ECMAScript [WhiteSpace] and [LineTerminator] code units, the characters
    that [String.prototype.trim] strips. *)
Definition is_white_space (c : N) : bool :=
  ((9 <=? c) && (c <=? 13) || (c =? 32) || (c =? 160) || (c =? 5760)
   || (8192 <=? c) && (c <=? 8202) || (c =? 8232) || (c =? 8233)
   || (c =? 8239) || (c =? 8287) || (c =? 12288) || (c =? 65279))%N.

Fixpoint trimStart (s : jsstring) : jsstring :=
  match s with
  | c :: s' => if is_white_space c then trimStart s' else s
  | [] => []
  end.

Definition trimEnd (s : jsstring) : jsstring :=
  reverse (trimStart (reverse s)).

Definition trim (s : jsstring) : jsstring := trimEnd (trimStart s).

(** JSON-like values, as they arrive in [response.data]. Numbers are
    idealised as rationals; objects keep their keys in insertion order. *)
Inductive value :=
| VUndefined
| VNull
| VBool (b : bool)
| VNum (q : Q)
| VStr (s : jsstring)
| VArr (elems : list value)
| VObj (fields : list (jsstring * value)).

(** What a [throw] carries: [error.code] and [error.message]. *)
Record exn := Exn { code : option jsstring; message : jsstring }.

Inductive completion (A : Type) :=
| Normal (a : A)
| Throw (e : exn).
Arguments Normal {A} a.
Arguments Throw {A} e.

(** The outcome of an awaited promise. *)
Inductive settled (A : Type) :=
| Resolved (a : A)
| Rejected (e : exn).
Arguments Resolved {A} a.
Arguments Rejected {A} e.

Definition type_error (of_ prop : jsstring) : exn :=
  Exn None (str "Cannot read properties of " ++ of_ ++
            str " (reading '" ++ prop ++ str "')").

Fixpoint assoc (p : jsstring) (fields : list (jsstring * value)) : value :=
  match fields with
  | [] => VUndefined
  | (k, v) :: rest => if decide (k = p) then v else assoc p rest
  end.

Definition of_nat (n : nat) : value := VNum (inject_Z (Z.of_nat n)).

(** Property read [v.p]; reading a property of [undefined] or [null] throws
    a TypeError. Of the properties arrays and strings have by themselves,
    [length] is the one that is modelled. *)
Definition get (v : value) (p : jsstring) : completion value :=
  match v with
  | VUndefined => Throw (type_error (str "undefined") p)
  | VNull => Throw (type_error (str "null") p)
  | VObj fields => Normal (assoc p fields)
  | VArr elems =>
      Normal (if decide (p = str "length") then of_nat (length elems)
              else VUndefined)
  | VStr s =>
      Normal (if decide (p = str "length") then of_nat (length s)
              else VUndefined)
  | VBool _ | VNum _ => Normal VUndefined
  end.

(** Optional chaining [v?.p]. *)
Definition get_opt (v : value) (p : jsstring) : value :=
  match get v p with
  | Normal x => x
  | Throw _ => VUndefined
  end.

(** [ToBoolean]. *)
Definition truthy (v : value) : bool :=
  match v with
  | VUndefined | VNull => false
  | VBool b => b
  | VNum q => negb (Qeq_bool q 0)
  | VStr s => negb (bool_decide (s = []))
  | VArr _ | VObj _ => true
  end.

(** [a || b]. *)
Definition or_else (a b : value) : value := if truthy a then a else b.

(** [v !== s] for a string [s]: strict inequality never converts. *)
Definition strict_ne_str (v : value) (s : jsstring) : bool :=
  match v with
  | VStr s' => negb (bool_decide (s' = s))
  | _ => true
  end.

(** [undefined] and [null], the values without properties. *)
Definition nullish (v : value) : bool :=
  match v with
  | VUndefined | VNull => true
  | _ => false
  end.

(** The object [v] with its property [p] set to [x]. *)
Definition with_property (p : jsstring) (x v : value) : value :=
  match v with
  | VObj fields => VObj ((p, x) :: fields)
  | _ => v
  end.

(** What [Math.round] returns: an integer, [NaN] or an infinity. *)
Inductive rounded :=
| Whole (z : Z)
| NaN
| PosInfinity
| NegInfinity.

End Js.
Import Js.


(** ** Sequential effects: state, exceptions, awaited outcomes *)

Module Eff.

Definition M (S A : Type) : Type := S -> completion A * S.

Definition ret {S A} (a : A) : M S A := fun s => (Normal a, s).

Definition throw {S A} (e : exn) : M S A := fun s => (Throw e, s).

Definition bind {S A B} (m : M S A) (k : A -> M S B) : M S B :=
  fun s =>
    match m s with
    | (Normal a, s') => k a s'
    | (Throw e, s') => (Throw e, s')
    end.

Definition modify {S} (f : S -> S) : M S unit := fun s => (Normal tt, f s).

Definition gets {S A} (f : S -> A) : M S A := fun s => (Normal (f s), s).

(** [await p], once [p] has settled. *)
Definition await {S A} (p : settled A) : M S A :=
  match p with
  | Resolved a => ret a
  | Rejected e => throw e
  end.

(** [try { body } catch (error) { handler }]. *)
Definition try_catch {S A} (body : M S A) (handler : exn -> M S A) : M S A :=
  fun s =>
    match body s with
    | (Normal a, s') => (Normal a, s')
    | (Throw e, s') => handler e s'
    end.

(** [try { body } finally { fin }]. *)
Definition try_finally {S A} (body : M S A) (fin : M S unit) : M S A :=
  fun s =>
    match body s with
    | (c, s') =>
        match fin s' with
        | (Normal _, s'') => (c, s'')
        | (Throw e, s'') => (Throw e, s'')
        end
    end.

(** The state a block leaves behind. *)
Definition exec {S A} (m : M S A) (s : S) : S := snd (m s).

End Eff.
Import Eff.

Notation "x <- m ;; k" := (bind m (fun x => k))
  (at level 100, m at next level, right associativity).
Notation "m ;; k" := (bind m (fun _ => k))
  (at level 100, right associativity).

(** ** services/api.js: the axios client *)

Module Api.

(** A browser [File]: its name and its content. *)
Record File := { fname : jsstring; fbytes : list N }.

Inductive body :=
| NoBody
| Json (v : value)
| FormData (fields : list (jsstring * File)).

Record request := { method : jsstring; url : jsstring; data : body }.

(** An axios response; a non-2xx status is a rejection, not a response. *)
Record response := { resp_data : value; resp_status : nat }.

(** The response interceptor's error branch. *)
Definition on_rejected (error : exn) : exn :=
  if decide (code error = Some (str "ECONNREFUSED"))
  then Exn None (str "Backend 서버가 실행되지 않았습니다.")
  else error.

Definition intercept (net : settled response) : settled response :=
  match net with
  | Resolved r => Resolved r
  | Rejected e => Rejected (on_rejected e)
  end.

(** The shape shared by the five service functions:
    [try { const response = await api.f(...); return response.data; }
     catch (error) { throw error; }]. *)
Definition returns (net : settled response) : settled value :=
  match intercept net with
  | Resolved r => Resolved (resp_data r)
  | Rejected e => Rejected e
  end.

Definition checkHealth_request : request :=
  {| method := str "GET"; url := str "/health"; data := NoBody |}.

(** [askQuestion(question, docName = null)]: the default applies to a
    missing ([undefined]) argument. *)
Definition askQuestion_request (question : jsstring) (docName : value)
  : request :=
  let docName := match docName with VUndefined => VNull | v => v end in
  {| method := str "POST"; url := str "/ask";
     data := Json (VObj [(str "question", VStr question);
                         (str "doc_name", docName)]) |}.

Definition listDocuments_request : request :=
  {| method := str "GET"; url := str "/documents"; data := NoBody |}.

Definition uploadDocument_request (file : File) : request :=
  {| method := str "POST"; url := str "/upload";
     data := FormData [(str "file", file)] |}.

Definition deleteDocument_request (docName : jsstring) : request :=
  {| method := str "DELETE"; url := str "/documents/" ++ docName;
     data := NoBody |}.

(** [Math.round((loaded * 100) / total)] for the [loaded] and [total] of a
    progress event. The product and the quotient are those of IEEE doubles.
    With [total = 0] the quotient is NaN (0/0) or Infinity, and [Math.round]
    returns it. With [0 < total < 2^46] and [loaded <= total] the product is
    exact, and the exact quotient is at least [1 / (2 * total) > 2^-47] away
    from every half-integer it is not equal to, which is more than half the
    spacing of the doubles below 128: the rounded quotient lies on the same
    side of every half-integer, and [Math.round] returns the integer nearest
    to the exact quotient, halves going up. Beyond that range the double
    quotient can round differently from the exact one; such events are left
    out ([None]). *)
Definition percentCompleted (loaded total : N) : option rounded :=
  if decide (total = 0%N)
  then Some (if decide (loaded = 0%N) then NaN else PosInfinity)
  else if decide ((loaded ≤ total)%N ∧ (total < 2 ^ 46)%N)
  then Some (Whole (Z.of_N ((2 * (loaded * 100) + total) / (2 * total))))
  else None.

End Api.

(** ** What a component renders *)

Module React.

(** What a click on a card's button does: [navigate(path, options)] or
    [handleDelete(e, docName)]. *)
Inductive action :=
| Navigate (path : jsstring) (options : value)
| Delete (docName : value).

(** An element tree. A [Text] child holds the JavaScript value placed
    between braces; React shows strings and numbers and shows nothing for
    [undefined], [null] and booleans. *)
Inductive node :=
| Text (v : value)
| Icon (component : string)
| El (tag className : string) (onClick : option action)
     (children : list node).

Definition lit (s : string) : node := Text (VStr (str s)).

(** [array.map(f)] with a callback that may throw. *)
Fixpoint array_map {A B} (f : A -> completion B) (l : list A)
  : completion (list B) :=
  match l with
  | [] => Normal []
  | x :: rest =>
      match f x with
      | Throw e => Throw e
      | Normal y =>
          match array_map f rest with
          | Throw e => Throw e
          | Normal ys => Normal (y :: ys)
          end
      end
  end.

Definition and_then {A B} (c : completion A) (k : A -> completion B)
  : completion B :=
  match c with
  | Normal a => k a
  | Throw e => Throw e
  end.

(** The values an element tree places on the screen, in document order. *)
Fixpoint texts (n : node) : list value :=
  match n with
  | Text v => [v]
  | Icon _ => []
  | El _ _ _ children => flat_map texts children
  end.

End React.

(** ** pages/HomePage.js *)

Module HomePage.
Import Api React.

(** An entry of the upload queue, as [handleFileUpload] builds it. *)
Record item := {
  file : File;
  name : jsstring;
  status : jsstring;
  progress : rounded;
  error : option jsstring
}.

Definition with_status (s : jsstring) (q : item) : item :=
  {| file := file q; name := name q; status := s;
     progress := progress q; error := error q |}.

Definition with_progress (p : rounded) (q : item) : item :=
  {| file := file q; name := name q; status := status q;
     progress := p; error := error q |}.

Definition with_error (e : option jsstring) (q : item) : item :=
  {| file := file q; name := name q; status := status q;
     progress := progress q; error := e |}.

(** The component's state, and what it has sent out: the alerts shown (each
    a template: literal parts and interpolated values) and the requests
    handed to axios, oldest first. [failure] holds the error of a state
    updater that threw: React runs updaters while it renders, outside the
    handler's [try], and reports the error instead of updating. *)
Record page := {
  documents : value;
  loading : bool;
  backendStatus : jsstring;
  uploadQueue : list item;
  alerts : list (list value);
  requests : list request;
  failure : option exn
}.

Definition initial : page :=
  {| documents := VArr []; loading := true;
     backendStatus := str "checking"; uploadQueue := [];
     alerts := []; requests := []; failure := None |}.

Definition setDocuments (d : value) : M page unit :=
  modify (fun s =>
    {| documents := d; loading := loading s;
       backendStatus := backendStatus s; uploadQueue := uploadQueue s;
       alerts := alerts s; requests := requests s; failure := failure s |}).

(** [setDocuments(prev => f(prev))]. *)
Definition updateDocuments (f : value -> completion value) : M page unit :=
  modify (fun s =>
    match f (documents s) with
    | Normal d =>
        {| documents := d; loading := loading s;
           backendStatus := backendStatus s; uploadQueue := uploadQueue s;
           alerts := alerts s; requests := requests s; failure := failure s |}
    | Throw e =>
        {| documents := documents s; loading := loading s;
           backendStatus := backendStatus s; uploadQueue := uploadQueue s;
           alerts := alerts s; requests := requests s; failure := Some e |}
    end).

Definition setLoading (b : bool) : M page unit :=
  modify (fun s =>
    {| documents := documents s; loading := b;
       backendStatus := backendStatus s; uploadQueue := uploadQueue s;
       alerts := alerts s; requests := requests s; failure := failure s |}).

Definition setBackendStatus (st : jsstring) : M page unit :=
  modify (fun s =>
    {| documents := documents s; loading := loading s;
       backendStatus := st; uploadQueue := uploadQueue s;
       alerts := alerts s; requests := requests s; failure := failure s |}).

(** [setUploadQueue(prev => f(prev))]. *)
Definition setUploadQueue (f : list item -> list item) : M page unit :=
  modify (fun s =>
    {| documents := documents s; loading := loading s;
       backendStatus := backendStatus s; uploadQueue := f (uploadQueue s);
       alerts := alerts s; requests := requests s; failure := failure s |}).

Definition alert (text : list value) : M page unit :=
  modify (fun s =>
    {| documents := documents s; loading := loading s;
       backendStatus := backendStatus s; uploadQueue := uploadQueue s;
       alerts := alerts s ++ [text]; requests := requests s;
       failure := failure s |}).

Definition send (r : request) : M page unit :=
  modify (fun s =>
    {| documents := documents s; loading := loading s;
       backendStatus := backendStatus s; uploadQueue := uploadQueue s;
       alerts := alerts s; requests := requests s ++ [r];
       failure := failure s |}).

(** [console.error] writes to the developer console only. *)
Definition console_error {S} (label : jsstring) (error : exn) : M S unit :=
  ret tt.

(** The effect run on mount: [checkBackend()] and [loadDocuments()] each
    issue their request and wait for it. *)
Definition mount : M page unit :=
  send checkHealth_request ;;
  send listDocuments_request.

(** [checkBackend], from the moment [/health] has settled. *)
Definition checkBackend (net : settled response) : M page unit :=
  try_catch
    (_ <- await (returns net) ;;
     setBackendStatus (str "connected"))
    (fun error =>
       setBackendStatus (str "disconnected") ;;
       console_error (str "Backend connection failed:") error).

(** [loadDocuments], from the moment [/documents] has settled. *)
Definition loadDocuments (net : settled response) : M page unit :=
  try_finally
    (try_catch
       (docs <- await (returns net) ;;
        setDocuments docs)
       (fun error => console_error (str "Failed to load documents:") error))
    (setLoading false).

(** [Array.prototype.filter] with a callback that may throw. *)
Fixpoint array_filter (keep : value -> completion bool) (l : list value)
  : completion (list value) :=
  match l with
  | [] => Normal []
  | x :: rest =>
      match keep x with
      | Throw e => Throw e
      | Normal b =>
          match array_filter keep rest with
          | Throw e => Throw e
          | Normal kept => Normal (if b then x :: kept else kept)
          end
      end
  end.

(** [doc => doc.name !== docName]. *)
Definition other_than (docName : jsstring) (doc : value) : completion bool :=
  match get doc (str "name") with
  | Normal n => Normal (strict_ne_str n docName)
  | Throw e => Throw e
  end.

(** The updater [prev => prev.filter(doc => doc.name !== docName)]. *)
Definition without (docName : jsstring) (prev : value) : completion value :=
  match prev with
  | VArr docs =>
      match array_filter (other_than docName) docs with
      | Normal kept => Normal (VArr kept)
      | Throw e => Throw e
      end
  | _ => Throw (Exn None (str "prev.filter is not a function"))
  end.

(** [handleDelete] up to its [await]: the confirmation dialog's answer
    decides whether the request is sent at all. *)
Definition handleDelete_click (confirmed : bool) (docName : jsstring)
  : M page bool :=
  if negb confirmed then ret false
  else (send (deleteDocument_request docName) ;; ret true).

(** [handleDelete] after its [await]. *)
Definition handleDelete_resume (docName : jsstring) (net : settled response)
  : M page unit :=
  try_catch
    (_ <- await (returns net) ;;
     updateDocuments (without docName) ;;
     alert [VStr (str "삭제되었습니다.")])
    (fun error =>
       console_error (str "Failed to delete:") error ;;
       alert [VStr (str "삭제 실패: " ++ message error)]).

(** One card of the documents grid. *)
Definition document_card (doc : value) : completion node :=
  and_then (get doc (str "name")) (fun name =>
  and_then (get doc (str "collections")) (fun collections =>
  and_then (get collections (str "length")) (fun count =>
  Normal
    (El "div" "document-card" None
       [Icon "FileText";
        El "h3" "" None [Text name];
        El "p" "" None [Text count; lit " collection(s)"];
        El "div" "" None
          [El "button" "chat-button"
              (Some (Navigate (str "/chat")
                       (VObj [(str "state", VObj [(str "docName", name)])])))
              [Icon "MessageSquare"; lit "질문하기"];
           El "button" "delete-button" (Some (Delete name))
              [Icon "Trash2"]]])))).

(** [documents.length === 0] *)
Definition is_zero (v : value) : bool :=
  match v with
  | VNum q => Qeq_bool q 0
  | _ => false
  end.

(** The section that lists the uploaded documents. *)
Definition documents_section (s : page) : completion node :=
  and_then (get (documents s) (str "length")) (fun count =>
  and_then
    (if loading s
     then Normal (El "div" "loading" None [lit "문서 목록을 불러오는 중..."])
     else if is_zero count
     then Normal (El "div" "empty-state" None
                    [El "p" "" None [lit "업로드된 문서가 없습니다."];
                     El "p" "" None [lit "PDF 파일을 업로드하여 시작하세요."]])
     else
       match documents s with
       | VArr docs =>
           and_then (array_map document_card docs) (fun cards =>
           Normal (El "div" "documents-grid" None cards))
       | _ => Throw (Exn None (str "documents.map is not a function"))
       end)
    (fun body =>
  Normal
    (El "section" "documents-section" None
       [El "h2" "" None
          [Icon "FileText"; lit "업로드된 문서 ("; Text count; lit ")"];
        body]))).

(** *** Uploading a selection of files *)

(** [file.name.endsWith('.pdf')] *)
Definition is_pdf (f : File) : Prop := endsWith (fname f) (str ".pdf") = true.

(** The queue entry [handleFileUpload] creates for a file. *)
Definition queued (f : File) : item :=
  {| file := f; name := fname f; status := str "waiting";
     progress := Whole 0; error := None |}.

(** Where [handleFileUpload] stands: it has returned without queueing
    anything, it is in the inner [while] that fills free slots, it awaits
    the 100 ms timer, it awaits [loadDocuments()], it has shown the summary
    and returned, or the 3 s timer has emptied the queue. *)
Inductive pc := Returned | Filling | Sleeping | Reloading | Finished | Cleared.

(** The page together with the locals of [uploadWithConcurrency]. The
    entries of [pending] and [active] are references to the objects of
    [queue]: an object is identified by its position in [queue]. *)
Record batch := {
  ui : page;
  queue : list item;
  maxConcurrent : nat;
  pending : list nat;
  active : gset nat;
  at_ : pc
}.

Definition on_ui {A} (m : M page A) : M batch A :=
  fun b =>
    let (c, u) := m (ui b) in
    (c, {| ui := u; queue := queue b; maxConcurrent := maxConcurrent b;
           pending := pending b; active := active b; at_ := at_ b |}).

Definition goto (l : pc) (b : batch) : batch :=
  {| ui := ui b; queue := queue b; maxConcurrent := maxConcurrent b;
     pending := pending b; active := active b; at_ := l |}.

(** [const item = pending.shift(); active.add(item);] *)
Definition begin_upload (i : nat) (rest : list nat) (b : batch) : batch :=
  {| ui := ui b; queue := queue b; maxConcurrent := maxConcurrent b;
     pending := rest; active := {[i]} ∪ active b; at_ := at_ b |}.

(** [active.delete(item)] *)
Definition active_delete (i : nat) : M batch unit :=
  modify (fun b =>
    {| ui := ui b; queue := queue b; maxConcurrent := maxConcurrent b;
       pending := pending b; active := active b ∖ {[i]}; at_ := at_ b |}).

(** [prev.map(q => q.name === item.name ? f(q) : q)] *)
Definition mark (it : item) (f : item -> item) (prev : list item)
  : list item :=
  (fun q => if decide (name q = name it) then f q else q) <$> prev.

(** [uploadFile(item)] up to its [await]. *)
Definition uploadFile_start (it : item) : M batch unit :=
  on_ui (setUploadQueue (mark it (with_status (str "uploading"))) ;;
         send (uploadDocument_request (file it))).

(** The [onProgress] callback handed to [uploadDocument]. *)
Definition uploadFile_progress (it : item) (percent : rounded)
  : M batch unit :=
  on_ui (setUploadQueue (mark it (with_progress percent))).

(** [uploadFile(item)] after its [await]; [i] is the identity of [item]. *)
Definition uploadFile_resume (i : nat) (it : item) (net : settled response)
  : M batch unit :=
  try_finally
    (try_catch
       (_ <- await (returns net) ;;
        on_ui (setUploadQueue
                 (mark it (fun q =>
                    with_progress (Whole 100)
                      (with_status (str "completed") q)))))
       (fun err =>
          on_ui (setUploadQueue
                   (mark it (fun q =>
                      with_error (Some (message err))
                        (with_status (str "error") q))))))
    (active_delete i).

(** The success/failure summary; it counts over the local [queue]. *)
Definition summary (queue : list item) : M page unit :=
  let completed :=
    length (filter (fun q => status q = str "completed") queue) in
  let failed := length (filter (fun q => status q = str "error") queue) in
  if decide (failed = 0)
  then alert [of_nat completed;
              VStr (str "개 파일이 성공적으로 업로드되었습니다!")]
  else alert [VStr (str "완료: "); of_nat completed;
              VStr (str "개, 실패: "); of_nat failed; VStr (str "개")].

(** Entry into [uploadWithConcurrency(queue, maxConcurrent)]: the locals
    are set up and the outer loop condition is tested for the first time. *)
Definition uploadWithConcurrency (q : list item) (cap : nat) (u : page)
  : batch :=
  let b := {| ui := u; queue := q; maxConcurrent := cap;
              pending := seq 0 (length q); active := ∅; at_ := Filling |} in
  if decide (0 < length (pending b) ∨ 0 < size (active b)) then b
  else goto Reloading (exec (on_ui (send listDocuments_request)) b).

(** [handleFileUpload] has returned before it queued anything. *)
Definition returned (u : page) : batch :=
  {| ui := u; queue := []; maxConcurrent := 0; pending := [];
     active := ∅; at_ := Returned |}.

(** [handleFileUpload(event)] for [event.target.files = files], up to the
    first [await] inside [uploadWithConcurrency]. (What it does last,
    resetting the file input, leaves the state alone.) *)
Definition handleFileUpload (files : list File) (u : page) : batch :=
  if decide (length files = 0) then returned u
  else
    let pdfFiles := filter is_pdf files in
    if decide (length pdfFiles = 0)
    then returned (exec (alert [VStr (str "PDF 파일만 업로드 가능합니다.")]) u)
    else
      let u1 :=
        if decide (length pdfFiles ≠ length files)
        then exec (alert [of_nat (length files - length pdfFiles);
                          VStr (str "개의 PDF가 아닌 파일은 제외되었습니다.")]) u
        else u in
      let queue := queued <$> pdfFiles in
      uploadWithConcurrency queue 5 (exec (setUploadQueue (fun _ => queue)) u1).

(** What can happen next during a batch. [Start] and [Sleep] are the two
    outcomes of the inner loop test; [Progress] and [Settle] are callbacks of
    an upload in flight, which only run while the routine awaits its timer:
    [Progress i percent] is [uploadDocument] calling [onProgress(percent)]
    with what [Math.round] returned, [Settle] is the request settling;
    [Timer] is the 100 ms timer firing, followed by the outer loop test;
    [Loaded] is [/documents] settling; [Clear] is the 3 s timer. *)
Inductive event :=
| Start
| Sleep
| Progress (i : nat) (percent : rounded)
| Settle (i : nat) (net : settled response)
| Timer
| Loaded (net : settled response)
| Clear.

Definition step (e : event) (b : batch) : option batch :=
  match e, at_ b with
  | Start, Filling =>
      if decide (size (active b) < maxConcurrent b ∧ 0 < length (pending b))
      then
        match pending b with
        | i :: rest =>
            it ← queue b !! i;
            Some (exec (uploadFile_start it) (begin_upload i rest b))
        | [] => None
        end
      else None
  | Sleep, Filling =>
      if decide (size (active b) < maxConcurrent b ∧ 0 < length (pending b))
      then None
      else Some (goto Sleeping b)
  | Progress i percent, Sleeping =>
      if decide (i ∈ active b)
      then it ← queue b !! i;
           Some (exec (uploadFile_progress it percent) b)
      else None
  | Settle i net, Sleeping =>
      if decide (i ∈ active b)
      then it ← queue b !! i; Some (exec (uploadFile_resume i it net) b)
      else None
  | Timer, Sleeping =>
      if decide (0 < length (pending b) ∨ 0 < size (active b))
      then Some (goto Filling b)
      else Some (goto Reloading (exec (on_ui (send listDocuments_request)) b))
  | Loaded net, Reloading =>
      Some (goto Finished
              (exec (on_ui (loadDocuments net ;; summary (queue b))) b))
  | Clear, Finished =>
      Some (goto Cleared (exec (on_ui (setUploadQueue (fun _ => []))) b))
  | _, _ => None
  end.

Fixpoint run (evs : list event) (b : batch) : option batch :=
  match evs with
  | [] => Some b
  | e :: rest => b' ← step e b; run rest b'
  end.

(** *** Vocabulary of the properties *)

(** A list entry is named [docName] when its [name] is that string. *)
Definition named (docName : jsstring) (doc : value) : bool :=
  match get_opt doc (str "name") with
  | VStr n => bool_decide (n = docName)
  | _ => false
  end.

Definition statuses : list jsstring :=
  [str "waiting"; str "uploading"; str "completed"; str "error"].

(** No move, or one move along
    waiting -> uploading -> (completed | error). *)
Definition forward (s s' : jsstring) : Prop :=
  s = s'
  ∨ (s = str "waiting" ∧ s' = str "uploading")
  ∨ (s = str "uploading" ∧ (s' = str "completed" ∨ s' = str "error")).

Definition moves_forward (before after : list item) : Prop :=
  ∀ k q q',
    before !! k = Some q → after !! k = Some q' →
    forward (status q) (status q').

Definition finished (q : item) : Prop :=
  status q = str "completed" ∨ status q = str "error".

(** The routine has left its loop. *)
Definition past_loop (l : pc) : bool :=
  match l with
  | Reloading | Finished | Cleared => true
  | _ => false
  end.

(** The scheduler's invariant: [k] uploads have been started so far. *)
Definition scheduled (base : list request) (q : list item) (k : nat)
    (b : batch) : Prop :=
  queue b = q ∧ maxConcurrent b = 5 ∧ at_ b ≠ Returned
  ∧ k ≤ length q
  ∧ pending b = seq k (length q - k)
  ∧ (∀ i, i ∈ active b → i < k)
  ∧ size (active b) ≤ 5
  ∧ requests (ui b)
    = base ++ ((fun it => uploadDocument_request (file it)) <$> take k q)
           ++ (if past_loop (at_ b) then [listDocuments_request] else [])
  ∧ (past_loop (at_ b) = true → pending b = [] ∧ active b = ∅).

(** What one upload's settlement writes into the entries it marks. *)
Definition verdict (net : settled response) (q : item) : item :=
  match returns net with
  | Resolved _ => with_progress (Whole 100) (with_status (str "completed") q)
  | Rejected e => with_error (Some (message e)) (with_status (str "error") q)
  end.

(** What the page shows agrees with the scheduler as far as names can
    tell entries apart. *)
Definition displayed (q : list item) (b : batch) : Prop :=
  (at_ b ≠ Cleared → name <$> uploadQueue (ui b) = name <$> q)
  ∧ (at_ b = Cleared → uploadQueue (ui b) = [])
  ∧ (∀ it, it ∈ uploadQueue (ui b) → status it ∈ statuses)
  ∧ (∀ it, it ∈ uploadQueue (ui b) → status it = str "waiting" →
       ∀ j it', q !! j = Some it' → name it' = name it → j ∈ pending b)
  ∧ (∀ it, it ∈ uploadQueue (ui b) → status it = str "uploading" →
       ∃ j it', q !! j = Some it' ∧ name it' = name it ∧ j ∈ active b).

(** With distinct names, what the page shows is the scheduler's state. *)
Definition exact (b : batch) : Prop :=
  at_ b ≠ Cleared →
  ∀ k it, uploadQueue (ui b) !! k = Some it →
    (k ∈ pending b → status it = str "waiting")
    ∧ (k ∈ active b → status it = str "uploading").

(** Everything that holds of a batch between two of its events. *)
Definition healthy (base : list request) (q : list item) (b : batch) : Prop :=
  (∃ k, scheduled base q k b) ∧ displayed q b
  ∧ (NoDup (name <$> q) → exact b).

(** How far a batch is from the end of its loop. *)
Definition remaining (b : batch) : nat :=
  4 * length (pending b) + 2 * size (active b)
  + match at_ b with Filling => 1 | _ => 0 end.

End HomePage.


(** ** pages/ChatPage.js *)

Module ChatPage.
Import Api React.

Record msg := {
  type : jsstring;
  content : value;
  sources : value;
  timestamp : N
}.

(** The component's state and the requests it has handed to axios.
    [failure] is as on the home page. *)
Record chat := {
  docName : value;
  messages : list msg;
  inputValue : jsstring;
  loading : bool;
  requests : list request;
  failure : option exn
}.

(** [const docName = location.state?.docName || null] *)
Definition scope (location_state : value) : value :=
  or_else (get_opt location_state (str "docName")) VNull.

Definition initial (location_state : value) : chat :=
  {| docName := scope location_state; messages := []; inputValue := [];
     loading := false; requests := []; failure := None |}.

Definition setInputValue (v : jsstring) : M chat unit :=
  modify (fun s =>
    {| docName := docName s; messages := messages s; inputValue := v;
       loading := loading s; requests := requests s; failure := failure s |}).

Definition setLoading (b : bool) : M chat unit :=
  modify (fun s =>
    {| docName := docName s; messages := messages s;
       inputValue := inputValue s; loading := b; requests := requests s;
       failure := failure s |}).

(** [setMessages(prev => f(prev))] *)
Definition setMessages (f : list msg -> completion (list msg))
  : M chat unit :=
  modify (fun s =>
    match f (messages s) with
    | Normal l =>
        {| docName := docName s; messages := l; inputValue := inputValue s;
           loading := loading s; requests := requests s;
           failure := failure s |}
    | Throw e =>
        {| docName := docName s; messages := messages s;
           inputValue := inputValue s; loading := loading s;
           requests := requests s; failure := Some e |}
    end).

Definition send (r : request) : M chat unit :=
  modify (fun s =>
    {| docName := docName s; messages := messages s;
       inputValue := inputValue s; loading := loading s;
       requests := requests s ++ [r]; failure := failure s |}).

Definition user_message (text : jsstring) (now : N) : msg :=
  {| type := str "user"; content := VStr text; sources := VUndefined;
     timestamp := now |}.

Definition assistant_message (response : value) (now : N)
  : completion msg :=
  and_then (get response (str "answer")) (fun answer =>
  and_then (get response (str "sources")) (fun srcs =>
  Normal {| type := str "assistant"; content := answer; sources := srcs;
            timestamp := now |})).

Definition error_message (error : exn) (now : N) : msg :=
  {| type := str "error";
     content :=
       VStr (str "죄송합니다. 답변을 생성하는 중 오류가 발생했습니다: "
             ++ message error);
     sources := VUndefined; timestamp := now |}.

(** [handleSend] up to its [await]; it answers with the request it has
    issued, if any. [now] is what [new Date()] reads. *)
Definition handleSend_start (now : N) : M chat (option request) :=
  input <- gets inputValue ;;
  busy <- gets loading ;;
  if negb (truthy (VStr (trim input))) || busy then ret None
  else
    let userMessage := trim input in
    setInputValue [] ;;
    setMessages (fun prev => Normal (prev ++ [user_message userMessage now])) ;;
    setLoading true ;;
    scoped <- gets docName ;;
    let r := askQuestion_request userMessage scoped in
    send r ;;
    ret (Some r).

(** [handleSend] after its [await]. *)
Definition handleSend_resume (now : N) (net : settled response)
  : M chat unit :=
  try_finally
    (try_catch
       (response <- await (returns net) ;;
        setMessages (fun prev =>
          and_then (assistant_message response now) (fun m =>
          Normal (prev ++ [m]))))
       (fun error =>
          setMessages (fun prev => Normal (prev ++ [error_message error now]))))
    (setLoading false).

(** A key pressed in the input box. *)
Record key_event := { key : jsstring; shiftKey : bool }.

Definition handleKeyPress (e : key_event) (now : N)
  : M chat (option request) :=
  if bool_decide (key e = str "Enter") && negb (shiftKey e)
  then handleSend_start now
  else ret None.

(** What can happen on the page: the input is edited, a key is pressed in
    it, the send button is clicked, a pending [/ask] settles. (The
    [disabled] attributes of the input and the button only take events
    away.) *)
Inductive event :=
| Edit (text : jsstring)
| KeyPress (e : key_event) (now : N)
| Click (now : N)
| Settle (net : settled response) (now : N).

(** The page together with the number of [/ask] requests awaiting a
    settlement. *)
Definition step (e : event) (st : chat * nat) : option (chat * nat) :=
  let (s, inflight) := st in
  match e with
  | Edit text => Some (exec (setInputValue text) s, inflight)
  | KeyPress k now =>
      match handleKeyPress k now s with
      | (Normal (Some _), s') => Some (s', S inflight)
      | (_, s') => Some (s', inflight)
      end
  | Click now =>
      match handleSend_start now s with
      | (Normal (Some _), s') => Some (s', S inflight)
      | (_, s') => Some (s', inflight)
      end
  | Settle net now =>
      match inflight with
      | 0 => None
      | S n => Some (exec (handleSend_resume now net) s, n)
      end
  end.

Fixpoint run (evs : list event) (st : chat * nat) : option (chat * nat) :=
  match evs with
  | [] => Some st
  | e :: rest => st' ← step e st; run rest st'
  end.

(** [message.sources.length > 0]; a [length] that is not a number is
    compared as not greater. *)
Definition is_positive (v : value) : bool :=
  match v with
  | VNum q => negb (Qle_bool q 0)
  | _ => false
  end.

(** One cited source. *)
Definition source_item (source : value) : completion node :=
  and_then (get source (str "doc_name")) (fun doc_name =>
  and_then (get source (str "page")) (fun page =>
  and_then (get source (str "toc_section")) (fun toc_section =>
  Normal
    (El "div" "source-item" None
       [El "span" "source-doc" None [Text doc_name];
        El "span" "source-page" None [lit "p."; Text page];
        El "span" "source-section" None [Text toc_section]])))).

(** [message.sources && message.sources.length > 0 && (...)] *)
Definition sources_block (m : msg) : completion node :=
  if negb (truthy (sources m)) then Normal (Text (sources m))
  else
    and_then (get (sources m) (str "length")) (fun count =>
    if negb (is_positive count) then Normal (Text (VBool false))
    else
      match sources m with
      | VArr srcs =>
          and_then (array_map source_item srcs) (fun items =>
          Normal (El "div" "sources" None
                    (El "p" "sources-title" None [lit "📎 출처:"] :: items)))
      | _ => Throw (Exn None (str "message.sources.map is not a function"))
      end).

(** *** Vocabulary of the properties *)

(** The reply of [/ask] can be read: it resolved with something that has
    properties, or it was rejected. *)
Definition answered (net : settled response) : Prop :=
  match net with
  | Resolved r => nullish (resp_data r) = false
  | Rejected _ => True
  end.

(** The message a settlement appends. *)
Definition reply (net : settled response) (now : N) : msg :=
  match net with
  | Resolved r =>
      {| type := str "assistant";
         content := get_opt (resp_data r) (str "answer");
         sources := get_opt (resp_data r) (str "sources");
         timestamp := now |}
  | Rejected e => error_message (on_rejected e) now
  end.

(** A click on the send button, or Enter without Shift in the input. *)
Definition submits (e : event) (now : N) : Prop :=
  e = Click now
  ∨ ∃ k, e = KeyPress k now ∧ key k = str "Enter" ∧ shiftKey k = false.

Definition is_settle (e : event) : bool :=
  match e with
  | Settle _ _ => true
  | _ => false
  end.

(** Every request a page has issued is [POST /ask] with exactly a question
    and the scope of the page. *)
Definition asks (scoped : value) (r : request) : Prop :=
  ∃ question,
    r = {| method := str "POST"; url := str "/ask";
           data := Json (VObj [(str "question", VStr question);
                               (str "doc_name", scoped)]) |}.

(** Between events the page is loading exactly when a request is pending,
    and at most one is. *)
Definition calm (st : chat * nat) : Prop :=
  (loading st.1 = true ∧ st.2 = 1) ∨ (loading st.1 = false ∧ st.2 = 0).

End ChatPage.

(** ** pages/HomePage.js: the upload card and the buttons *)

Module HomeView.
Import Api React HomePage.

(** [disabled={uploadQueue.length > 0}] of the file input. *)
Definition file_input_disabled (s : page) : bool :=
  bool_decide (0 < length (uploadQueue s)).

(** The label that stands for the file input. *)
Definition upload_button (s : page) : node :=
  El "label" "upload-button" None
    [if bool_decide (0 < length (uploadQueue s))
     then lit "업로드 중..." else lit "PDF 선택 (여러 개 가능)"].

(** What React puts on the screen for a value between braces: nothing for
    [undefined], [null] and the booleans. *)
Definition is_shown (v : value) : bool :=
  match v with
  | VUndefined | VNull | VBool _ => false
  | _ => true
  end.

Definition visible (n : node) : list value :=
  filter (fun v => is_shown v = true) (texts n).

(** [`${item.error}`]; [null] reads "null". *)
Definition error_to_string (e : option jsstring) : jsstring :=
  match e with
  | Some m => m
  | None => str "null"
  end.

(** [test && v] for a boolean [test]. *)
Definition and_show (test : bool) (v : value) : value :=
  if test then v else VBool false.

(** The four expressions of an entry's status. [print] is the conversion
    of a number to a string that a template literal applies ([`${n}`]). *)
Definition upload_status (print : rounded → jsstring) (it : item)
  : list value :=
  [and_show (bool_decide (status it = str "waiting")) (VStr (str "⏳ 대기 중"));
   and_show (bool_decide (status it = str "uploading"))
     (VStr (str "📤 업로드 중 (" ++ print (progress it) ++ str "%)"));
   and_show (bool_decide (status it = str "completed")) (VStr (str "✅ 완료"));
   and_show (bool_decide (status it = str "error"))
     (VStr (str "❌ 실패: " ++ error_to_string (error it)))].

(** The line of an entry: its name and its status. *)
Definition upload_item_info (print : rounded → jsstring) (it : item)
  : node :=
  El "div" "upload-item-info" None
    [El "span" "upload-filename" None [Text (VStr (name it))];
     El "span" "upload-status" None (Text <$> upload_status print it)].

(** The progress bar under an entry's line, for an upload in progress (its
    width is the entry's progress). *)
Definition progress_bar (it : item) : node :=
  if bool_decide (status it = str "uploading")
  then El "div" "progress-bar" None [El "div" "progress-fill" None []]
  else Text (VBool false).

(** The heading of the queue: completed entries out of all entries. *)
Definition upload_heading (s : page) : node :=
  El "h3" "" None
    [lit "업로드 진행 상황 (";
     Text (of_nat (length (filter (fun q => status q = str "completed")
                             (uploadQueue s))));
     lit "/"; Text (of_nat (length (uploadQueue s))); lit ")"].



(** [location.state] on the page a navigation opens. *)
Definition location_state (a : action) : value :=
  match a with
  | Navigate _ options => get_opt options (str "state")
  | Delete _ => VUndefined
  end.

(** *** Vocabulary of the properties *)

(** The events of a run in which every upload is answered by [answers] and
    the reload by [reload], and no progress is reported. *)
Definition follows (answers : nat → settled response)
    (reload : settled response) (e : event) : Prop :=
  match e with
  | Settle i net => net = answers i
  | Loaded net => net = reload
  | Progress _ _ => False
  | _ => True
  end.

(** What an entry tells of the outcome of its upload. *)
Definition tells (net : settled response) (it : item) : Prop :=
  match returns net with
  | Resolved _ => status it = str "completed" ∧ progress it = Whole 100
  | Rejected e => status it = str "error" ∧ error it = Some (message e)
  end.

End HomeView.

(** ** pages/ChatPage.js: the send button, and words for a conversation *)

Module ChatView.
Import Api React ChatPage HomeView.

(** [disabled={loading || !inputValue.trim()}] of the send button. *)
Definition send_disabled (s : chat) : bool :=
  loading s || negb (truthy (VStr (trim (inputValue s)))).

(** *** Vocabulary of the properties *)

(** The text of a user message. *)
Definition asked (m : msg) : option jsstring :=
  if bool_decide (type m = str "user")
  then match content m with
       | VStr text => Some text
       | _ => None
       end
  else None.

(** A string that is not empty and neither begins nor ends with white
    space. *)
Definition tidy (q : jsstring) : Prop :=
  q ≠ []
  ∧ (∀ c, head q = Some c → is_white_space c = false)
  ∧ (∀ c, last q = Some c → is_white_space c = false).

(** Questions and replies in turn; the flag tells whether the last question
    still awaits its reply. *)
Inductive conversation : list msg → bool → Prop :=
| conv_start : conversation [] false
| conv_ask l m :
    conversation l false → type m = str "user" →
    conversation (l ++ [m]) true
| conv_reply l m :
    conversation l true →
    type m = str "assistant" ∨ type m = str "error" →
    conversation (l ++ [m]) false.

(** A settlement whose reply can be read. *)
Definition readable (e : event) : Prop :=
  match e with
  | Settle net _ => answered net
  | _ => True
  end.

(** A block that puts nothing on the screen. *)
Definition hidden (block : completion node) : Prop :=
  ∃ v, block = Normal (Text v) ∧ is_shown v = false.

End ChatView.

(** ** electron/main.js *)

Module Electron.

(** What [fetch] resolves with. *)
Record fetch_response := { ok : bool; http_status : nat }.

(** The [check-backend-status] handler, from the moment
    [fetch('http://localhost:8000/health')] has settled. *)
Definition check_backend_status (net : settled fetch_response)
  : M unit bool :=
  try_catch
    (response <- await net ;;
     ret (ok response))
    (fun error => ret false).

End Electron.

(** ** electron/main.js: the life of the main process *)

Module MainProcess.

(** Where the process runs: [isDev], [process.platform], [__dirname]. *)
Record host := { isDev : bool; platform : jsstring; dirname : jsstring }.

(** [path.join(from, to)], kept as written. *)
Record path := { from : jsstring; to : jsstring }.

Inductive location :=
| Http (url : jsstring)
| FileUrl (file : path).

(** What the main process asks of Electron and of the operating system.
    Windows and child processes are numbered as they are created. *)
Inductive effect :=
| Spawn (pid : nat) (command : jsstring) (args : list jsstring) (cwd : path)
| NewWindow (id : nat) (preload : path)
| LoadURL (id : nat) (url : location)
| OpenDevTools (id : nat)
| ShowWindow (id : nat)
| AppQuit
| Kill (pid : nat).

(** The two variables of the module, what it has done so far, and what
    Electron holds for it: the open windows
    ([BrowserWindow.getAllWindows()]), the windows whose
    [once('ready-to-show')] listener has not run yet, whether the
    [whenReady] callback has run (it registers the 'activate' listener),
    whether the 3 s timer is pending, an exception no handler caught, and
    whether the process has quit. *)
Record main := {
  mainWindow : option nat;
  backendProcess : option nat;
  effects : list effect;
  windows : list nat;
  unshown : list nat;
  activate_listener : bool;
  timer : bool;
  uncaught : option exn;
  exited : bool
}.

Definition initial : main :=
  {| mainWindow := None; backendProcess := None; effects := [];
     windows := []; unshown := []; activate_listener := false;
     timer := false; uncaught := None; exited := false |}.

Definition emit (es : list effect) : M main unit :=
  modify (fun s =>
    {| mainWindow := mainWindow s; backendProcess := backendProcess s;
       effects := effects s ++ es; windows := windows s;
       unshown := unshown s; activate_listener := activate_listener s;
       timer := timer s; uncaught := uncaught s; exited := exited s |}).

Definition set_mainWindow (w : option nat) : M main unit :=
  modify (fun s =>
    {| mainWindow := w; backendProcess := backendProcess s;
       effects := effects s; windows := windows s;
       unshown := unshown s; activate_listener := activate_listener s;
       timer := timer s; uncaught := uncaught s; exited := exited s |}).

Definition set_backendProcess (p : option nat) : M main unit :=
  modify (fun s =>
    {| mainWindow := mainWindow s; backendProcess := p;
       effects := effects s; windows := windows s;
       unshown := unshown s; activate_listener := activate_listener s;
       timer := timer s; uncaught := uncaught s; exited := exited s |}).

(** Electron's side of [new BrowserWindow] and of a window closing. *)
Definition set_windows (open armed : list nat) : M main unit :=
  modify (fun s =>
    {| mainWindow := mainWindow s; backendProcess := backendProcess s;
       effects := effects s; windows := open; unshown := armed;
       activate_listener := activate_listener s;
       timer := timer s; uncaught := uncaught s; exited := exited s |}).

(** [app.on('activate', ...)] and [setTimeout(..., 3000)]. *)
Definition set_pending (listener timer_ : bool) : M main unit :=
  modify (fun s =>
    {| mainWindow := mainWindow s; backendProcess := backendProcess s;
       effects := effects s; windows := windows s; unshown := unshown s;
       activate_listener := listener; timer := timer_;
       uncaught := uncaught s; exited := exited s |}).

Definition stop (thrown : option exn) (quit : bool) (s : main) : main :=
  {| mainWindow := mainWindow s; backendProcess := backendProcess s;
     effects := effects s; windows := windows s; unshown := unshown s;
     activate_listener := activate_listener s; timer := timer s;
     uncaught := thrown; exited := quit |}.

(** [startBackend()]; both branches of [pythonCmd] read 'python'. *)
Definition startBackend (h : host) : M main unit :=
  done_ <- gets effects ;;
  let backendPath := {| from := dirname h; to := str "../backend" |} in
  let pythonCmd := if isDev h then str "python" else str "python" in
  let pid := length done_ in
  emit [Spawn pid pythonCmd
          [str "-m"; str "uvicorn"; str "src.api.main:app";
           str "--host"; str "127.0.0.1"; str "--port"; str "8000"]
          backendPath] ;;
  set_backendProcess (Some pid).

Definition startUrl (h : host) : location :=
  if isDev h then Http (str "http://localhost:3000")
  else FileUrl {| from := dirname h;
                  to := str "../frontend/build/index.html" |}.

(** [createWindow()] *)
Definition createWindow (h : host) : M main unit :=
  done_ <- gets effects ;;
  open <- gets windows ;;
  armed <- gets unshown ;;
  let id := length done_ in
  emit [NewWindow id {| from := dirname h; to := str "preload.js" |}] ;;
  set_windows (open ++ [id]) (armed ++ [id]) ;;
  set_mainWindow (Some id) ;;
  emit [LoadURL id (startUrl h)] ;;
  (if isDev h then emit [OpenDevTools id] else ret tt).

(** The listener of a window's 'ready-to-show': [mainWindow.show()], with
    the [mainWindow] of the moment. *)
Definition on_ready_to_show : M main unit :=
  w <- gets mainWindow ;;
  match w with
  | Some id => emit [ShowWindow id]
  | None => throw (type_error (str "null") (str "show"))
  end.

(** The listener of a window's 'closed'. *)
Definition on_closed : M main unit := set_mainWindow None.

(** The callback of [app.whenReady()]. *)
Definition on_ready (h : host) : M main unit :=
  startBackend h ;;
  set_pending true true.

(** The listener of 'activate'. *)
Definition on_activate (h : host) : M main unit :=
  open <- gets windows ;;
  if decide (length open = 0) then createWindow h else ret tt.

(** The listener of 'window-all-closed'. *)
Definition on_window_all_closed (h : host) : M main unit :=
  if decide (platform h ≠ str "darwin") then emit [AppQuit] else ret tt.

(** The listener of 'quit'. *)
Definition on_quit : M main unit :=
  p <- gets backendProcess ;;
  match p with
  | Some pid => emit [Kill pid]
  | None => ret tt
  end.

(** What Electron tells the process. A window that closes is followed by
    'window-all-closed' when it was the last one open. *)
Inductive event :=
| Ready
| Timer
| Activate
| ReadyToShow (id : nat)
| Closed (id : nat)
| Quit.

(** A listener run by the event loop: what it throws nobody catches. *)
Definition dispatch (listener : M main unit) (s : main) : main :=
  match listener s with
  | (Normal _, s') => s'
  | (Throw e, s') => stop (Some e) (exited s') s'
  end.

Definition step (h : host) (e : event) (s : main) : option main :=
  if exited s then None
  else
    match e with
    | Ready =>
        if activate_listener s then None else Some (dispatch (on_ready h) s)
    | Timer =>
        if timer s
        then Some (dispatch (createWindow h)
                     (exec (set_pending (activate_listener s) false) s))
        else None
    | Activate =>
        Some (if activate_listener s then dispatch (on_activate h) s else s)
    | ReadyToShow id =>
        if decide (id ∈ windows s ∧ id ∈ unshown s)
        then Some (dispatch on_ready_to_show
                     (exec (set_windows (windows s)
                              (filter (fun w => w ≠ id) (unshown s))) s))
        else None
    | Closed id =>
        if decide (id ∈ windows s)
        then
          let open := filter (fun w => w ≠ id) (windows s) in
          let s1 := dispatch on_closed
                      (exec (set_windows open
                               (filter (fun w => w ≠ id) (unshown s))) s) in
          Some (if decide (open = [])
                then dispatch (on_window_all_closed h) s1 else s1)
        else None
    | Quit => Some (stop (uncaught s) true (dispatch on_quit s))
    end.

Fixpoint run (h : host) (evs : list event) (s : main) : option main :=
  match evs with
  | [] => Some s
  | e :: rest => s' ← step h e s; run h rest s'
  end.

(** *** Vocabulary of the properties *)

Definition is_spawn (e : effect) : bool :=
  match e with
  | Spawn _ _ _ _ => true
  | _ => false
  end.

(** The one command the back end is started with. *)
Definition backend_command (h : host) : effect :=
  Spawn 0 (str "python")
    [str "-m"; str "uvicorn"; str "src.api.main:app";
     str "--host"; str "127.0.0.1"; str "--port"; str "8000"]
    {| from := dirname h; to := str "../backend" |}.

(** What the process may do on a host: create windows with its preload
    script, load the start URL, open the developer tools in development,
    ask to quit elsewhere than on macOS. *)
Definition allowed (h : host) (e : effect) : Prop :=
  match e with
  | NewWindow _ preload =>
      preload = {| from := dirname h; to := str "preload.js" |}
  | LoadURL _ url => url = startUrl h
  | OpenDevTools _ => isDev h = true
  | AppQuit => platform h ≠ str "darwin"
  | _ => True
  end.

(** The effects that make and fill a window. *)
Definition about_window (e : effect) : bool :=
  match e with
  | NewWindow _ _ | LoadURL _ _ | OpenDevTools _ => true
  | _ => false
  end.

(** What [createWindow] asks for, for the window [id]. *)
Definition window_effects (h : host) (id : nat) : list effect :=
  [NewWindow id {| from := dirname h; to := str "preload.js" |};
   LoadURL id (startUrl h)]
  ++ (if isDev h then [OpenDevTools id] else []).

Definition is_kill (e : effect) : bool :=
  match e with
  | Kill _ => true
  | _ => false
  end.

End MainProcess.

(** ** The retrieval core (Python back end), after the specification *)

Module Core.

(** Modelled from the spec: a chunk ID (section 3: document hash and
    sequence number). The back end is not among the sources. *)
Definition chunk_id : Type := N * nat.

(** Modelled from the spec: a Chunk as the Document Processor hands it on
    (section 3). *)
Record Chunk := { text : string; page : nat; toc_section : string }.

(** Modelled from the spec: the IndexRecord stored in both indexes
    (section 3). *)
Record IndexRecord := {
  chunk : chunk_id;
  document : string;
  body : Chunk;
  embedding : list Q
}.

(** Modelled from the spec: the error taxonomy of section 7;
    [IndexWriteFailed] is the failure of one index write, surfaced after
    the compensating delete has succeeded. *)
Inductive error :=
| MalformedInputError
| EmbeddingUnavailableError
| LanguageModelUnavailableError
| IndexWriteFailed
| IndexConsistencyError
| NotFoundError.

(** Modelled from the spec: the two indexes, and the documents ingested so
    far, keyed by content hash, each with its name and chunk count
    (sections 3 and 6). *)
Record corpus := {
  lexical : gmap chunk_id IndexRecord;
  vectors : gmap chunk_id IndexRecord;
  ingested : gmap N (string * nat)
}.

(** Modelled from the spec: the corpus of a back end that has ingested
    nothing yet. *)
Definition empty : corpus :=
  {| lexical := ∅; vectors := ∅; ingested := ∅ |}.

(** Modelled from the spec: [index(records)] and [upsert(records)] of
    sections 4.4 and 4.5. *)
Definition upsert (records : list IndexRecord)
    (m : gmap chunk_id IndexRecord) : gmap chunk_id IndexRecord :=
  list_to_map ((fun r => (chunk r, r)) <$> records) ∪ m.

(** Modelled from the spec: [remove(chunk_ids)] and [delete(chunk_ids)] of
    sections 4.4 and 4.5. *)
Definition remove (ids : gset chunk_id)
    (m : gmap chunk_id IndexRecord) : gmap chunk_id IndexRecord :=
  filter (fun kv => kv.1 ∉ ids) m.

(** Modelled from the spec: how the external services behave during one
    ingestion: whether the embedding service answers, whether each index
    write succeeds, whether a compensating delete succeeds. *)
Record services := {
  embedding_up : bool;
  vector_write : bool;
  lexical_write : bool;
  compensation : bool
}.

(** Modelled from the spec: what a request to the back end answers
    (section 6). *)
Inductive outcome :=
| Uploaded (document_name : string) (chunk_count : nat)
| Deleted
| Answered (cited : list chunk_id)
| Failed (e : error).

(** Modelled from the spec: the records of a document, one per chunk, with
    chunk IDs made of the content hash and the sequence number
    (section 3). *)
Definition records_of (name : string) (hash : N) (chunks : list Chunk)
    (embeddings : list (list Q)) : list IndexRecord :=
  imap (fun k c =>
          {| chunk := (hash, k); document := name; body := c;
             embedding := default [] (embeddings !! k) |}) chunks.

(** Modelled from the spec: the ingestion path of section 4.8, with the
    idempotence of section 6, the empty-input failure of section 4.1 and
    the compensating delete. *)
Definition upload (sv : services) (name : string) (hash : N)
    (chunks : list Chunk) (embeddings : list (list Q)) (c : corpus)
  : outcome * corpus :=
  match ingested c !! hash with
  | Some (existing, count) => (Uploaded existing count, c)
  | None =>
      if decide (chunks = []) then (Failed MalformedInputError, c)
      else if negb (embedding_up sv)
      then (Failed EmbeddingUnavailableError, c)
      else
        let records := records_of name hash chunks embeddings in
        let ids : gset chunk_id := list_to_set (chunk <$> records) in
        match vector_write sv, lexical_write sv with
        | true, true =>
            (Uploaded name (length chunks),
             {| lexical := upsert records (lexical c);
                vectors := upsert records (vectors c);
                ingested := <[hash := (name, length chunks)]> (ingested c) |})
        | true, false =>
            if compensation sv
            then (Failed IndexWriteFailed,
                  {| lexical := lexical c;
                     vectors := remove ids (upsert records (vectors c));
                     ingested := ingested c |})
            else (Failed IndexConsistencyError,
                  {| lexical := lexical c;
                     vectors := upsert records (vectors c);
                     ingested := ingested c |})
        | false, true =>
            if compensation sv
            then (Failed IndexWriteFailed,
                  {| lexical := remove ids (upsert records (lexical c));
                     vectors := vectors c;
                     ingested := ingested c |})
            else (Failed IndexConsistencyError,
                  {| lexical := upsert records (lexical c);
                     vectors := vectors c;
                     ingested := ingested c |})
        | false, false => (Failed IndexWriteFailed, c)
        end
  end.

(** Modelled from the spec: the chunk IDs of the ingested documents called
    [name] (sections 3 and 4.8). *)
Definition chunks_of (name : string) (docs : gmap N (string * nat))
  : gset chunk_id :=
  list_to_set
    (flat_map (fun e : N * (string * nat) =>
                 if decide (e.2.1 = name)
                 then (fun k => (e.1, k)) <$> seq 0 e.2.2
                 else [])
              (map_to_list docs)).

(** Modelled from the spec: the deletion path of section 4.8. *)
Definition delete_document (name : string) (c : corpus) : outcome * corpus :=
  if decide (chunks_of name (ingested c) = ∅) then (Failed NotFoundError, c)
  else
    let ids := chunks_of name (ingested c) in
    (Deleted,
     {| lexical := remove ids (lexical c);
        vectors := remove ids (vectors c);
        ingested := filter (fun e => e.2.1 ≠ name) (ingested c) |}).

(** Modelled from the spec: a query reads both indexes and writes neither
    (sections 4.4 to 4.6); what it cites are chunks found in the indexes,
    restricted to the document the question is scoped to; a question
    scoped to an unknown document fails (section 7). *)
Definition ask (doc_name : option string) (c : corpus) : outcome * corpus :=
  let wanted (r : IndexRecord) : bool :=
    match doc_name with
    | Some d => bool_decide (document r = d)
    | None => true
    end in
  let found :=
    (map_to_list (filter (fun kv => wanted kv.2 = true) (lexical c))).*1 ++
    (map_to_list (filter (fun kv => wanted kv.2 = true) (vectors c))).*1 in
  match doc_name with
  | Some d =>
      if decide (chunks_of d (ingested c) = ∅) then (Failed NotFoundError, c)
      else (Answered (remove_dups found), c)
  | None => (Answered (remove_dups found), c)
  end.

(** Modelled from the spec: the requests of section 6 that reach the
    indexes, an upload together with the behaviour of the services it
    meets. *)
Inductive request :=
| Upload (sv : services) (name : string) (hash : N) (chunks : list Chunk)
         (embeddings : list (list Q))
| DeleteDocument (name : string)
| Ask (doc_name : option string).

(** Modelled from the spec: the orchestrator serving one request
    (section 4.8). *)
Definition handle (r : request) (c : corpus) : outcome * corpus :=
  match r with
  | Upload sv name hash chunks embeddings =>
      upload sv name hash chunks embeddings c
  | DeleteDocument name => delete_document name c
  | Ask doc_name => ask doc_name c
  end.

(** Modelled from the spec: dual-index consistency (section 8). *)
Definition consistent (c : corpus) : Prop :=
  ∀ id, id ∈ dom (lexical c) ↔ id ∈ dom (vectors c).

(** The states the corpus can be in between requests. *)
Inductive observable : corpus -> Prop :=
| observable_empty : observable empty
| observable_handle r c : observable c -> observable (handle r c).2.

(** The same, as long as no request has ended in [IndexConsistencyError]. *)
Inductive tracked : corpus -> Prop :=
| tracked_empty : tracked empty
| tracked_handle r c :
    tracked c ->
    (handle r c).1 ≠ Failed IndexConsistencyError ->
    tracked (handle r c).2.

(** What holds of the corpus as long as no ingestion has ended in
    [IndexConsistencyError]: the two indexes hold the same records, and
    every indexed chunk belongs to an ingested document. *)
Definition sound (c : corpus) : Prop :=
  lexical c = vectors c
  ∧ ∀ id, id ∈ dom (lexical c) →
          ∃ name count, ingested c !! id.1 = Some (name, count)
                        ∧ id.2 < count.

(** *** Score fusion *)

(** Modelled from the spec: one score stream, the ranked
    [(chunk_id, score)] list a search returns (sections 4.4 and 4.5);
    scores are idealised as rationals. *)
Definition stream : Type := list (chunk_id * Q).

(** Modelled from the spec: the score a stream gives a candidate, if it
    returned the candidate at all (section 3: score or null). *)
Fixpoint score_of (c : chunk_id) (l : stream) : option Q :=
  match l with
  | [] => None
  | (k, x) :: rest => if decide (k = c) then Some x else score_of c rest
  end.

(** Modelled from the spec: min-max normalization to [0,1] of a score [x]
    among the [scores] of its stream (section 4.6): [lo] and [hi] are the
    least and the greatest score. The specification does not say what a
    stream whose scores are all equal is normalized to; [flat] stands for
    that value. *)
Definition normalize (flat : Q) (scores : list Q) (x : Q) : Q :=
  let lo := foldr Qmin x scores in
  let hi := foldr Qmax x scores in
  if Qeq_bool hi lo then flat else (x - lo) / (hi - lo).

(** Modelled from the spec: the configurable fusion weights (section 4.6);
    the defaults are vector 0.7 and lexical 0.3. *)
Record weights := { vector_weight : Q; lexical_weight : Q }.

(** Modelled from the spec: the default weights. *)
Definition default_weights : weights :=
  {| vector_weight := 7 # 10; lexical_weight := 3 # 10 |}.

(** Modelled from the spec: a RetrievalCandidate (section 3). *)
Record RetrievalCandidate := {
  candidate : chunk_id;
  lexical_score : option Q;
  vector_score : option Q;
  fused : Q
}.

(** Modelled from the spec: a source's share of the fused score, its
    weight times the normalized score, and nothing for a candidate the
    source did not return (section 4.6). *)
Definition share (flat : Q) (w : Q) (l : stream) (c : chunk_id) : Q :=
  match score_of c l with
  | Some x => w * normalize flat l.*2 x
  | None => 0
  end.

(** Modelled from the spec: the weighted, score-normalized sum of
    section 4.6. *)
Definition fuse (flat : Q) (w : weights) (lex vec : stream) (c : chunk_id)
  : RetrievalCandidate :=
  {| candidate := c;
     lexical_score := score_of c lex;
     vector_score := score_of c vec;
     fused := share flat (lexical_weight w) lex c
              + share flat (vector_weight w) vec c |}.

(** Modelled from the spec: the stream in which candidate [c] scores [x]
    and every other entry is what it was (section 8, holding the other
    scores fixed): the entry [score_of] reads is replaced. *)
Fixpoint rescore (c : chunk_id) (x : Q) (l : stream) : stream :=
  match l with
  | [] => []
  | (k, y) :: rest =>
      if decide (k = c) then (c, x) :: rest else (k, y) :: rescore c x rest
  end.

End Core.

(** * Properties *)

(** ** Strings *)

Module JsProps.
Import Api.

Example endsWith_pdf : endsWith (str "report.pdf") (str ".pdf") = true.
Proof. reflexivity. Qed.

Example endsWith_is_case_sensitive :
  endsWith (str "REPORT.PDF") (str ".pdf") = false.
Proof. reflexivity. Qed.

Example endsWith_longer_suffix : endsWith (str "pdf") (str ".pdf") = false.
Proof. reflexivity. Qed.

Example trim_both_ends : trim (str "  what is it?  ") = str "what is it?".
Proof. reflexivity. Qed.

Example trim_line_breaks : trim [10; 9; 32; 160; 12288]%N = [].
Proof. reflexivity. Qed.

Example str_is_utf16 : str "a가📤" = [97; 44032; 55357; 56548]%N.
Proof. reflexivity. Qed.

Example percent_rounds_half_up :
  percentCompleted 1 8 = Some (Whole 13)
  ∧ percentCompleted 1 3 = Some (Whole 33)
  ∧ percentCompleted 0 0 = Some NaN
  ∧ percentCompleted 5 0 = Some PosInfinity.
Proof. repeat split; reflexivity. Qed.

(** Setting a property leaves the other properties as they are. *)
Lemma get_with_property p x v q :
  q ≠ p → get (with_property p x v) q = get v q.
Proof.
  intros Hq. destruct v; try reflexivity. cbn.
  by rewrite decide_False by (intros ->; by apply Hq).
Qed.

End JsProps.

(** ** The home page: health, listing, deletion *)

Module HomeProps.
Import Api React HomePage.

(** C6. The health check always determines the connection status and never
    throws: [checkBackend] completes normally whatever [/health] did, leaving
    the status 'connected' when the call resolved and 'disconnected' when it
    was rejected, so never 'checking'; the Electron handler completes
    normally, with [false] when [fetch] is rejected (the back end cannot be
    reached) and with [response.ok] otherwise. *)
Theorem health_check_total :
  ∀ (net : settled response) (s : page)
    (probe : settled Electron.fetch_response),
    (checkBackend net s).1 = Normal tt
    ∧ backendStatus (checkBackend net s).2
      = match net with
        | Resolved _ => str "connected"
        | Rejected _ => str "disconnected"
        end
    ∧ backendStatus (checkBackend net s).2 ≠ str "checking"
    ∧ Electron.check_backend_status probe tt
      = (Normal match probe with
                | Resolved response => Electron.ok response
                | Rejected _ => false
                end, tt).
Proof.
  intros net s probe.
  destruct net as [r|e], probe as [p|e']; cbn; repeat split; discriminate.
Qed.

Lemma named_spec docName doc :
  named docName doc = true ↔ get_opt doc (str "name") = VStr docName.
Proof.
  unfold named. destruct (get_opt doc (str "name")); try (split; congruence).
  rewrite bool_decide_eq_true. split; congruence.
Qed.

Lemma other_than_named docName d :
  nullish d = false →
  other_than docName d = Normal (negb (named docName d)).
Proof.
  intros Hd. unfold other_than, named, get_opt.
  destruct (get d (str "name")) as [v|e] eqn:Hg.
  - destruct v; reflexivity.
  - destruct d; discriminate.
Qed.

Lemma array_filter_total (docName : jsstring) (docs : list value) :
  Forall (fun d => nullish d = false) docs →
  array_filter (other_than docName) docs
  = Normal (filter (fun d => named docName d = false) docs).
Proof.
  induction 1 as [|d docs Hd _ IH]; [reflexivity|].
  cbn [array_filter]. rewrite IH, filter_cons, (other_than_named _ _ Hd).
  destruct (named docName d); cbn; case_decide; congruence.
Qed.

(** C5. After a successful delete the displayed list is the previous list
    without the entries named [docName]: what is kept is kept unchanged and
    in its order (the new list is the filter of the old one, hence a
    sublist of it); after a failed delete the list is the previous list. *)
Theorem delete_updates_list
    (docName : jsstring) (docs : list value) (s : page)
    (net : settled response) :
  documents s = VArr docs →
  Forall (fun d => nullish d = false) docs →
  let s' := exec (handleDelete_resume docName net) s in
  match net with
  | Resolved _ =>
      documents s' = VArr (filter (fun d => named docName d = false) docs)
      ∧ filter (fun d => named docName d = false) docs `sublist_of` docs
      ∧ (∀ d, d ∈ filter (fun d => named docName d = false) docs
              ↔ d ∈ docs ∧ get_opt d (str "name") ≠ VStr docName)
  | Rejected _ => documents s' = VArr docs
  end
  ∧ failure s' = failure s.
Proof.
  intros Hdocs Hobj s'. subst s'.
  destruct net as [r|e].
  - unfold exec, handleDelete_resume, try_catch, bind, updateDocuments,
      modify, alert, without; cbn.
    rewrite Hdocs, (array_filter_total _ _ Hobj); cbn.
    split; [|reflexivity].
    split; [reflexivity|]. split; [apply sublist_filter|].
    intros d. rewrite list_elem_of_filter, <- named_spec.
    destruct (named docName d); intuition congruence.
  - split; [exact Hdocs|reflexivity].
Qed.

Lemma delete_updates_list_witness :
  let a := VObj [(str "name", VStr (str "a.pdf"))] in
  let b := VObj [(str "name", VStr (str "b.pdf"))] in
  documents (exec (handleDelete_resume (str "a.pdf")
                     (Resolved {| resp_data := VNull; resp_status := 200 |}))
                  (exec (setDocuments (VArr [a; b; a])) initial))
  = VArr [b].
Proof.
  intros a b.
  pose proof (delete_updates_list (str "a.pdf") [a; b; a]
                (exec (setDocuments (VArr [a; b; a])) initial)
                (Resolved {| resp_data := VNull; resp_status := 200 |})
                eq_refl) as H.
  cbv zeta in H. destruct H as [[H _] _].
  - repeat constructor.
  - rewrite H. vm_compute. reflexivity.
Defined.

(** A card reads the [name] and the [collections] of its document and
    nothing else. *)
Lemma document_card_reads doc doc' :
  get doc (str "name") = get doc' (str "name") →
  get doc (str "collections") = get doc' (str "collections") →
  document_card doc = document_card doc'.
Proof. unfold document_card. by intros -> ->. Qed.

Lemma document_card_texts doc name cs :
  get doc (str "name") = Normal name →
  get doc (str "collections") = Normal (VArr cs) →
  ∃ card, document_card doc = Normal card
          ∧ texts card = [name; of_nat (length cs);
                          VStr (str " collection(s)"); VStr (str "질문하기")].
Proof.
  intros Hn Hc. unfold document_card. rewrite Hn, Hc. cbn.
  eexists. split; [done|]. cbn. case_decide as Hl; [done|]. by destruct Hl.
Qed.

(** The list the specification promises, [{name, chunk_count}], with and
    without the [collections] the page reads: the card shows the number of
    collections, not the chunk count, and without [collections] there is no
    card at all. *)
Lemma chunk_count_not_displayed :
  let listed := VObj [(str "name", VStr (str "a.pdf"));
                      (str "chunk_count", of_nat 3)] in
  let stored := VObj [(str "name", VStr (str "a.pdf"));
                      (str "chunk_count", of_nat 3);
                      (str "collections", VArr [VStr (str "c1")])] in
  get stored (str "chunk_count") = Normal (of_nat 3)
  ∧ (∃ card, document_card stored = Normal card
             ∧ texts card = [VStr (str "a.pdf"); of_nat 1;
                             VStr (str " collection(s)");
                             VStr (str "질문하기")]
             ∧ of_nat 3 ∉ texts card)
  ∧ (∃ e, document_card listed = Throw e).
Proof.
  intros listed stored. split; [vm_compute; reflexivity|]. split.
  - eexists. split; [vm_compute; reflexivity|]. split; [reflexivity|].
    cbn. rewrite !elem_of_cons, elem_of_nil.
    intros [H|[H|[H|[H|[]]]]]; discriminate H.
  - eexists. vm_compute. reflexivity.
Qed.

Lemma array_map_total {A B} (f : A → completion B) (l : list A) :
  Forall (fun x => ∃ y, f x = Normal y) l →
  ∃ ys, array_map f l = Normal ys ∧ Forall2 (fun x y => f x = Normal y) l ys.
Proof.
  induction 1 as [|x l [y Hy] _ (ys & Hys & Hall)].
  - exists []. by split.
  - exists (y :: ys). cbn. rewrite Hy, Hys. split; [done|]. by constructor.
Qed.

(** The grid has one card per listed document, in the order of the list,
    under a heading that counts the documents. *)
Lemma grid_shows_every_document s docs :
  documents s = VArr docs → loading s = false → docs ≠ [] →
  Forall (fun doc => ∃ name cs,
            get doc (str "name") = Normal name
            ∧ get doc (str "collections") = Normal (VArr cs)) docs →
  ∃ cards,
    documents_section s
    = Normal
        (El "section" "documents-section" None
           [El "h2" "" None
              [Icon "FileText"; lit "업로드된 문서 (";
               Text (of_nat (length docs)); lit ")"];
            El "div" "documents-grid" None cards])
    ∧ Forall2 (fun doc card => document_card doc = Normal card) docs cards.
Proof.
  intros Hdocs Hl Hne Hall.
  destruct (array_map_total document_card docs) as (cards & Hcards & Hc).
  { eapply Forall_impl; [exact Hall|]. cbn.
    intros doc (name & cs & Hn & Hcs).
    destruct (document_card_texts doc name cs Hn Hcs) as (card & Hcard & _).
    eauto. }
  exists cards. split; [|done].
  unfold documents_section. rewrite Hdocs, Hl. cbn.
  rewrite decide_True by done. cbn.
  destruct docs as [|d docs]; [done|].
  change (is_zero (of_nat (length (d :: docs)))) with false.
  cbn [and_then]. by rewrite Hcards.
Qed.

Lemma array_map_throws {A B} (f : A → completion B) (l : list A) :
  Exists (fun x => ∃ e, f x = Throw e) l → ∃ e, array_map f l = Throw e.
Proof.
  induction 1 as [x l [e He]|x l _ [e He]]; cbn.
  - rewrite He. eauto.
  - destruct (f x); [|eauto]. rewrite He. eauto.
Qed.

Lemma array_map_ext {A B} (f g : A → completion B) (l : list A) :
  Forall (fun x => f x = g x) l → array_map f l = array_map g l.
Proof. induction 1 as [|x l Hx _ IH]; cbn; [done|]. by rewrite Hx, IH. Qed.

Lemma array_map_fmap {A B C} (f : B → completion C) (g : A → B) (l : list A) :
  array_map f (g <$> l) = array_map (fun x => f (g x)) l.
Proof. induction l as [|x l IH]; cbn; [done|]. by rewrite IH. Qed.

Lemma card_ignores_chunk_count count doc :
  document_card (with_property (str "chunk_count") count doc)
  = document_card doc.
Proof.
  apply document_card_reads; by apply JsProps.get_with_property.
Qed.

Lemma card_needs_collections doc :
  nullish (get_opt doc (str "collections")) = true →
  ∃ e, document_card doc = Throw e.
Proof.
  unfold document_card, get_opt.
  destruct (get doc (str "name")) as [name|e] eqn:Hn; cbn; [|eauto].
  destruct (get doc (str "collections")) as [cs|e] eqn:Hc; cbn; [|eauto].
  destruct cs; try done; cbn; eauto.
Qed.

(** C2 (amended). When the list of documents is loaded, is not empty and
    every document of it has an array [collections], the section of the
    documents shows one card per document, in the order of the list, and
    each card shows the [name] of its document and the number of entries of
    its [collections], followed by " collection(s)". When some document of
    the list has no [collections], rendering the section throws and no card
    is shown. The [chunk_count] of a document is never read: the section is
    the same whatever chunk counts the documents carry. *)
Theorem list_shows_collections (s : page) (docs : list value) :
  documents s = VArr docs → loading s = false → docs ≠ [] →
  (Forall (fun doc => ∃ cs, get_opt doc (str "collections") = VArr cs) docs →
   ∃ cards,
     documents_section s
     = Normal
         (El "section" "documents-section" None
            [El "h2" "" None
               [Icon "FileText"; lit "업로드된 문서 (";
                Text (of_nat (length docs)); lit ")"];
             El "div" "documents-grid" None cards])
     ∧ Forall2 (fun doc card =>
                  ∀ cs, get_opt doc (str "collections") = VArr cs →
                        texts card
                        = [get_opt doc (str "name"); of_nat (length cs);
                           VStr (str " collection(s)");
                           VStr (str "질문하기")])
               docs cards)
  ∧ (Exists (fun doc => nullish (get_opt doc (str "collections")) = true) docs →
     ∃ e, documents_section s = Throw e)
  ∧ (∀ (count : value → value) (s' : page),
       loading s' = false →
       documents s'
       = VArr ((fun doc => with_property (str "chunk_count") (count doc) doc)
               <$> docs) →
       documents_section s' = documents_section s).
Proof.
  intros Hdocs Hl Hne. split_and!.
  - intros Hall.
    destruct (grid_shows_every_document s docs Hdocs Hl Hne)
      as (cards & Hsec & Hcards).
    { eapply Forall_impl; [exact Hall|]. cbn. intros doc [cs Hcs].
      unfold get_opt in Hcs. destruct doc; try done. cbn in *.
      eexists _, cs. split; [reflexivity|]. by rewrite Hcs. }
    exists cards. split; [exact Hsec|].
    eapply Forall2_impl; [exact Hcards|]. cbn.
    intros doc card Hcard cs Hcs.
    assert (get doc (str "collections") = Normal (VArr cs)) as Hc.
    { unfold get_opt in Hcs. destruct doc; try done. cbn in *. by rewrite Hcs. }
    assert (get doc (str "name") = Normal (get_opt doc (str "name"))) as Hn.
    { unfold get_opt in *. by destruct doc. }
    destruct (document_card_texts doc _ cs Hn Hc) as (card' & Hcard' & Ht).
    rewrite Hcard in Hcard'. by injection Hcard' as ->.
  - intros Hex.
    destruct (array_map_throws document_card docs) as [e He].
    { eapply Exists_impl; [exact Hex|]. apply card_needs_collections. }
    unfold documents_section. rewrite Hdocs, Hl. cbn.
    rewrite decide_True by done. cbn.
    destruct docs as [|d docs]; [done|].
    change (is_zero (of_nat (length (d :: docs)))) with false.
    cbn [and_then]. rewrite He. cbn. eauto.
  - intros count s' Hl' Hdocs'.
    unfold documents_section. rewrite Hdocs, Hdocs', Hl, Hl'. cbn.
    rewrite !decide_True by done. rewrite length_fmap. cbn.
    rewrite array_map_fmap.
    rewrite (array_map_ext _ document_card); [done|].
    apply Forall_forall. intros doc _. apply card_ignores_chunk_count.
Qed.

Lemma list_shows_collections_witness :
  let a := VObj [(str "name", VStr (str "a.pdf"));
                 (str "chunk_count", of_nat 7);
                 (str "collections", VArr [VStr (str "c1"); VStr (str "c2")])] in
  let b := VObj [(str "name", VStr (str "b.pdf"));
                 (str "collections", VArr [])] in
  let s := exec (setLoading false ;; setDocuments (VArr [a; b])) initial in
  ∃ cards,
    documents_section s
    = Normal
        (El "section" "documents-section" None
           [El "h2" "" None
              [Icon "FileText"; lit "업로드된 문서 ("; Text (of_nat 2);
               lit ")"];
            El "div" "documents-grid" None cards])
    ∧ texts <$> cards
      = [[VStr (str "a.pdf"); of_nat 2; VStr (str " collection(s)");
          VStr (str "질문하기")];
         [VStr (str "b.pdf"); of_nat 0; VStr (str " collection(s)");
          VStr (str "질문하기")]].
Proof.
  intros a b s.
  destruct (list_shows_collections s [a; b]) as [H _];
    [vm_compute; reflexivity|vm_compute; reflexivity|discriminate|].
  destruct H as (cards & Hsec & Hcards).
  { repeat constructor; eexists; vm_compute; reflexivity. }
  exists cards. split; [exact Hsec|].
  apply Forall2_cons_inv_l in Hcards as (ca & cards1 & Ha & Hcards & ->).
  apply Forall2_cons_inv_l in Hcards as (cb & cards2 & Hb & Hcards & ->).
  apply Forall2_nil_inv_l in Hcards as ->.
  cbn. rewrite (Ha _ eq_refl), (Hb _ eq_refl). reflexivity.
Defined.

End HomeProps.

(** ** The home page: uploading a selection *)

Module UploadProps.
Import Api React HomePage.

Lemma step_start_inv b b' :
  step Start b = Some b' →
  ∃ i rest it,
    at_ b = Filling ∧ size (active b) < maxConcurrent b
    ∧ pending b = i :: rest ∧ queue b !! i = Some it
    ∧ b' = exec (uploadFile_start it) (begin_upload i rest b).
Proof.
  unfold step. destruct (at_ b) eqn:Hpc; try discriminate.
  case_decide as Hg; [|discriminate].
  destruct (pending b) as [|i rest] eqn:Hp; [discriminate|].
  destruct (queue b !! i) as [it|] eqn:Hq; [|discriminate].
  cbn. intros [= <-]. exists i, rest, it. intuition.
Qed.

Lemma step_sleep_inv b b' :
  step Sleep b = Some b' →
  at_ b = Filling
  ∧ ¬ (size (active b) < maxConcurrent b ∧ 0 < length (pending b))
  ∧ b' = goto Sleeping b.
Proof.
  unfold step. destruct (at_ b) eqn:Hpc; try discriminate.
  case_decide as Hg; [discriminate|]. intros [= <-]. intuition.
Qed.

Lemma step_progress_inv i percent b b' :
  step (Progress i percent) b = Some b' →
  ∃ it, at_ b = Sleeping ∧ i ∈ active b ∧ queue b !! i = Some it
        ∧ b' = exec (uploadFile_progress it percent) b.
Proof.
  unfold step. destruct (at_ b) eqn:Hpc; try discriminate.
  case_decide as Hg; [|discriminate].
  destruct (queue b !! i) as [it|] eqn:Hq; [|discriminate].
  cbn. intros [= <-]. exists it. intuition.
Qed.

Lemma step_settle_inv i net b b' :
  step (Settle i net) b = Some b' →
  ∃ it, at_ b = Sleeping ∧ i ∈ active b ∧ queue b !! i = Some it
        ∧ b' = exec (uploadFile_resume i it net) b.
Proof.
  unfold step. destruct (at_ b) eqn:Hpc; try discriminate.
  case_decide as Hg; [|discriminate].
  destruct (queue b !! i) as [it|] eqn:Hq; [|discriminate].
  cbn. intros [= <-]. exists it. intuition.
Qed.

Lemma step_timer_inv b b' :
  step Timer b = Some b' →
  at_ b = Sleeping
  ∧ ((0 < length (pending b) ∨ 0 < size (active b)) ∧ b' = goto Filling b
     ∨ (pending b = [] ∧ active b = ∅)
       ∧ b' = goto Reloading (exec (on_ui (send listDocuments_request)) b)).
Proof.
  unfold step. destruct (at_ b) eqn:Hpc; try discriminate.
  case_decide as Hg; intros [= <-]; (split; [done|]); [left; done|right].
  split; [|done]. split.
  - destruct (pending b); [done|]. cbn in Hg. lia.
  - apply leibniz_equiv, size_empty_inv. lia.
Qed.

Lemma step_loaded_inv net b b' :
  step (Loaded net) b = Some b' →
  at_ b = Reloading
  ∧ b' = goto Finished
           (exec (on_ui (loadDocuments net ;; summary (queue b))) b).
Proof.
  unfold step. destruct (at_ b) eqn:Hpc; try discriminate.
  by intros [= <-].
Qed.

Lemma step_clear_inv b b' :
  step Clear b = Some b' →
  at_ b = Finished
  ∧ b' = goto Cleared (exec (on_ui (setUploadQueue (fun _ => []))) b).
Proof.
  unfold step. destruct (at_ b) eqn:Hpc; try discriminate.
  by intros [= <-].
Qed.

Lemma start_fields it i rest b :
  ∀ b', b' = exec (uploadFile_start it) (begin_upload i rest b) →
  queue b' = queue b ∧ maxConcurrent b' = maxConcurrent b
  ∧ pending b' = rest ∧ active b' = {[i]} ∪ active b ∧ at_ b' = at_ b
  ∧ uploadQueue (ui b')
    = mark it (with_status (str "uploading")) (uploadQueue (ui b))
  ∧ requests (ui b')
    = requests (ui b) ++ [uploadDocument_request (file it)].
Proof. intros b' ->. repeat split. Qed.

Lemma progress_fields it p b :
  ∀ b', b' = exec (uploadFile_progress it p) b →
  queue b' = queue b ∧ maxConcurrent b' = maxConcurrent b
  ∧ pending b' = pending b ∧ active b' = active b ∧ at_ b' = at_ b
  ∧ uploadQueue (ui b') = mark it (with_progress p) (uploadQueue (ui b))
  ∧ requests (ui b') = requests (ui b).
Proof. intros b' ->. repeat split. Qed.

Lemma resume_fields i it net b :
  ∀ b', b' = exec (uploadFile_resume i it net) b →
  queue b' = queue b ∧ maxConcurrent b' = maxConcurrent b
  ∧ pending b' = pending b ∧ active b' = active b ∖ {[i]} ∧ at_ b' = at_ b
  ∧ uploadQueue (ui b') = mark it (verdict net) (uploadQueue (ui b))
  ∧ requests (ui b') = requests (ui b).
Proof.
  intros b' ->. unfold verdict. destruct net as [r|e]; repeat split.
Qed.

Lemma reload_fields b :
  ∀ b', b' = goto Reloading (exec (on_ui (send listDocuments_request)) b) →
  queue b' = queue b ∧ maxConcurrent b' = maxConcurrent b
  ∧ pending b' = pending b ∧ active b' = active b ∧ at_ b' = Reloading
  ∧ uploadQueue (ui b') = uploadQueue (ui b)
  ∧ requests (ui b') = requests (ui b) ++ [listDocuments_request].
Proof. intros b' ->. repeat split. Qed.

Lemma loaded_fields net b :
  ∀ b', b' = goto Finished
              (exec (on_ui (loadDocuments net ;; summary (queue b))) b) →
  queue b' = queue b ∧ maxConcurrent b' = maxConcurrent b
  ∧ pending b' = pending b ∧ active b' = active b ∧ at_ b' = Finished
  ∧ uploadQueue (ui b') = uploadQueue (ui b)
  ∧ requests (ui b') = requests (ui b).
Proof.
  intros b' ->. unfold summary.
  destruct net as [r|e]; cbn; case_decide; repeat split.
Qed.

Lemma clear_fields b :
  ∀ b', b' = goto Cleared (exec (on_ui (setUploadQueue (fun _ => []))) b) →
  queue b' = queue b ∧ maxConcurrent b' = maxConcurrent b
  ∧ pending b' = pending b ∧ active b' = active b ∧ at_ b' = Cleared
  ∧ uploadQueue (ui b') = []
  ∧ requests (ui b') = requests (ui b).
Proof. intros b' ->. repeat split. Qed.

Lemma scheduled_step base q k e b b' :
  scheduled base q k b → step e b = Some b' →
  scheduled base q (if e is Start then S k else k) b'.
Proof.
  intros (Hq & Hcap & Hpc & Hk & Hpend & Hact & Hsize & Hreq & Hdone) Hstep.
  unfold scheduled. destruct e.
  - apply step_start_inv in Hstep
      as (i & rest & it & Hat & Hfree & Hp & Hit & Hb).
    destruct (start_fields it i rest b b' Hb) as (-> & -> & -> & -> & -> & _ & ->).
    rewrite Hat in *. rewrite Hp in Hpend.
    destruct (length q - k) as [|m] eqn:Hm; [discriminate|].
    cbn in Hpend. injection Hpend as -> ->.
    rewrite Hq in Hit.
    split_and!; try done.
    + lia.
    + f_equal. lia.
    + intros i [->%elem_of_singleton| ?%Hact]%elem_of_union; lia.
    + rewrite size_union_alt, size_singleton.
      assert (size (active b ∖ {[k]}) ≤ size (active b))
        by (apply subseteq_size, subseteq_difference_l; done).
      lia.
    + rewrite Hreq, (take_S_r _ _ _ Hit), fmap_app. cbn.
      by rewrite !app_nil_r, app_assoc.
  - apply step_sleep_inv in Hstep as (Hat & _ & ->).
    rewrite Hat in *. split_and!; done.
  - apply step_progress_inv in Hstep as (it & Hat & Hi & Hit & Hb).
    destruct (progress_fields it _ b b' Hb)
      as (-> & -> & -> & -> & -> & _ & ->).
    split_and!; done.
  - apply step_settle_inv in Hstep as (it & Hat & Hi & Hit & Hb).
    destruct (resume_fields i it net b b' Hb) as (-> & -> & -> & -> & -> & _ & ->).
    rewrite Hat in *. split_and!; try done.
    + intros j [? _]%elem_of_difference. by apply Hact.
    + etrans; [apply subseteq_size|exact Hsize].
      by apply subseteq_difference_l.
  - apply step_timer_inv in Hstep as (Hat & [[_ ->]|[[Hp Ha] Hb]]).
    + rewrite Hat in *. split_and!; done.
    + destruct (reload_fields b b' Hb) as (-> & -> & -> & -> & -> & _ & ->).
      rewrite Hat in *. split_and!; try done.
      by rewrite Hreq, !app_nil_r, <- app_assoc.
  - apply step_loaded_inv in Hstep as (Hat & Hb).
    destruct (loaded_fields net b b' Hb) as (-> & -> & -> & -> & -> & _ & ->).
    rewrite Hat in *. split_and!; done.
  - apply step_clear_inv in Hstep as (Hat & Hb).
    destruct (clear_fields b b' Hb) as (-> & -> & -> & -> & -> & _ & ->).
    rewrite Hat in *. split_and!; done.
Qed.

Lemma scheduled_run base q evs :
  ∀ k b b', scheduled base q k b → run evs b = Some b' →
            ∃ k', scheduled base q k' b'.
Proof.
  induction evs as [|e evs IH]; intros k b b' Hs Hrun; cbn in Hrun.
  - injection Hrun as <-. eauto.
  - destruct (step e b) as [b1|] eqn:Hstep; [|discriminate].
    cbn in Hrun. eapply IH; [|exact Hrun].
    eapply scheduled_step; eauto.
Qed.

Lemma scheduled_entry q u :
  scheduled (requests u) q 0 (uploadWithConcurrency q 5 u).
Proof.
  unfold uploadWithConcurrency, scheduled.
  case_decide as Hne; cbn in Hne |- *; rewrite length_seq in Hne.
  - rewrite Nat.sub_0_r, !app_nil_r.
    split_and!; try done; try lia.
    rewrite size_empty. lia.
  - assert (length q = 0) as Hq by lia.
    apply nil_length_inv in Hq as ->. cbn.
    split_and!; try done.
    rewrite size_empty. lia.
Qed.

Lemma statuses_distinct :
  str "waiting" ≠ str "uploading" ∧ str "waiting" ≠ str "completed"
  ∧ str "waiting" ≠ str "error" ∧ str "uploading" ≠ str "completed"
  ∧ str "uploading" ≠ str "error" ∧ str "completed" ≠ str "error".
Proof. vm_compute. repeat split; discriminate. Qed.

Lemma mark_lookup it f l k :
  mark it f l !! k
  = (fun q => if decide (name q = name it) then f q else q) <$> l !! k.
Proof. apply list_lookup_fmap. Qed.

Lemma mark_names it f l :
  (∀ q, name (f q) = name q) → name <$> mark it f l = name <$> l.
Proof.
  intros Hf. unfold mark. rewrite <- list_fmap_compose.
  apply list_fmap_ext. intros _ q _. cbn. case_decide; auto.
Qed.

Lemma mark_elem it f l x :
  x ∈ mark it f l →
  ∃ y, y ∈ l ∧ x = if decide (name y = name it) then f y else y.
Proof.
  unfold mark. intros (y & -> & Hy)%list_elem_of_fmap. eauto.
Qed.

Lemma displayed_step base q k e b b' :
  scheduled base q k b → displayed q b → step e b = Some b' →
  displayed q b'.
Proof.
  intros (Hq & _ & _ & _ & _ & _ & _ & _ & Hdone).
  intros (Hnames & Hclr & Hvalid & Hwait & Hupl) Hstep.
  destruct statuses_distinct as (D1 & D2 & D3 & D4 & D5 & D6).
  unfold displayed. destruct e.
  - apply step_start_inv in Hstep
      as (i & rest & it & Hat & Hfree & Hp & Hit & Hb).
    destruct (start_fields it i rest b b' Hb)
      as (_ & _ & -> & -> & -> & -> & _).
    rewrite Hat in *. rewrite Hq in Hit.
    split; [intros _; rewrite mark_names; auto|].
    split; [done|]. split; [|split].
    + intros x (y & Hy & ->)%mark_elem. case_decide; [|by apply Hvalid].
      cbn. unfold statuses. rewrite !elem_of_cons. auto.
    + intros x (y & Hy & ->)%mark_elem. case_decide as Hn; cbn.
      { intros. congruence. }
      intros Hst j it' Hj Hname.
      specialize (Hwait y Hy Hst j it' Hj Hname). rewrite Hp in Hwait.
      apply elem_of_cons in Hwait as [->|]; [|done]. congruence.
    + intros x (y & Hy & ->)%mark_elem. case_decide as Hn; cbn.
      { intros _. exists i, it. split; [done|]. split; [done|].
        apply elem_of_union. left. by apply elem_of_singleton. }
      intros Hst. destruct (Hupl y Hy Hst) as (j & it' & ? & ? & ?).
      exists j, it'. split; [done|]. split; [done|].
      apply elem_of_union. by right.
  - apply step_sleep_inv in Hstep as (Hat & _ & ->).
    rewrite Hat in *. split_and!; [intros _; by apply Hnames|done..].
  - apply step_progress_inv in Hstep as (it & Hat & Hi & Hit & Hb).
    destruct (progress_fields it _ b b' Hb)
      as (_ & _ & -> & -> & -> & -> & _).
    rewrite Hat in *.
    split; [intros _; rewrite mark_names; auto|].
    split; [done|]. split; [|split].
    + intros x (y & Hy & ->)%mark_elem. case_decide; exact (Hvalid y Hy).
    + intros x (y & Hy & ->)%mark_elem. case_decide; exact (Hwait y Hy).
    + intros x (y & Hy & ->)%mark_elem. case_decide; exact (Hupl y Hy).
  - apply step_settle_inv in Hstep as (it & Hat & Hi & Hit & Hb).
    destruct (resume_fields i it net b b' Hb)
      as (_ & _ & -> & -> & -> & -> & _).
    rewrite Hat in *. rewrite Hq in Hit.
    assert (∀ y, name (verdict net y) = name y) as Hvn.
    { intros y. unfold verdict. by destruct (returns net). }
    assert (∀ y, status (verdict net y) = str "completed"
                 ∨ status (verdict net y) = str "error") as Hvs.
    { intros y. unfold verdict. destruct (returns net); auto. }
    split; [intros _; rewrite mark_names; auto|].
    split; [done|]. split; [|split].
    + intros x (y & Hy & ->)%mark_elem. case_decide; [|by apply Hvalid].
      unfold statuses. rewrite !elem_of_cons.
      destruct (Hvs y) as [-> | ->]; auto.
    + intros x (y & Hy & ->)%mark_elem. case_decide as Hn.
      { intros Hst. destruct (Hvs y); congruence. }
      by apply Hwait.
    + intros x (y & Hy & ->)%mark_elem. case_decide as Hn.
      { intros Hst. destruct (Hvs y); congruence. }
      intros Hst. destruct (Hupl y Hy Hst) as (j & it' & Hj & Hname & Hin).
      exists j, it'. split; [done|]. split; [done|].
      apply elem_of_difference. split; [done|].
      intros ->%elem_of_singleton. congruence.
  - apply step_timer_inv in Hstep as (Hat & [[_ ->]|[[Hp Ha] Hb]]).
    + rewrite Hat in *. split_and!; [intros _; by apply Hnames|done..].
    + destruct (reload_fields b b' Hb) as (_ & _ & -> & -> & -> & -> & _).
      rewrite Hat in *. split_and!; [intros _; by apply Hnames|done..].
  - apply step_loaded_inv in Hstep as (Hat & Hb).
    destruct (loaded_fields net b b' Hb) as (_ & _ & -> & -> & -> & -> & _).
    rewrite Hat in *. split_and!; [intros _; by apply Hnames|done..].
  - apply step_clear_inv in Hstep as (Hat & Hb).
    destruct (clear_fields b b' Hb) as (_ & _ & -> & -> & -> & -> & _).
    cbn. split_and!; [done|done|..]; intros x Hx; by apply elem_of_nil in Hx.
Qed.

Lemma displayed_run base q evs :
  ∀ k b b', scheduled base q k b → displayed q b → run evs b = Some b' →
            displayed q b'.
Proof.
  induction evs as [|e evs IH]; intros k b b' Hs Hd Hrun; cbn in Hrun.
  - by injection Hrun as <-.
  - destruct (step e b) as [b1|] eqn:Hstep; [|discriminate].
    cbn in Hrun. eapply IH; [| |exact Hrun].
    + eapply scheduled_step; eauto.
    + eapply displayed_step; eauto.
Qed.

Lemma displayed_entry q u :
  Forall (fun it => status it = str "waiting") q → uploadQueue u = q →
  displayed q (uploadWithConcurrency q 5 u).
Proof.
  intros Hw Hu. rewrite Forall_forall in Hw.
  destruct statuses_distinct as (D1 & _).
  assert (∀ j it', q !! j = Some it' → j ∈ seq 0 (length q)) as Hin.
  { intros j it' Hj%lookup_lt_Some. apply elem_of_seq. lia. }
  unfold uploadWithConcurrency, displayed.
  case_decide; cbn; rewrite Hu; (split_and!; [done|done|..]).
  all: try (intros it Hit; rewrite (Hw it Hit); unfold statuses;
            rewrite !elem_of_cons; auto).
  all: try (intros it Hit Hst; rewrite (Hw it Hit) in Hst; done).
  all: intros it Hit _ j it' Hj _; eauto.
Qed.

Lemma same_name_same_index (q uq : list item) k i y it :
  NoDup (name <$> q) → name <$> uq = name <$> q →
  uq !! k = Some y → q !! i = Some it → name y = name it → k = i.
Proof.
  intros Hnd Hn Hk Hi Hyi.
  apply (NoDup_lookup (name <$> q) k i (name y)); [done|..].
  - by rewrite <- Hn, list_lookup_fmap, Hk.
  - by rewrite list_lookup_fmap, Hi, Hyi.
Qed.

Lemma exact_step base q k e b b' :
  NoDup (name <$> q) →
  scheduled base q k b → displayed q b → exact b → step e b = Some b' →
  exact b' ∧ moves_forward (uploadQueue (ui b)) (uploadQueue (ui b')).
Proof.
  intros Hnd (Hq & _ & _ & Hk & Hpend & Hact & _ & _ & Hdone).
  intros (Hnames & _) Hex Hstep.
  assert (∀ x, forward x x) as Hrefl by (by left).
  assert (moves_forward (uploadQueue (ui b)) (uploadQueue (ui b))) as Hsame.
  { intros j y y' Hy Hy'. rewrite Hy in Hy'. injection Hy' as <-. auto. }
  unfold exact in Hex |- *. destruct e.
  - apply step_start_inv in Hstep
      as (i & rest & it & Hat & Hfree & Hp & Hit & Hb).
    destruct (start_fields it i rest b b' Hb)
      as (_ & _ & -> & -> & -> & -> & _).
    rewrite Hat in *. rewrite Hq in Hit.
    ospecialize (Hnames _); [done|]. ospecialize (Hex _); [done|].
    rewrite Hp in Hpend.
    destruct (length q - k) as [|m] eqn:Hm; [discriminate|].
    cbn in Hpend. injection Hpend as -> ->.
    split.
    + intros _ j x. rewrite mark_lookup.
      destruct (uploadQueue (ui b) !! j) as [y|] eqn:Hy; [|discriminate].
      cbn. intros [= <-]. destruct (Hex j y Hy) as [Hw Hu].
      case_decide as Hn.
      * assert (j = k) as -> by eauto using same_name_same_index.
        split; [|done]. intros [? _]%elem_of_seq. lia.
      * split.
        -- intros Hj. apply Hw. rewrite Hp. by right.
        -- intros [->%elem_of_singleton|Hj]%elem_of_union; [|auto].
           destruct Hn. apply lookup_lt_Some in Hy as Hlt.
           assert ((name <$> uploadQueue (ui b)) !! k = Some (name y)) as Hl
             by (by rewrite list_lookup_fmap, Hy).
           rewrite Hnames, list_lookup_fmap, Hit in Hl. by injection Hl.
    + intros j y y'. rewrite mark_lookup. intros Hy. rewrite Hy. cbn.
      intros [= <-]. case_decide as Hn; [|auto].
      assert (j = k) as -> by eauto using same_name_same_index.
      destruct (Hex k y Hy) as [Hw _]. right. left. split; [|done].
      apply Hw. rewrite Hp. by left.
  - apply step_sleep_inv in Hstep as (Hat & _ & ->).
    rewrite Hat in *. split; [|done]. intros _. by apply Hex.
  - apply step_progress_inv in Hstep as (it & Hat & Hi & Hit & Hb).
    destruct (progress_fields it _ b b' Hb)
      as (_ & _ & -> & -> & -> & -> & _).
    rewrite Hat in *. ospecialize (Hex _); [done|]. split.
    + intros _ j x. rewrite mark_lookup.
      destruct (uploadQueue (ui b) !! j) as [y|] eqn:Hy; [|discriminate].
      cbn. intros [= <-]. case_decide; exact (Hex j y Hy).
    + intros j y y'. rewrite mark_lookup. intros Hy. rewrite Hy. cbn.
      intros [= <-]. case_decide; apply Hrefl.
  - apply step_settle_inv in Hstep as (it & Hat & Hi & Hit & Hb).
    destruct (resume_fields i it net b b' Hb)
      as (_ & _ & -> & -> & -> & -> & _).
    rewrite Hat in *. rewrite Hq in Hit.
    ospecialize (Hnames _); [done|]. ospecialize (Hex _); [done|].
    assert (∀ y, status (verdict net y) = str "completed"
                 ∨ status (verdict net y) = str "error") as Hvs.
    { intros y. unfold verdict. destruct (returns net); auto. }
    split.
    + intros _ j x. rewrite mark_lookup.
      destruct (uploadQueue (ui b) !! j) as [y|] eqn:Hy; [|discriminate].
      cbn. intros [= <-]. destruct (Hex j y Hy) as [Hw Hu].
      case_decide as Hn.
      * assert (j = i) as -> by eauto using same_name_same_index.
        split.
        -- rewrite Hpend. intros [? _]%elem_of_seq.
           apply Hact in Hi. lia.
        -- intros [_ Hni]%elem_of_difference. destruct Hni.
           by apply elem_of_singleton.
      * split; [done|]. intros [? _]%elem_of_difference. auto.
    + intros j y y'. rewrite mark_lookup. intros Hy. rewrite Hy. cbn.
      intros [= <-]. case_decide as Hn; [|auto].
      assert (j = i) as -> by eauto using same_name_same_index.
      destruct (Hex i y Hy) as [_ Hu]. right. right. split; [auto|].
      apply Hvs.
  - apply step_timer_inv in Hstep as (Hat & [[_ ->]|[[Hp Ha] Hb]]).
    + rewrite Hat in *. split; [|done]. intros _. by apply Hex.
    + destruct (reload_fields b b' Hb) as (_ & _ & -> & -> & -> & -> & _).
      rewrite Hat in *. split; [|done]. intros _. by apply Hex.
  - apply step_loaded_inv in Hstep as (Hat & Hb).
    destruct (loaded_fields net b b' Hb) as (_ & _ & -> & -> & -> & -> & _).
    rewrite Hat in *. split; [|done]. intros _. by apply Hex.
  - apply step_clear_inv in Hstep as (Hat & Hb).
    destruct (clear_fields b b' Hb) as (_ & _ & -> & -> & -> & -> & _).
    split; [done|]. intros j y y' _ Hy'. by rewrite lookup_nil in Hy'.
Qed.

Lemma exact_entry q u :
  Forall (fun it => status it = str "waiting") q → uploadQueue u = q →
  exact (uploadWithConcurrency q 5 u).
Proof.
  intros Hw Hu _ k it. rewrite Forall_forall in Hw.
  unfold uploadWithConcurrency. case_decide; cbn; rewrite Hu.
  all: intros Hk%list_elem_of_lookup_2; split; [auto|].
  all: intros Hin; by apply not_elem_of_empty in Hin.
Qed.

Lemma healthy_step base q e b b' :
  healthy base q b → step e b = Some b' → healthy base q b'.
Proof.
  intros ([k Hs] & Hd & He) Hstep. split_and!.
  - eexists. eapply scheduled_step; eauto.
  - eapply displayed_step; eauto.
  - intros Hnd. eapply exact_step; eauto.
Qed.

Lemma healthy_run base q evs :
  ∀ b b', healthy base q b → run evs b = Some b' → healthy base q b'.
Proof.
  induction evs as [|e evs IH]; intros b b' Hh Hrun; cbn in Hrun.
  - by injection Hrun as <-.
  - destruct (step e b) as [b1|] eqn:Hstep; [|discriminate].
    cbn in Hrun. eauto using healthy_step.
Qed.

Lemma healthy_entry q u :
  Forall (fun it => status it = str "waiting") q → uploadQueue u = q →
  healthy (requests u) q (uploadWithConcurrency q 5 u).
Proof.
  intros Hw Hu. split_and!.
  - eexists. apply scheduled_entry.
  - by apply displayed_entry.
  - intros _. by apply exact_entry.
Qed.

Lemma returned_stuck u evs b :
  run evs (returned u) = Some b → evs = [] ∧ b = returned u.
Proof.
  destruct evs as [|e evs]; cbn.
  - by intros [= <-].
  - by destruct e.
Qed.

(** The two ways [handleFileUpload] can go. *)
Lemma handleFileUpload_cases files u :
  (filter is_pdf files = []
   ∧ ∃ u', handleFileUpload files u = returned u'
           ∧ uploadQueue u' = uploadQueue u ∧ requests u' = requests u)
  ∨ (filter is_pdf files ≠ []
     ∧ ∃ u', handleFileUpload files u
             = uploadWithConcurrency (queued <$> filter is_pdf files) 5 u'
             ∧ uploadQueue u' = queued <$> filter is_pdf files
             ∧ requests u' = requests u).
Proof.
  unfold handleFileUpload. case_decide as Hfiles.
  { left. apply nil_length_inv in Hfiles as ->. split; [done|].
    by exists u. }
  case_decide as Hpdf.
  { left. apply nil_length_inv in Hpdf. split; [done|].
    eexists. split; [done|]. by split. }
  right. split; [intros Hnil; by rewrite Hnil in Hpdf|].
  eexists. split; [done|]. case_decide; by split.
Qed.

Lemma queued_waiting (pdfs : list File) :
  Forall (fun it => status it = str "waiting") (queued <$> pdfs).
Proof. apply Forall_fmap, Forall_true. done. Qed.

Lemma queued_names (pdfs : list File) :
  name <$> (queued <$> pdfs) = fname <$> pdfs.
Proof. rewrite <- list_fmap_compose. done. Qed.

(** Every state of a batch that started is healthy. *)
Lemma batch_healthy files u evs b :
  filter is_pdf files ≠ [] →
  run evs (handleFileUpload files u) = Some b →
  healthy (requests u) (queued <$> filter is_pdf files) b.
Proof.
  intros Hne Hrun.
  destruct (handleFileUpload_cases files u)
    as [[? _]|(_ & u' & Hu & Hq & Hr)]; [done|].
  rewrite Hu in Hrun. rewrite <- Hr.
  eapply healthy_run; [|exact Hrun].
  apply healthy_entry; [apply queued_waiting|done].
Qed.

(** The requests a batch has issued: the uploads of the first [k] PDF files
    of the selection, then the reload of the list once the loop is left. *)
Lemma requests_so_far files u evs b :
  run evs (handleFileUpload files u) = Some b →
  ∃ k, requests (ui b)
       = requests u
         ++ (uploadDocument_request <$> take k (filter is_pdf files))
         ++ (if past_loop (at_ b) then [listDocuments_request] else []).
Proof.
  intros Hrun.
  destruct (handleFileUpload_cases files u)
    as [(Hnil & u' & Hu & Hq & Hr)|(Hne & _)].
  { rewrite Hu in Hrun. apply returned_stuck in Hrun as [-> ->]. cbn.
    exists 0. by rewrite Hr, !app_nil_r. }
  destruct (batch_healthy files u evs b Hne Hrun) as ([k Hs] & _ & _).
  destruct Hs as (_ & _ & _ & _ & _ & _ & _ & Hreq & _).
  exists k. rewrite Hreq. do 2 f_equal.
  by rewrite <- fmap_take, <- list_fmap_compose.
Qed.

(** With distinct names the statuses on the page are the scheduler's
    state: an entry shows 'waiting' exactly while it is pending and
    'uploading' exactly while its upload is in flight. *)
Lemma shown_is_scheduled files u evs b :
  NoDup (fname <$> filter is_pdf files) →
  filter is_pdf files ≠ [] →
  run evs (handleFileUpload files u) = Some b →
  at_ b ≠ Cleared →
  ∀ k it, uploadQueue (ui b) !! k = Some it →
    (status it = str "waiting" ↔ k ∈ pending b)
    ∧ (status it = str "uploading" ↔ k ∈ active b).
Proof.
  intros Hnd Hne Hrun Hpc k it Hk. rewrite <- queued_names in Hnd.
  destruct (batch_healthy files u evs b Hne Hrun) as (_ & Hd & Hex).
  destruct Hd as (Hnames & _ & _ & Hwait & Hupl).
  destruct (Hex Hnd Hpc k it Hk) as [Hw Hu].
  assert (it ∈ uploadQueue (ui b)) as Hin by eauto using list_elem_of_lookup_2.
  assert (∃ it', (queued <$> filter is_pdf files) !! k = Some it'
                 ∧ name it' = name it) as (it' & Hq & Hn).
  { assert ((name <$> uploadQueue (ui b)) !! k = Some (name it)) as Hl
      by (by rewrite list_lookup_fmap, Hk).
    rewrite (Hnames Hpc), list_lookup_fmap in Hl.
    destruct ((queued <$> filter is_pdf files) !! k) as [it'|]; [|done].
    cbn in Hl. injection Hl as Hl. eauto. }
  split; (split; [intros Hst|done]).
  - eauto.
  - destruct (Hupl it Hin Hst) as (j & it'' & Hj & Hn' & Hact).
    by rewrite (same_name_same_index _ _ k j it it'' Hnd (Hnames Hpc) Hk Hj).
Qed.

(** The objects of the local [queue] array are never written: every status
    update builds new objects inside [setUploadQueue]. *)
Lemma local_queue_stays_waiting files u evs b :
  run evs (handleFileUpload files u) = Some b →
  Forall (fun q => status q = str "waiting") (queue b).
Proof.
  intros Hrun.
  destruct (handleFileUpload_cases files u)
    as [(Hnil & u' & Hu & Hq & Hr)|(Hne & _)].
  { rewrite Hu in Hrun. by apply returned_stuck in Hrun as [-> ->]. }
  destruct (batch_healthy files u evs b Hne Hrun) as ([k Hs] & _ & _).
  destruct Hs as (-> & _). apply Forall_fmap, Forall_forall. done.
Qed.

(** The summary counts over that array, so whatever the uploads did it
    reports no completed and no failed upload. *)
Lemma summary_counts_nothing files u evs b :
  run evs (handleFileUpload files u) = Some b →
  summary (queue b) (ui b)
  = alert [of_nat 0; VStr (str "개 파일이 성공적으로 업로드되었습니다!")]
      (ui b).
Proof.
  intros Hw%local_queue_stays_waiting. unfold summary.
  destruct statuses_distinct as (D1 & D2 & D3 & D4 & D5 & D6).
  assert (∀ s, s ≠ str "waiting" →
            filter (fun q => status q = s) (queue b) = []) as Hnone.
  { intros s Hs. induction Hw as [|q l Hq _ IH]; [done|].
    rewrite filter_cons_False; [done|]. congruence. }
  rewrite !Hnone by congruence. done.
Qed.

(** C1. During a batch at most five uploads are in flight at any time, and
    uploads start in submission order: the only event that starts an upload
    is a start, which needs a free slot and takes the first waiting entry,
    so that no entry before it is still waiting and every entry still
    waiting comes after it; the upload requests issued so far are those of
    the first [k] queued files, in the order of the selection. When the
    queued files have distinct names, the statuses on the page say the
    same: an entry shows 'waiting' exactly while it is pending and
    'uploading' exactly while its upload is in flight. *)
Theorem upload_cap_and_order files u evs b :
  run evs (handleFileUpload files u) = Some b →
  size (active b) ≤ 5
  ∧ (∀ b', step Start b = Some b' →
       ∃ i, size (active b) < 5
            ∧ pending b = i :: pending b' ∧ active b' = {[i]} ∪ active b
            ∧ (∀ j, j < i → (j ∉ pending b) ∧ (j ∉ pending b'))
            ∧ (∀ j, j ∈ pending b' → i < j))
  ∧ (∀ e b', step e b = Some b' → e ≠ Start →
       pending b' = pending b ∧ active b' ⊆ active b)
  ∧ (∃ k, requests (ui b)
          = requests u
            ++ (uploadDocument_request <$> take k (filter is_pdf files))
            ++ (if past_loop (at_ b) then [listDocuments_request] else []))
  ∧ (NoDup (fname <$> filter is_pdf files) →
     at_ b ≠ Returned → at_ b ≠ Cleared →
     ∀ k it, uploadQueue (ui b) !! k = Some it →
       (status it = str "waiting" ↔ k ∈ pending b)
       ∧ (status it = str "uploading" ↔ k ∈ active b)).
Proof.
  intros Hrun.
  pose proof (requests_so_far files u evs b Hrun) as Hreqs.
  destruct (handleFileUpload_cases files u)
    as [(Hnil & u' & Hu & Hq & Hr)|(Hne & _)].
  { rewrite Hu in Hrun. apply returned_stuck in Hrun as [-> ->]. cbn.
    split_and!.
    - rewrite size_empty. lia.
    - intros b'. discriminate.
    - intros e b'. by destruct e.
    - done.
    - done. }
  destruct (batch_healthy files u evs b Hne Hrun) as ([k Hs] & _ & _).
  destruct Hs as (Hq & Hcap & Hpc & Hk & Hpend & Hact & Hsize & Hreq & Hdone).
  split_and!.
  - done.
  - intros b' (i & rest & it & Hat & Hfree & Hp & Hit & Hb)%step_start_inv.
    destruct (start_fields it i rest b b' Hb)
      as (_ & _ & -> & -> & _).
    rewrite Hp in Hpend.
    destruct (length (queued <$> filter is_pdf files) - k)
      as [|m] eqn:Hm; [discriminate|].
    cbn in Hpend. injection Hpend as -> ->.
    exists k. split_and!; [lia|done|done|..].
    + intros j Hj. rewrite Hp. split.
      * intros [->|[? _]%elem_of_seq]%elem_of_cons; lia.
      * intros [? _]%elem_of_seq. lia.
    + intros j [? _]%elem_of_seq. lia.
  - intros e b' Hstep Hne'. destruct e; [done|..].
    + by apply step_sleep_inv in Hstep as (_ & _ & ->).
    + apply step_progress_inv in Hstep as (it & _ & _ & _ & Hb).
      by destruct (progress_fields it _ b b' Hb) as (_ & _ & -> & -> & _).
    + apply step_settle_inv in Hstep as (it & _ & _ & _ & Hb).
      destruct (resume_fields i it net b b' Hb) as (_ & _ & -> & -> & _).
      split; [done|]. by apply subseteq_difference_l.
    + apply step_timer_inv in Hstep as (_ & [[_ ->]|[_ Hb]]); [done|].
      by destruct (reload_fields b b' Hb) as (_ & _ & -> & -> & _).
    + apply step_loaded_inv in Hstep as (_ & Hb).
      by destruct (loaded_fields net b b' Hb) as (_ & _ & -> & -> & _).
    + apply step_clear_inv in Hstep as (_ & Hb).
      by destruct (clear_fields b b' Hb) as (_ & _ & -> & -> & _).
  - done.
  - intros Hnd _ Hcl. by apply (shown_is_scheduled files u evs b).
Qed.

(** C8. Only files whose name ends with '.pdf' are uploaded: the upload
    requests a batch issues are those of the first [k] PDF files of the
    selection, so each is for a selected file with such a name; and a
    selection without a PDF file issues no request and leaves the upload
    queue as it was (empty). *)
Theorem only_pdf_files_uploaded files u evs b :
  run evs (handleFileUpload files u) = Some b →
  (∃ k, requests (ui b)
        = requests u
          ++ (uploadDocument_request <$> take k (filter is_pdf files))
          ++ (if past_loop (at_ b) then [listDocuments_request] else []))
  ∧ (∀ f, uploadDocument_request f ∈ requests (ui b) →
          uploadDocument_request f ∈ requests u
          ∨ (f ∈ files ∧ endsWith (fname f) (str ".pdf") = true))
  ∧ (filter is_pdf files = [] →
     evs = [] ∧ requests (ui b) = requests u
     ∧ uploadQueue (ui b) = uploadQueue u
     ∧ (uploadQueue u = [] → uploadQueue (ui b) = [])).
Proof.
  intros Hrun.
  destruct (requests_so_far files u evs b Hrun) as (k & Hk).
  split_and!.
  - eauto.
  - intros f. rewrite Hk, !elem_of_app.
    intros [?|[(f' & Hf & Hin)%list_elem_of_fmap|Hin]]; [by left|right|].
    + injection Hf as ->. apply subseteq_take in Hin.
      apply list_elem_of_filter in Hin as [? ?]. done.
    + destruct (past_loop (at_ b)); [|by apply elem_of_nil in Hin].
      apply list_elem_of_singleton in Hin. discriminate.
  - intros Hnil.
    destruct (handleFileUpload_cases files u)
      as [(_ & u' & Hu & Hq & Hr)|(Hne & _)]; [|done].
    rewrite Hu in Hrun. apply returned_stuck in Hrun as [-> ->]. cbn.
    split_and!; congruence.
Qed.

Lemma finished_of_displayed q b :
  displayed q b → pending b = [] → active b = ∅ →
  ∀ it, it ∈ uploadQueue (ui b) → finished it.
Proof.
  intros (Hnames & Hclr & Hvalid & Hwait & Hupl) Hp Ha it Hit.
  assert (at_ b ≠ Cleared) as Hpc.
  { intros Hc. rewrite (Hclr Hc) in Hit. by apply elem_of_nil in Hit. }
  specialize (Hvalid it Hit). unfold statuses in Hvalid.
  rewrite !elem_of_cons, elem_of_nil in Hvalid.
  destruct Hvalid as [Hw|[Hu|[Hc|[He|[]]]]]; [| |by left|by right].
  - apply list_elem_of_lookup in Hit as [k Hk].
    assert ((name <$> q) !! k = Some (name it)) as Hn.
    { rewrite <- (Hnames Hpc), list_lookup_fmap, Hk. done. }
    rewrite list_lookup_fmap in Hn.
    destruct (q !! k) as [it'|] eqn:Hq; [|discriminate].
    injection Hn as Hn.
    specialize (Hwait it (list_elem_of_lookup_2 _ _ _ Hk) Hw k it' Hq Hn).
    rewrite Hp in Hwait. by apply elem_of_nil in Hwait.
  - destruct (Hupl it Hit Hu) as (j & _ & _ & _ & Hin).
    rewrite Ha in Hin. by apply not_elem_of_empty in Hin.
Qed.

(** C9 (amended). Every entry of the upload queue always has one of the four
    statuses, and once the routine has left its loop every entry is
    'completed' or 'error'; when the queued files have pairwise distinct
    names, no event moves a status otherwise than forward along
    waiting -> uploading -> (completed | error). *)
Theorem status_lifecycle files u evs b :
  uploadQueue u = [] →
  run evs (handleFileUpload files u) = Some b →
  (∀ it, it ∈ uploadQueue (ui b) → status it ∈ statuses)
  ∧ (past_loop (at_ b) = true →
     ∀ it, it ∈ uploadQueue (ui b) → finished it)
  ∧ (NoDup (fname <$> filter is_pdf files) →
     ∀ e b', step e b = Some b' →
             moves_forward (uploadQueue (ui b)) (uploadQueue (ui b'))).
Proof.
  intros Hempty Hrun.
  destruct (handleFileUpload_cases files u)
    as [(Hnil & u' & Hu & Hq & Hr)|(Hne & _)].
  { rewrite Hu in Hrun. apply returned_stuck in Hrun as [-> ->]. cbn.
    rewrite Hq, Hempty. split_and!.
    - intros it Hit. by apply elem_of_nil in Hit.
    - discriminate.
    - intros _ e b'. by destruct e. }
  destruct (batch_healthy files u evs b Hne Hrun) as ([k Hs] & Hd & Hex).
  split_and!.
  - apply Hd.
  - intros Hpast.
    destruct Hs as (_ & _ & _ & _ & _ & _ & _ & _ & Hdone).
    destruct (Hdone Hpast). by eapply finished_of_displayed.
  - intros Hnd e b' Hstep. rewrite <- queued_names in Hnd.
    by destruct (exact_step _ _ _ e b b' Hnd Hs Hd (Hex Hnd) Hstep).
Qed.

(** Two selected files may carry the same name (they come from different
    folders); the statuses are written by name. Here the sixth file is
    called like the first: when its upload starts, the first entry, already
    'completed', is set back to 'uploading'. *)
Lemma duplicate_names_move_backward :
  let pdf n c := {| fname := str n; fbytes := c |} in
  let files := [pdf "a.pdf" [1%N]; pdf "b.pdf" []; pdf "c.pdf" [];
                pdf "d.pdf" []; pdf "e.pdf" []; pdf "a.pdf" [2%N]] in
  let ok := Resolved {| resp_data := VNull; resp_status := 200 |} in
  ∃ b b' q q',
    uploadQueue initial = []
    ∧ run [Start; Start; Start; Start; Start; Sleep; Settle 0 ok; Timer]
          (handleFileUpload files initial) = Some b
    ∧ step Start b = Some b'
    ∧ uploadQueue (ui b) !! 0 = Some q ∧ status q = str "completed"
    ∧ uploadQueue (ui b') !! 0 = Some q' ∧ status q' = str "uploading"
    ∧ ¬ moves_forward (uploadQueue (ui b)) (uploadQueue (ui b')).
Proof.
  intros pdf files ok.
  set (evs := [Start; Start; Start; Start; Start; Sleep; Settle 0 ok; Timer]).
  set (start := handleFileUpload files initial).
  set (b := default start (run evs start)).
  set (b' := default start (step Start b)).
  set (q := default (queued (pdf "" [])) (uploadQueue (ui b) !! 0)).
  set (q' := default (queued (pdf "" [])) (uploadQueue (ui b') !! 0)).
  assert (uploadQueue (ui b) !! 0 = Some q) as Hq
    by (vm_compute; reflexivity).
  assert (uploadQueue (ui b') !! 0 = Some q') as Hq'
    by (vm_compute; reflexivity).
  assert (status q = str "completed") as Hs by (vm_compute; reflexivity).
  assert (status q' = str "uploading") as Hs' by (vm_compute; reflexivity).
  exists b, b', q, q'.
  split; [reflexivity|].
  split; [vm_compute; reflexivity|].
  split; [vm_compute; reflexivity|].
  split; [exact Hq|]. split; [exact Hs|].
  split; [exact Hq'|]. split; [exact Hs'|].
  intros Hfw. specialize (Hfw 0 q q' Hq Hq'). rewrite Hs, Hs' in Hfw.
  destruct statuses_distinct as (D1 & D2 & D3 & D4 & D5 & D6).
  destruct Hfw as [H|[[H _]|[H _]]]; congruence.
Qed.

Lemma upload_cap_and_order_witness :
  let pdf n := {| fname := str n; fbytes := [] |} in
  let ok := Resolved {| resp_data := VNull; resp_status := 200 |} in
  let start :=
    handleFileUpload [pdf "a.pdf"; pdf "notes.txt"; pdf "b.pdf"] initial in
  let b := default start (run [Start; Start; Sleep; Settle 1 ok] start) in
  run [Start; Start; Sleep; Settle 1 ok] start = Some b
  ∧ size (active b) ≤ 5.
Proof.
  intros pdf ok start b.
  assert (run [Start; Start; Sleep; Settle 1 ok] start = Some b) as Hrun
    by (vm_compute; reflexivity).
  split; [exact Hrun|].
  exact (proj1 (upload_cap_and_order _ initial _ b Hrun)).
Defined.

Lemma only_pdf_files_uploaded_witness :
  let pdf n := {| fname := str n; fbytes := [] |} in
  let ok := Resolved {| resp_data := VNull; resp_status := 200 |} in
  let files := [pdf "a.pdf"; pdf "notes.txt"; pdf "b.pdf"] in
  let start := handleFileUpload files initial in
  let b := default start (run [Start; Start; Sleep; Settle 1 ok] start) in
  run [Start; Start; Sleep; Settle 1 ok] start = Some b
  ∧ ∀ f, uploadDocument_request f ∈ requests (ui b) →
         uploadDocument_request f ∈ requests initial
         ∨ (f ∈ files ∧ endsWith (fname f) (str ".pdf") = true).
Proof.
  intros pdf ok files start b.
  assert (run [Start; Start; Sleep; Settle 1 ok] start = Some b) as Hrun
    by (vm_compute; reflexivity).
  split; [exact Hrun|].
  exact (proj1 (proj2 (only_pdf_files_uploaded files initial _ b Hrun))).
Defined.

Lemma status_lifecycle_witness :
  let pdf n := {| fname := str n; fbytes := [] |} in
  let ok := Resolved {| resp_data := VNull; resp_status := 200 |} in
  let ko := Rejected (Exn None (str "Network Error")) in
  let files := [pdf "a.pdf"; pdf "notes.txt"; pdf "b.pdf"] in
  let evs :=
    [Start; Start; Sleep; Settle 1 ok; Settle 0 ko; Timer; Loaded ok] in
  let start := handleFileUpload files initial in
  let b := default start (run evs start) in
  uploadQueue initial = []
  ∧ run evs start = Some b
  ∧ at_ b = Finished
  ∧ status <$> uploadQueue (ui b) = [str "error"; str "completed"]
  ∧ ∀ it, it ∈ uploadQueue (ui b) → finished it.
Proof.
  intros pdf ok ko files evs start b.
  assert (run evs start = Some b) as Hrun by (vm_compute; reflexivity).
  assert (past_loop (at_ b) = true) as Hpast by (vm_compute; reflexivity).
  split; [reflexivity|]. split; [exact Hrun|].
  split; [vm_compute; reflexivity|]. split; [vm_compute; reflexivity|].
  exact (proj1 (proj2 (status_lifecycle files initial evs b eq_refl Hrun))
           Hpast).
Defined.

Lemma step_start_ok base q k b :
  scheduled base q k b → at_ b = Filling →
  size (active b) < maxConcurrent b → 0 < length (pending b) →
  ∃ b', step Start b = Some b' ∧ at_ b' = Filling
        ∧ remaining b' + 2 ≤ remaining b.
Proof.
  intros (Hq & _ & _ & Hk & Hpend & _) Hat Hfree Hp.
  destruct (pending b) as [|i rest] eqn:Hpb; [cbn in Hp; lia|].
  destruct (length q - k) as [|m] eqn:Hm; [discriminate|].
  cbn in Hpend. injection Hpend as -> Hrest.
  destruct (lookup_lt_is_Some_2 q k) as [it Hit]; [lia|].
  exists (exec (uploadFile_start it) (begin_upload k rest b)). split.
  - unfold step. rewrite Hat, Hpb, decide_True by (cbn; lia).
    by rewrite Hq, Hit.
  - split; [done|]. unfold remaining. rewrite Hat, Hpb.
    destruct (start_fields it k rest b _ eq_refl)
      as (_ & _ & -> & -> & -> & _).
    rewrite Hat, size_union_alt, size_singleton.
    assert (size (active b ∖ {[k]}) ≤ size (active b))
      by (apply subseteq_size, subseteq_difference_l; done).
    cbn [length]. lia.
Qed.

Lemma step_settle_ok base q k b i net :
  scheduled base q k b → at_ b = Sleeping → i ∈ active b →
  ∃ b', step (Settle i net) b = Some b' ∧ at_ b' = Sleeping
        ∧ remaining b' < remaining b.
Proof.
  intros (Hq & _ & _ & Hk & _ & Hact & _) Hat Hi.
  destruct (lookup_lt_is_Some_2 q i) as [it Hit];
    [specialize (Hact i Hi); lia|].
  exists (exec (uploadFile_resume i it net) b).
  destruct (resume_fields i it net b _ eq_refl)
    as (_ & _ & Hp & Ha & Hpc & _).
  split.
  - unfold step. by rewrite Hat, decide_True, Hq, Hit.
  - split; [by rewrite Hpc|]. unfold remaining. rewrite Hp, Ha, Hpc, Hat.
    rewrite size_difference, size_singleton by (by apply singleton_subseteq_l).
    assert (size (active b) ≠ 0); [|lia].
    apply size_non_empty_iff. intros He. rewrite He in Hi.
    by apply not_elem_of_empty in Hi.
Qed.

Lemma run_cons e evs b b1 b' :
  step e b = Some b1 → run evs b1 = Some b' → run (e :: evs) b = Some b'.
Proof. intros Hs Hr. cbn. by rewrite Hs. Qed.

(** A batch in its loop can always leave it: whatever the uploads answer,
    there are events that take it to the end of the routine. *)
Lemma loop_can_finish base q (net reload : settled response) n :
  ∀ k b,
    scheduled base q k b → remaining b < n →
    at_ b = Filling ∨ at_ b = Sleeping →
    ∃ evs b', run evs b = Some b' ∧ at_ b' = Finished.
Proof.
  induction n as [|n IH]; intros k b Hs Hn Hat; [lia|].
  destruct Hat as [Hat|Hat].
  - destruct (decide (size (active b) < maxConcurrent b
                      ∧ 0 < length (pending b))) as [[Hfree Hp]|Hfull].
    + destruct (step_start_ok base q k b Hs Hat Hfree Hp)
        as (b1 & Hstep & Hat1 & Hlt).
      destruct (IH (S k) b1) as (evs & b' & Hrun & Hfin); [|lia|auto|].
      { exact (scheduled_step base q k Start b b1 Hs Hstep). }
      exists (Start :: evs), b'. eauto using run_cons.
    + assert (step Sleep b = Some (goto Sleeping b)) as Hstep.
      { unfold step. by rewrite Hat, decide_False. }
      destruct (IH k (goto Sleeping b)) as (evs & b' & Hrun & Hfin);
        [|unfold remaining in *; rewrite Hat in Hn; cbn; lia|by right|].
      { exact (scheduled_step base q k Sleep b _ Hs Hstep). }
      exists (Sleep :: evs), b'. eauto using run_cons.
  - destruct (decide (active b = ∅)) as [Hidle|Hbusy].
    + destruct (pending b) as [|i rest] eqn:Hp.
      * assert (step Timer b
                = Some (goto Reloading
                          (exec (on_ui (send listDocuments_request)) b)))
          as Hstep.
        { unfold step. rewrite Hat, decide_False; [done|].
          rewrite Hp, Hidle, size_empty. cbn. lia. }
        exists [Timer; Loaded reload].
        exists (goto Finished
                  (exec (on_ui (loadDocuments reload ;; summary (queue b)))
                     (goto Reloading
                        (exec (on_ui (send listDocuments_request)) b)))).
        split; [|reflexivity].
        eapply run_cons; [exact Hstep|]. reflexivity.
      * assert (step Timer b = Some (goto Filling b)) as Hstep.
        { unfold step. rewrite Hat, decide_True; [done|].
          rewrite Hp. cbn. lia. }
        pose proof (scheduled_step base q k Timer b _ Hs Hstep) as Hs1.
        destruct (step_start_ok base q k (goto Filling b) Hs1 eq_refl)
          as (b2 & Hstep2 & Hat2 & Hlt).
        { cbn. rewrite Hidle, size_empty.
          destruct Hs as (_ & -> & _). lia. }
        { cbn. rewrite Hp. cbn. lia. }
        destruct (IH (S k) b2) as (evs & b' & Hrun & Hfin); [| |auto|].
        { exact (scheduled_step base q k Start _ b2 Hs1 Hstep2). }
        { unfold remaining in *. rewrite Hat in Hn.
          change (at_ (goto Filling b)) with Filling in Hlt.
          change (pending (goto Filling b)) with (pending b) in Hlt.
          change (active (goto Filling b)) with (active b) in Hlt.
          rewrite Hidle, size_empty in *. lia. }
        exists (Timer :: Start :: evs), b'. eauto using run_cons.
    + apply set_choose_L in Hbusy as [i Hi].
      destruct (step_settle_ok base q k b i net Hs Hat Hi)
        as (b1 & Hstep & Hat1 & Hlt).
      destruct (IH k b1) as (evs & b' & Hrun & Hfin); [|lia|auto|].
      { exact (scheduled_step base q k (Settle i net) b b1 Hs Hstep). }
      exists (Settle i net :: evs), b'. eauto using run_cons.
Qed.

(** The upload routine can finish: for every selection with a PDF file
    there is a run of the batch that reaches the end of the routine. *)
Lemma batch_can_finish files u :
  filter is_pdf files ≠ [] →
  ∃ evs b, run evs (handleFileUpload files u) = Some b ∧ at_ b = Finished.
Proof.
  intros Hne.
  destruct (handleFileUpload_cases files u)
    as [[? _]|(_ & u' & -> & Hq & _)]; [done|].
  pose (ok := Resolved {| resp_data := VNull; resp_status := 200 |}).
  eapply (loop_can_finish (requests u') _ ok ok); [apply scheduled_entry|..].
  - apply Nat.lt_succ_diag_r.
  - left. unfold uploadWithConcurrency. rewrite decide_True; [done|].
    left. cbn. rewrite length_seq, length_fmap.
    destruct (filter is_pdf files); [done|cbn; lia].
Qed.

End UploadProps.

(** ** The chat page *)

Module ChatProps.
Import Api React ChatPage.

Lemma trimStart_blank s :
  trimStart s = [] ↔ Forall (fun c => is_white_space c = true) s.
Proof.
  induction s as [|c s IH]; cbn.
  - split; [constructor|done].
  - destruct (is_white_space c) eqn:Hc.
    + rewrite IH. split; [by constructor|by inversion 1].
    + split; [done|]. inversion 1; congruence.
Qed.

Lemma trimStart_head s c rest :
  trimStart s = c :: rest → is_white_space c = false.
Proof.
  induction s as [|d s IH]; cbn; [done|].
  destruct (is_white_space d) eqn:Hd; [done|]. by intros [= <- _].
Qed.

(** [trim] yields the empty string exactly on the inputs made of white
    space only (the empty input among them). *)
Lemma trim_blank s :
  trim s = [] ↔ Forall (fun c => is_white_space c = true) s.
Proof.
  rewrite <- trimStart_blank. unfold trim, trimEnd.
  destruct (trimStart s) as [|c rest] eqn:Hs; [done|].
  split; [|done]. intros Hr. exfalso.
  apply (f_equal reverse) in Hr. rewrite reverse_involutive in Hr.
  rewrite reverse_nil in Hr. apply trimStart_blank in Hr.
  rewrite Forall_reverse in Hr. inversion Hr as [|? ? Hc _]; subst.
  apply trimStart_head in Hs. congruence.
Qed.

Lemma handleSend_blocked s now :
  trim (inputValue s) = [] ∨ loading s = true →
  handleSend_start now s = (Normal None, s).
Proof.
  unfold handleSend_start, bind, gets. cbn.
  intros [-> | ->]; cbn; [done|]. by rewrite orb_true_r.
Qed.

Lemma handleSend_accepted s now :
  trim (inputValue s) ≠ [] → loading s = false →
  handleSend_start now s
  = (Normal (Some (askQuestion_request (trim (inputValue s)) (docName s))),
     {| docName := docName s;
        messages := messages s ++ [user_message (trim (inputValue s)) now];
        inputValue := [];
        loading := true;
        requests := requests s
                    ++ [askQuestion_request (trim (inputValue s)) (docName s)];
        failure := failure s |}).
Proof.
  intros Hin Hl. unfold handleSend_start, bind, gets. cbn.
  rewrite Hl, bool_decide_eq_false_2 by done. reflexivity.
Qed.

Lemma handleSend_resume_answered s now net :
  answered net →
  exec (handleSend_resume now net) s
  = {| docName := docName s;
       messages := messages s ++ [reply net now];
       inputValue := inputValue s;
       loading := false;
       requests := requests s;
       failure := failure s |}.
Proof.
  destruct net as [[data st]|e]; cbn; [|done].
  intros Hd. unfold exec, handleSend_resume, try_finally, try_catch, bind.
  cbn. unfold setMessages, modify, assistant_message, get_opt.
  destruct data; try discriminate; reflexivity.
Qed.

#[local] Arguments handleSend_start : simpl never.
#[local] Arguments handleSend_resume : simpl never.
#[local] Arguments handleKeyPress : simpl never.

(** While its request is pending, a page changes nothing but its input. *)
Lemma busy_quiet evs :
  ∀ s n s' n',
    loading s = true → forallb (fun e => negb (is_settle e)) evs = true →
    run evs (s, n) = Some (s', n') →
    messages s' = messages s ∧ requests s' = requests s
    ∧ docName s' = docName s ∧ failure s' = failure s
    ∧ loading s' = true ∧ n' = n.
Proof.
  induction evs as [|e evs IH]; intros s n s' n' Hl Hq Hrun; cbn in *.
  - by injection Hrun as <- <-.
  - apply andb_prop in Hq as [He Hq].
    destruct e as [text|k now|now|net now]; try discriminate; cbn in Hrun.
    + apply IH in Hrun as (-> & -> & -> & -> & -> & ->); done.
    + unfold handleKeyPress in Hrun.
      destruct (bool_decide (key k = str "Enter") && negb (shiftKey k)).
      * rewrite handleSend_blocked in Hrun by auto. cbn in Hrun.
        by apply IH in Hrun.
      * unfold ret in Hrun. cbn in Hrun. by apply IH in Hrun.
    + rewrite handleSend_blocked in Hrun by auto. cbn in Hrun.
      by apply IH in Hrun.
Qed.

Lemma unless_enter k now s :
  key k ≠ str "Enter" ∨ shiftKey k = true →
  handleKeyPress k now s = (Normal None, s).
Proof.
  unfold handleKeyPress. intros [Hk| ->].
  - by rewrite bool_decide_eq_false_2.
  - by rewrite andb_false_r.
Qed.

Lemma submits_step e now s n :
  submits e now →
  step e (s, n)
  = match handleSend_start now s with
    | (Normal (Some _), s') => Some (s', S n)
    | (_, s') => Some (s', n)
    end.
Proof.
  intros [->|(k & -> & Hk & Hs)]; [done|].
  cbn. unfold handleKeyPress. by rewrite Hk, Hs, bool_decide_eq_true_2.
Qed.

(** A reply that resolved with [null] cannot be read: the updater throws,
    no message is appended, and the page reports the error. *)
Lemma unreadable_reply s now st :
  let s' := exec (handleSend_resume now
                    (Resolved {| resp_data := VNull; resp_status := st |})) s in
  messages s' = messages s ∧ loading s' = false
  ∧ failure s' = Some (type_error (str "null") (str "answer")).
Proof. done. Qed.

Lemma scope_cases ls :
  (scope ls = VNull ∧ truthy (get_opt ls (str "docName")) = false)
  ∨ (scope ls = get_opt ls (str "docName") ∧ truthy (scope ls) = true).
Proof.
  unfold scope, or_else.
  destruct (truthy (get_opt ls (str "docName"))) eqn:Ht; auto.
Qed.

Lemma askQuestion_request_scope ls question :
  askQuestion_request question (scope ls)
  = {| method := str "POST"; url := str "/ask";
       data := Json (VObj [(str "question", VStr question);
                           (str "doc_name", scope ls)]) |}.
Proof.
  unfold askQuestion_request.
  destruct (scope_cases ls) as [[-> _]|[_ Ht]]; [done|].
  by destruct (scope ls).
Qed.

Lemma handleSend_resume_docName now net s :
  docName (exec (handleSend_resume now net) s) = docName s
  ∧ requests (exec (handleSend_resume now net) s) = requests s.
Proof.
  destruct net as [[data st]|e]; [|done].
  unfold exec, handleSend_resume, try_finally, try_catch, bind. cbn.
  unfold setMessages, modify, assistant_message, get_opt.
  by destruct data.
Qed.

Lemma handleSend_start_cases now s :
  handleSend_start now s = (Normal None, s)
  ∨ (trim (inputValue s) ≠ [] ∧ loading s = false).
Proof.
  destruct (decide (trim (inputValue s) = [])) as [Hin|Hin];
    [left; apply handleSend_blocked; auto|].
  destruct (loading s) eqn:Hl; [left; apply handleSend_blocked; auto|].
  by right.
Qed.

Lemma asks_step ls e s n s' n' :
  docName s = scope ls → Forall (asks (scope ls)) (requests s) →
  step e (s, n) = Some (s', n') →
  docName s' = scope ls ∧ Forall (asks (scope ls)) (requests s').
Proof.
  intros Hd Hr.
  assert (∀ now s1 o,
            handleSend_start now s = (o, s1) →
            docName s1 = scope ls ∧ Forall (asks (scope ls)) (requests s1))
    as Hstart.
  { intros now s1 o.
    destruct (handleSend_start_cases now s) as [->|[Hin Hl]].
    - by intros [= _ <-].
    - rewrite handleSend_accepted by done. intros [= _ <-]. cbn.
      split; [done|]. apply Forall_app. split; [done|].
      apply Forall_singleton. eexists.
      rewrite Hd. apply askQuestion_request_scope. }
  destruct e as [text|k now|now|net now]; cbn.
  - by intros [= <- <-].
  - unfold handleKeyPress.
    destruct (bool_decide (key k = str "Enter") && negb (shiftKey k)).
    + destruct (handleSend_start now s) as [[[r|]|err] s1] eqn:Hs;
        intros [= <- <-]; eauto.
    + by intros [= <- <-].
  - destruct (handleSend_start now s) as [[[r|]|err] s1] eqn:Hs;
      intros [= <- <-]; eauto.
  - destruct n as [|m]; [done|]. intros [= <- <-].
    destruct (handleSend_resume_docName now net s) as [-> ->]. done.
Qed.

Lemma asks_run ls evs :
  ∀ s n s' n',
    docName s = scope ls → Forall (asks (scope ls)) (requests s) →
    run evs (s, n) = Some (s', n') →
    docName s' = scope ls ∧ Forall (asks (scope ls)) (requests s').
Proof.
  induction evs as [|e evs IH]; intros s n s' n' Hd Hr Hrun;
    cbn [run] in Hrun.
  - by injection Hrun as <- <-.
  - destruct (step e (s, n)) as [[s1 n1]|] eqn:Hstep; [|done].
    cbn in Hrun. destruct (asks_step _ _ _ _ _ _ Hd Hr Hstep). eauto.
Qed.

(** A cited source is read for its [doc_name], [page] and [toc_section]
    and for nothing else. *)
Lemma source_item_reads src src' :
  get src (str "doc_name") = get src' (str "doc_name") →
  get src (str "page") = get src' (str "page") →
  get src (str "toc_section") = get src' (str "toc_section") →
  source_item src = source_item src'.
Proof. unfold source_item. by intros -> -> ->. Qed.

Lemma source_item_texts src :
  nullish src = false →
  ∃ item, source_item src = Normal item
          ∧ texts item = [get_opt src (str "doc_name"); VStr (str "p.");
                          get_opt src (str "page");
                          get_opt src (str "toc_section")].
Proof.
  intros Hs. unfold source_item, get_opt.
  destruct src; try discriminate; cbn; eauto.
Qed.

Lemma sources_listed srcs :
  Forall (fun src => nullish src = false) srcs →
  ∃ items,
    array_map source_item srcs = Normal items
    ∧ Forall2 (fun src item =>
                 texts item = [get_opt src (str "doc_name"); VStr (str "p.");
                               get_opt src (str "page");
                               get_opt src (str "toc_section")])
              srcs items.
Proof.
  induction 1 as [|src srcs Hs _ (items & Hi & Hall)].
  - exists []. by split.
  - destruct (source_item_texts src Hs) as (item & Hitem & Htexts).
    exists (item :: items). cbn. rewrite Hitem, Hi. split; [done|].
    by constructor.
Qed.

Lemma handleSend_resume_loading now net s :
  loading (exec (handleSend_resume now net) s) = false.
Proof.
  destruct net as [[data st]|e]; [|done].
  unfold exec, handleSend_resume, try_finally, try_catch, bind. cbn.
  unfold setMessages, modify, assistant_message, get_opt.
  by destruct data.
Qed.

Lemma calm_step e st st' : calm st → step e st = Some st' → calm st'.
Proof.
  destruct st as [s n]. intros Hc.
  assert (∀ now,
            match handleSend_start now s with
            | (Normal (Some _), s') => calm (s', S n)
            | (_, s') => calm (s', n)
            end) as Hstart.
  { intros now. destruct (handleSend_start_cases now s) as [->|[Hin Hl]];
      [done|].
    rewrite handleSend_accepted by done.
    destruct Hc as [[Hl' _]|[_ Hn]]; cbn in *; [congruence|].
    subst n. by left. }
  destruct e as [text|k now|now|net now]; cbn.
  - by intros [= <-].
  - unfold handleKeyPress.
    destruct (bool_decide (key k = str "Enter") && negb (shiftKey k)).
    + specialize (Hstart now).
      destruct (handleSend_start now s) as [[[r|]|err] s1];
        by intros [= <-].
    + by intros [= <-].
  - specialize (Hstart now).
    destruct (handleSend_start now s) as [[[r|]|err] s1]; by intros [= <-].
  - destruct n as [|m]; [done|]. intros [= <-].
    destruct Hc as [[_ Hn]|[_ Hn]]; cbn in Hn; [|done].
    injection Hn as ->. right. split; [|done].
    apply handleSend_resume_loading.
Qed.

Lemma calm_run evs :
  ∀ st st', calm st → run evs st = Some st' → calm st'.
Proof.
  induction evs as [|e evs IH]; intros st st' Hc Hrun; cbn [run] in Hrun.
  - by injection Hrun as <-.
  - destruct (step e st) as [st1|] eqn:Hstep; [|done].
    cbn in Hrun. eauto using calm_step.
Qed.

(** A send with an empty or white-space-only input, or while a request is
    in flight, changes nothing: no message is appended and no request is
    issued. Any other send appends the trimmed input as a user message and
    issues one request; until that request settles nothing else is appended,
    and when it is rejected, or resolves with a body that has properties,
    its settlement appends one error message or one assistant message, so
    that the list has grown by exactly two. A key other than Enter, or
    Enter with Shift, sends nothing. *)
Lemma send_appends_two (ls : value) (before : list event)
    (s : chat) (n : nat) (e : event) (now : N) :
  run before (initial ls, 0) = Some (s, n) →
  submits e now →
  (Forall (fun c => is_white_space c = true) (inputValue s) ∨ n ≠ 0 →
   step e (s, n) = Some (s, n))
  ∧ (¬ Forall (fun c => is_white_space c = true) (inputValue s) → n = 0 →
     ∀ evs st net now',
       forallb (fun e => negb (is_settle e)) evs = true →
       run (e :: evs) (s, n) = Some st → answered net →
       ∃ s2,
         step (Settle net now') st = Some (s2, 0)
         ∧ messages s2
           = messages s
             ++ [{| type := str "user";
                    content := VStr (trim (inputValue s));
                    sources := VUndefined; timestamp := now |};
                 match net with
                 | Resolved r =>
                     {| type := str "assistant";
                        content := get_opt (resp_data r) (str "answer");
                        sources := get_opt (resp_data r) (str "sources");
                        timestamp := now' |}
                 | Rejected e =>
                     {| type := str "error";
                        content :=
                          VStr (str "죄송합니다. 답변을 생성하는 중 오류가 발생했습니다: "
                                ++ message (on_rejected e));
                        sources := VUndefined; timestamp := now' |}
                 end]
         ∧ length (messages s2) = length (messages s) + 2
         ∧ requests s2
           = requests s
             ++ [askQuestion_request (trim (inputValue s)) (docName s)])
  ∧ (∀ k, key k ≠ str "Enter" ∨ shiftKey k = true →
          step (KeyPress k now) (s, n) = Some (s, n)).
Proof.
  intros Hbefore He.
  assert (calm (s, n)) as Hcalm.
  { eapply calm_run; [|exact Hbefore]. by right. }
  split_and!.
  - intros Hb. rewrite (submits_step _ _ _ _ He), handleSend_blocked; [done|].
    destruct Hb as [Hb|Hn]; [left; by apply trim_blank|right].
    by destruct Hcalm as [[? _]|[_ ?]].
  - intros Hin ->. assert (loading s = false) as Hl.
    { by destruct Hcalm as [[_ ?]|[? _]]. }
    rewrite <- trim_blank in Hin.
    intros evs [s1 n1] net now' Hq Hrun Hnet.
    cbn [run] in Hrun.
    rewrite (submits_step _ _ _ _ He), handleSend_accepted in Hrun by done.
    cbn in Hrun.
    apply busy_quiet in Hrun as (Hm & Hr & Hd & Hf & Hl1 & ->); [|done..].
    cbn in Hm, Hr, Hd, Hf.
    eexists. split; [reflexivity|].
    rewrite handleSend_resume_answered by done. cbn.
    rewrite Hm, Hr, <- app_assoc. split_and!; [reflexivity| |reflexivity].
    rewrite !length_app. cbn. lia.
  - intros k Hk. cbn. by rewrite unless_enter.
Qed.

Lemma send_appends_two_witness :
  let ok := Resolved {| resp_data :=
                          VObj [(str "answer", VStr (str "42"));
                                (str "sources", VArr [])];
                        resp_status := 200 |} in
  let before := [Edit (str " why? ")] in
  let s := exec (setInputValue (str " why? ")) (initial VNull) in
  ∃ s2, run before (initial VNull, 0) = Some (s, 0)
        ∧ run [Click 1%N; Edit (str "next"); Settle ok 2%N] (s, 0)
          = Some (s2, 0)
        ∧ messages s2 = [user_message (str "why?") 1%N; reply ok 2%N].
Proof.
  intros ok before s.
  assert (run before (initial VNull, 0) = Some (s, 0)) as Hbefore
    by reflexivity.
  destruct (send_appends_two VNull before s 0 (Click 1%N) 1%N Hbefore
              (or_introl eq_refl))
    as (_ & Hsend & _).
  assert (¬ Forall (fun c => is_white_space c = true) (inputValue s))
    as Hinput by (rewrite <- trim_blank; by vm_compute).
  destruct (Hsend Hinput eq_refl [Edit (str "next")]
              (default (s, 0) (run [Click 1%N; Edit (str "next")] (s, 0)))
              ok 2%N eq_refl ltac:(vm_compute; reflexivity) eq_refl)
    as (s2 & Hstep & Hm & _).
  exists s2. split; [exact Hbefore|]. split.
  - change (run [Click 1%N; Edit (str "next"); Settle ok 2%N] (s, 0))
      with (step (Settle ok 2%N)
              (default (s, 0) (run [Click 1%N; Edit (str "next")] (s, 0)))).
    exact Hstep.
  - rewrite Hm. vm_compute. reflexivity.
Defined.

(** C3 (amended). Every request the chat page sends is [POST /ask] with
    exactly [{question, doc_name}]: the question is the trimmed input and
    [doc_name] is the document the page was opened for, or [null] when
    there is none. Of a response body the page stores [answer] and
    [sources] unchanged in an assistant message. Of every source of a
    message it reads and shows [doc_name], [page] (after "p.") and
    [toc_section]; the [confidence] of a source is never read, so that the
    sources are shown the same whatever confidence they carry. *)
Theorem ask_contract (ls : value) (evs : list event) (s : chat) (n : nat) :
  run evs (initial ls, 0) = Some (s, n) →
  (∀ now r s',
     handleSend_start now s = (Normal (Some r), s') →
     r = {| method := str "POST"; url := str "/ask";
            data := Json (VObj [(str "question", VStr (trim (inputValue s)));
                                (str "doc_name", scope ls)]) |})
  ∧ Forall (asks (scope ls)) (requests s)
  ∧ ((scope ls = VNull ∧ truthy (get_opt ls (str "docName")) = false)
     ∨ (scope ls = get_opt ls (str "docName") ∧ truthy (scope ls) = true))
  ∧ (∀ data st now,
       nullish data = false →
       messages (exec (handleSend_resume now
                         (Resolved {| resp_data := data;
                                      resp_status := st |})) s)
       = messages s
         ++ [{| type := str "assistant";
                content := get_opt data (str "answer");
                sources := get_opt data (str "sources");
                timestamp := now |}])
  ∧ (∀ m srcs,
       sources m = VArr srcs → srcs ≠ [] →
       Forall (fun src => nullish src = false) srcs →
       ∃ items,
         sources_block m
         = Normal (El "div" "sources" None
                     (El "p" "sources-title" None [lit "📎 출처:"] :: items))
         ∧ Forall2 (fun src item =>
                      texts item
                      = [get_opt src (str "doc_name"); VStr (str "p.");
                         get_opt src (str "page");
                         get_opt src (str "toc_section")])
                   srcs items)
  ∧ (∀ confidence src,
       source_item (with_property (str "confidence") confidence src)
       = source_item src).
Proof.
  intros Hrun.
  destruct (asks_run ls evs (initial ls) 0 s n eq_refl (Forall_nil_2 _) Hrun)
    as [Hd Hr].
  split_and!; [|done|apply scope_cases| | |].
  - intros now r s'.
    destruct (handleSend_start_cases now s) as [->|[Hin Hl]]; [done|].
    rewrite handleSend_accepted by done. intros [= <- _].
    rewrite Hd. apply askQuestion_request_scope.
  - intros data st now Hdata.
    by rewrite (handleSend_resume_answered s now (Resolved _)).
  - intros m srcs Hm Hne Hall.
    destruct (sources_listed srcs Hall) as (items & Hi & Hitems).
    exists items. split; [|done].
    unfold sources_block. rewrite Hm. cbn. rewrite Hi.
    destruct srcs; [done|]. cbn. case_decide as Hl; [done|by destruct Hl].
  - intros confidence src.
    apply source_item_reads; by apply JsProps.get_with_property.
Qed.

Lemma ask_contract_witness :
  let ls := VObj [(str "docName", VStr (str "a.pdf"))] in
  let evs := [Edit (str " what is it? "); Click 1%N] in
  let st := default (initial ls, 0) (run evs (initial ls, 0)) in
  let src := VObj [(str "doc_name", VStr (str "a.pdf"));
                   (str "page", of_nat 3);
                   (str "toc_section", VStr (str "1.2 Scope"));
                   (str "confidence", VNum (9 # 10))] in
  let data := VObj [(str "answer", VStr (str "It is."));
                    (str "sources", VArr [src])] in
  run evs (initial ls, 0) = Some (st.1, st.2)
  ∧ requests st.1
    = [{| method := str "POST"; url := str "/ask";
          data := Json (VObj [(str "question", VStr (str "what is it?"));
                              (str "doc_name", VStr (str "a.pdf"))]) |}]
  ∧ messages (exec (handleSend_resume 2%N
                      (Resolved {| resp_data := data; resp_status := 200 |}))
                st.1)
    = [{| type := str "user"; content := VStr (str "what is it?");
          sources := VUndefined; timestamp := 1%N |};
       {| type := str "assistant"; content := VStr (str "It is.");
          sources := VArr [src]; timestamp := 2%N |}].
Proof.
  intros ls evs st src data.
  assert (run evs (initial ls, 0) = Some (st.1, st.2)) as Hrun
    by (vm_compute; reflexivity).
  split; [exact Hrun|]. split; [vm_compute; reflexivity|].
  destruct (ask_contract ls evs st.1 st.2 Hrun) as (_ & _ & _ & Hm & _).
  rewrite (Hm data 200 2%N eq_refl). vm_compute. reflexivity.
Defined.

(** The reply the specification describes, with a source of confidence
    0.9: the answer and the sources are stored as they came, the block of
    sources shows the document, the page and the section of the source and
    not its confidence, and it is the same block when the source has no
    confidence at all. *)
Lemma confidence_not_displayed :
  let src := VObj [(str "doc_name", VStr (str "a.pdf"));
                   (str "page", of_nat 3);
                   (str "toc_section", VStr (str "1.2 Scope"));
                   (str "confidence", VNum (9 # 10))] in
  let bare := VObj [(str "doc_name", VStr (str "a.pdf"));
                    (str "page", of_nat 3);
                    (str "toc_section", VStr (str "1.2 Scope"))] in
  let data := VObj [(str "answer", VStr (str "It is."));
                    (str "sources", VArr [src])] in
  let m := {| type := str "assistant"; content := VStr (str "It is.");
              sources := VArr [src]; timestamp := 2%N |} in
  let m' := {| type := str "assistant"; content := VStr (str "It is.");
               sources := VArr [bare]; timestamp := 2%N |} in
  get src (str "confidence") = Normal (VNum (9 # 10))
  ∧ messages (exec (handleSend_resume 2%N
                      (Resolved {| resp_data := data; resp_status := 200 |}))
                (initial VNull))
    = [m]
  ∧ (∃ block, sources_block m = Normal block
              ∧ texts block = [VStr (str "📎 출처:"); VStr (str "a.pdf");
                               VStr (str "p."); of_nat 3;
                               VStr (str "1.2 Scope")]
              ∧ VNum (9 # 10) ∉ texts block)
  ∧ sources_block m' = sources_block m.
Proof.
  intros src bare data m m'. split; [vm_compute; reflexivity|].
  split; [vm_compute; reflexivity|]. split; [|vm_compute; reflexivity].
  eexists. split; [vm_compute; reflexivity|]. split; [reflexivity|].
  cbn. rewrite !elem_of_cons, elem_of_nil.
  intros [H|[H|[H|[H|[H|[]]]]]]; discriminate H.
Qed.

(** C10. The accepted send the claim fails for: " why? " is sent from the
    initial page and [/ask] resolves with the body [null]. The question is
    appended as a user message and one request is issued, as claimed; the
    settlement appends nothing. [response.answer] is read inside the
    updater handed to [setMessages], which React runs outside the [try] of
    [handleSend]: the TypeError is not caught, neither an assistant nor an
    error message is appended, and the list has grown by one. *)
Theorem null_reply_appends_one :
  let null := Resolved {| resp_data := VNull; resp_status := 200 |} in
  let question := {| type := str "user"; content := VStr (str "why?");
                     sources := VUndefined; timestamp := 1%N |} in
  let asked := {| method := str "POST"; url := str "/ask";
                  data := Json (VObj [(str "question", VStr (str "why?"));
                                      (str "doc_name", VNull)]) |} in
  ∃ s1 s2,
    run [Edit (str " why? "); Click 1%N] (initial VNull, 0) = Some (s1, 1)
    ∧ messages s1 = [question] ∧ requests s1 = [asked]
    ∧ loading s1 = true
    ∧ step (Settle null 2%N) (s1, 1) = Some (s2, 0)
    ∧ messages s2 = [question] ∧ requests s2 = [asked]
    ∧ loading s2 = false
    ∧ failure s2 = Some (type_error (str "null") (str "answer")).
Proof.
  intros null question asked. do 2 eexists.
  split; [vm_compute; reflexivity|]. cbn.
  split; [vm_compute; reflexivity|]. split; [vm_compute; reflexivity|].
  split; [reflexivity|]. split; [reflexivity|].
  split; [vm_compute; reflexivity|]. split; [vm_compute; reflexivity|].
  split; [reflexivity|]. vm_compute. reflexivity.
Qed.

End ChatProps.

(** ** The service functions *)

Module ServiceProps.
Import Api.

(** X1. What a service function hands to its caller: [response.data] when
    the call resolved; when it was rejected, the error itself, except that a
    refused connection (code ECONNREFUSED) is replaced by a fixed error
    without a code, so that no caller ever sees that code. *)
Theorem service_outcomes (net : settled response) :
  match net with
  | Resolved r => returns net = Resolved (resp_data r)
  | Rejected e =>
      ∃ e', returns net = Rejected e'
            ∧ code e' ≠ Some (str "ECONNREFUSED")
            ∧ (code e = Some (str "ECONNREFUSED") →
               e' = Exn None (str "Backend 서버가 실행되지 않았습니다."))
            ∧ (code e ≠ Some (str "ECONNREFUSED") → e' = e)
  end.
Proof.
  destruct net as [r|e]; [done|].
  exists (on_rejected e). unfold returns, intercept, on_rejected.
  case_decide as Hc.
  - split; [done|]. split; [done|]. split; [done|]. by intros [].
  - split; [done|]. split; [done|]. split; [by intros ?|done].
Qed.

Lemma percent_exact (loaded total : N) :
  (0 < total)%N → (total < 2 ^ 46)%N → (loaded ≤ total)%N →
  percentCompleted loaded total
  = Some (Whole ((200 * Z.of_N loaded + Z.of_N total)
                 / (2 * Z.of_N total))%Z).
Proof.
  intros Ht Hb Hl. unfold percentCompleted.
  rewrite decide_False by lia. rewrite decide_True by done.
  do 2 f_equal.
  rewrite N2Z.inj_div, N2Z.inj_add, !N2Z.inj_mul. cbn. f_equal. lia.
Qed.

(** X2. The percentage handed to [onProgress]. For a progress event with
    [0 < total < 2^46] of which no more than the whole has been sent it is
    the integer nearest to [100 * loaded / total] (halves go up); it lies
    between 0 and 100, is 0 at the start and 100 at the end, and never
    decreases as more is sent. For a progress event with [total = 0] it is
    NaN when nothing has been sent and Infinity otherwise. *)
Theorem percent_in_range :
  (∀ loaded total : N,
     (0 < total)%N → (total < 2 ^ 46)%N → (loaded ≤ total)%N →
     ∃ p : Z,
       percentCompleted loaded total = Some (Whole p)
       ∧ (0 ≤ p ≤ 100)%Z
       ∧ (2 * Z.of_N total * p
          ≤ 200 * Z.of_N loaded + Z.of_N total
          < 2 * Z.of_N total * (p + 1))%Z
       ∧ percentCompleted 0 total = Some (Whole 0)
       ∧ percentCompleted total total = Some (Whole 100)
       ∧ (∀ less, (less ≤ loaded)%N →
            ∃ p', percentCompleted less total = Some (Whole p')
                  ∧ (p' ≤ p)%Z))
  ∧ percentCompleted 0 0 = Some NaN
  ∧ (∀ loaded, (0 < loaded)%N →
       percentCompleted loaded 0 = Some PosInfinity).
Proof.
  split; [|split; [done|]].
  - intros loaded total Ht Hb Hl.
    assert (0 < 2 * Z.of_N total)%Z as Hpos by lia.
    eexists. split; [by apply percent_exact|].
    split; [|split; [|split; [|split]]].
    + split.
      * apply Z.div_pos; lia.
      * apply Z.lt_succ_r, Z.div_lt_upper_bound; [done|]. lia.
    + pose proof (Z.mul_div_le (200 * Z.of_N loaded + Z.of_N total)
                    (2 * Z.of_N total) Hpos).
      pose proof (Z.mul_succ_div_gt (200 * Z.of_N loaded + Z.of_N total)
                    (2 * Z.of_N total) Hpos).
      lia.
    + rewrite percent_exact by lia. do 2 f_equal.
      apply Z.div_small. lia.
    + rewrite percent_exact by lia. do 2 f_equal.
      symmetry. apply Z.div_unique with (r := Z.of_N total); lia.
    + intros less Hless. eexists. split; [apply percent_exact; lia|].
      apply Z.div_le_mono; lia.
  - intros loaded Hl. unfold percentCompleted.
    rewrite decide_True by done. by rewrite decide_False by lia.
Qed.

Lemma percent_in_range_witness :
  ∃ p : Z, percentCompleted 1 3 = Some (Whole p) ∧ (0 ≤ p ≤ 100)%Z.
Proof.
  destruct (proj1 percent_in_range 1%N 3%N eq_refl eq_refl
              ltac:(discriminate)) as (p & Hp & Hr & _).
  by exists p.
Defined.

End ServiceProps.

(** ** The home page: loading, deleting, listing *)

Module HomeViewProps.
Import Api React HomePage HomeView HomeProps.

(** X3. [loadDocuments] never throws and always ends the loading state:
    after a resolved call the list is [response.data] as it came, after a
    rejected one the list is what it was, and nothing else on the page
    changes. *)
Theorem loadDocuments_settles (net : settled response) (s : page) :
  let s' := exec (loadDocuments net) s in
  (loadDocuments net s).1 = Normal tt
  ∧ loading s' = false
  ∧ documents s'
    = match net with
      | Resolved r => resp_data r
      | Rejected _ => documents s
      end
  ∧ backendStatus s' = backendStatus s ∧ uploadQueue s' = uploadQueue s
  ∧ alerts s' = alerts s ∧ requests s' = requests s
  ∧ failure s' = failure s.
Proof. destruct net; by repeat split. Qed.

(** X4. A failed load cannot be told from an empty library: when the list
    was empty and [/documents] is rejected, the section shows the empty
    state with a count of 0, exactly as it does after a load that resolved
    with no documents. *)
Theorem failed_load_shows_empty_library (e : exn) (s : page) :
  documents s = VArr [] →
  documents_section (exec (loadDocuments (Rejected e)) s)
  = Normal
      (El "section" "documents-section" None
         [El "h2" "" None
            [Icon "FileText"; lit "업로드된 문서 ("; Text (of_nat 0); lit ")"];
          El "div" "empty-state" None
            [El "p" "" None [lit "업로드된 문서가 없습니다."];
             El "p" "" None [lit "PDF 파일을 업로드하여 시작하세요."]]])
  ∧ documents_section (exec (loadDocuments (Rejected e)) s)
    = documents_section
        (exec (loadDocuments
                 (Resolved {| resp_data := VArr []; resp_status := 200 |})) s).
Proof.
  intros Hd. unfold documents_section. cbn. rewrite Hd. cbn.
  rewrite decide_True by done. done.
Qed.

Lemma failed_load_shows_empty_library_witness :
  documents_section
    (exec (loadDocuments (Rejected (Exn None (str "Network Error")))) initial)
  = documents_section
      (exec (loadDocuments
               (Resolved {| resp_data := VArr []; resp_status := 200 |}))
         initial).
Proof.
  exact (proj2 (failed_load_shows_empty_library
                  (Exn None (str "Network Error")) initial eq_refl)).
Defined.

(** X5. The reply of [/documents] is stored unchecked: when it is not an
    array and has no [length] equal to 0, it becomes the list all the same,
    and the section that lists the documents throws when it renders. *)
Theorem unchecked_list_breaks_page (r : response) (s : page) :
  (∀ docs, resp_data r ≠ VArr docs) →
  (∀ count, get (resp_data r) (str "length") = Normal count →
            is_zero count = false) →
  documents (exec (loadDocuments (Resolved r)) s) = resp_data r
  ∧ ∃ e, documents_section (exec (loadDocuments (Resolved r)) s) = Throw e.
Proof.
  intros Harr Hlen. split; [done|].
  unfold documents_section. cbn.
  destruct (get (resp_data r) (str "length")) as [count|e] eqn:Hg; cbn;
    [|by eexists].
  rewrite (Hlen count eq_refl).
  destruct (resp_data r) as [| | | | |docs|]; cbn; try by eexists.
  by destruct (Harr docs).
Qed.

Lemma unchecked_list_breaks_page_witness :
  ∃ e, documents_section
         (exec (loadDocuments
                  (Resolved {| resp_data :=
                                 VObj [(str "detail", VStr (str "Not Found"))];
                               resp_status := 200 |})) initial)
       = Throw e.
Proof.
  refine (proj2 (unchecked_list_breaks_page
                   {| resp_data := VObj [(str "detail", VStr (str "Not Found"))];
                      resp_status := 200 |} initial _ _)).
  - discriminate.
  - intros count. vm_compute. intros [= <-]. reflexivity.
Defined.

(** X6. A delete that is not confirmed does nothing. A confirmed one issues
    exactly one request, [DELETE /documents/<name>] with the name as it is,
    and changes nothing else until the request settles; the settlement
    never throws, issues no further request, leaves the upload queue and the
    loading state alone and shows exactly one alert: the success text, or
    the failure text followed by the message of the error. *)
Theorem delete_protocol (docName : jsstring) (s : page) :
  handleDelete_click false docName s = (Normal false, s)
  ∧ ∃ s1,
      handleDelete_click true docName s = (Normal true, s1)
      ∧ requests s1
        = requests s
          ++ [{| method := str "DELETE"; url := str "/documents/" ++ docName;
                 data := NoBody |}]
      ∧ documents s1 = documents s ∧ alerts s1 = alerts s
      ∧ ∀ net,
          let s2 := exec (handleDelete_resume docName net) s1 in
          (handleDelete_resume docName net s1).1 = Normal tt
          ∧ requests s2 = requests s1
          ∧ uploadQueue s2 = uploadQueue s ∧ loading s2 = loading s
          ∧ alerts s2
            = alerts s
              ++ [match net with
                  | Resolved _ => [VStr (str "삭제되었습니다.")]
                  | Rejected e =>
                      [VStr (str "삭제 실패: " ++ message (on_rejected e))]
                  end].
Proof.
  split; [done|]. eexists. split; [done|]. split; [done|].
  split; [done|]. split; [done|].
  intros net s2. subst s2.
  destruct net as [r|e]; cbn.
  - unfold exec, handleDelete_resume, try_catch, bind, updateDocuments,
      modify, alert; cbn.
    destruct (without docName (documents s)); by repeat split.
  - by repeat split.
Qed.

(** X7. What the documents section shows for a list of documents that
    each have a name and an array of collections: a heading with the number
    of documents, then the loading text while loading, the empty state when
    the list is empty, and otherwise one card per document in the order of
    the list. *)
Theorem documents_section_cases (s : page) (docs : list value) :
  documents s = VArr docs →
  Forall (fun doc => ∃ name cs,
            get doc (str "name") = Normal name
            ∧ get doc (str "collections") = Normal (VArr cs)) docs →
  ∃ body,
    documents_section s
    = Normal
        (El "section" "documents-section" None
           [El "h2" "" None
              [Icon "FileText"; lit "업로드된 문서 (";
               Text (of_nat (length docs)); lit ")"];
            body])
    ∧ (loading s = true →
       body = El "div" "loading" None [lit "문서 목록을 불러오는 중..."])
    ∧ (loading s = false → docs = [] →
       body = El "div" "empty-state" None
                [El "p" "" None [lit "업로드된 문서가 없습니다."];
                 El "p" "" None [lit "PDF 파일을 업로드하여 시작하세요."]])
    ∧ (loading s = false → docs ≠ [] →
       ∃ cards,
         body = El "div" "documents-grid" None cards
         ∧ Forall2 (fun doc card => document_card doc = Normal card)
             docs cards).
Proof.
  intros Hdocs Hall. destruct (loading s) eqn:Hl.
  - eexists. split.
    + unfold documents_section. rewrite Hdocs, Hl. cbn.
      by rewrite decide_True by done.
    + by repeat split.
  - destruct docs as [|d docs].
    + eexists. split.
      * unfold documents_section. rewrite Hdocs, Hl. cbn.
        by rewrite decide_True by done.
      * by repeat split.
    + destruct (grid_shows_every_document s (d :: docs) Hdocs Hl)
        as (cards & Hsec & Hcards); [done|done|].
      eexists. split; [exact Hsec|]. split; [done|]. split; [done|].
      intros _ _. by exists cards.
Qed.

Lemma documents_section_cases_witness :
  ∃ body,
    documents_section initial
    = Normal
        (El "section" "documents-section" None
           [El "h2" "" None
              [Icon "FileText"; lit "업로드된 문서 (";
               Text (of_nat 0); lit ")"];
            body])
    ∧ body = El "div" "loading" None [lit "문서 목록을 불러오는 중..."].
Proof.
  destruct (documents_section_cases initial [] eq_refl (Forall_nil_2 _))
    as (body & Hs & Hl & _).
  exists body. split; [exact Hs|]. by apply Hl.
Defined.

End HomeViewProps.

(** ** From the home page to the chat page *)

Module NavigationProps.
Import Api React HomeView HomeProps ChatPage ChatProps.



End NavigationProps.

(** ** A batch of uploads, from the selection to the cleared queue *)

Module BatchProps.
Import Api React HomePage HomeView UploadProps.

Lemma endsWith_spec s suffix :
  endsWith s suffix = true ↔ ∃ p, s = p ++ suffix.
Proof.
  unfold endsWith. case_decide as Hl.
  - rewrite bool_decide_eq_true. split.
    + intros Hd. exists (take (length s - length suffix) s).
      rewrite <- Hd at 2. by rewrite take_drop.
    + intros [p ->]. rewrite length_app.
      replace (length p + length suffix - length suffix) with (length p) by lia.
      by rewrite drop_app_length.
  - split; [done|]. intros [p ->]. rewrite length_app in Hl. lia.
Qed.

Lemma batch_started files u evs b :
  run evs (handleFileUpload files u) = Some b → at_ b ≠ Returned →
  filter is_pdf files ≠ [].
Proof.
  intros Hrun Hpc Hnil.
  destruct (handleFileUpload_cases files u)
    as [(_ & u' & Hu & _)|(Hne & _)]; [|done].
  rewrite Hu in Hrun. by apply returned_stuck in Hrun as [-> ->].
Qed.

Lemma filter_split_length {A} (P : A → Prop) `{∀ x, Decision (P x)}
    (l : list A) :
  length (filter P l) + length (filter (fun x => ¬ P x) l) = length l.
Proof.
  induction l as [|x l IH]; [done|].
  rewrite !filter_cons. destruct (decide (P x)).
  - rewrite decide_False by tauto. cbn. lia.
  - rewrite decide_True by done. cbn. lia.
Qed.

(** X9. The edges of a selection. An empty selection does nothing; a
    selection without a PDF file shows one alert and queues nothing; any
    other selection queues its PDF files as 'waiting', issues no request
    yet, and shows an alert with the number of excluded files exactly when
    some file was excluded. *)
Theorem selection_edge_cases files u :
  (files = [] → handleFileUpload files u = returned u)
  ∧ (files ≠ [] → filter is_pdf files = [] →
     handleFileUpload files u
     = returned (exec (alert [VStr (str "PDF 파일만 업로드 가능합니다.")]) u))
  ∧ (filter is_pdf files ≠ [] →
     let b := handleFileUpload files u in
     at_ b = Filling
     ∧ pending b = seq 0 (length (filter is_pdf files)) ∧ active b = ∅
     ∧ uploadQueue (ui b) = queued <$> filter is_pdf files
     ∧ requests (ui b) = requests u
     ∧ alerts (ui b)
       = alerts u
         ++ (if decide (length (filter (fun f => ¬ is_pdf f) files) = 0)
             then []
             else [[of_nat (length (filter (fun f => ¬ is_pdf f) files));
                    VStr (str "개의 PDF가 아닌 파일은 제외되었습니다.")]])).
Proof.
  split_and!.
  - by intros ->.
  - intros Hf Hp. unfold handleFileUpload.
    rewrite decide_False by (by destruct files).
    by rewrite decide_True by (by rewrite Hp).
  - intros Hne b. subst b. unfold handleFileUpload.
    pose proof (filter_split_length is_pdf files) as Hlen.
    rewrite decide_False
      by (intros Hz; apply nil_length_inv in Hz; by rewrite Hz in Hne).
    rewrite decide_False by (by destruct (filter is_pdf files)).
    unfold uploadWithConcurrency. rewrite decide_True.
    2:{ left. cbn. rewrite length_seq, length_fmap.
        destruct (filter is_pdf files); [done|cbn; lia]. }
    cbn. rewrite length_fmap. split_and!; try done.
    + by case_decide.
    + rewrite <- Hlen. clear Hlen Hne.
      generalize (length (filter (fun x => ¬ is_pdf x) files)).
      generalize (length (filter is_pdf files)).
      intros p q.
      destruct (decide (p ≠ p + q)) as [H1|H1];
        destruct (decide (q = 0)) as [H2|H2].
      * exfalso. apply H1. rewrite H2. symmetry. apply Nat.add_0_r.
      * cbn. do 4 f_equal. rewrite Nat.add_comm. apply Nat.add_sub.
      * cbn. by rewrite app_nil_r.
      * exfalso. apply H1. intros H. apply H2.
        apply (Nat.add_cancel_l q 0 p). by rewrite Nat.add_0_r.
Qed.

(** X10. From the start of a batch until the queue is cleared, the upload
    queue lists the selected PDF files by name, in the order of the
    selection, the file input is disabled and its label reads
    '업로드 중...'; once cleared the queue is empty and the input is enabled
    again. The files queued are those of the selection whose name is some
    stem followed by ".pdf". *)
Theorem queue_lists_selection files u evs b :
  run evs (handleFileUpload files u) = Some b →
  at_ b ≠ Returned →
  (∀ f, f ∈ filter is_pdf files
        ↔ f ∈ files ∧ ∃ stem, fname f = stem ++ str ".pdf")
  ∧ (at_ b ≠ Cleared →
     name <$> uploadQueue (ui b) = fname <$> filter is_pdf files
     ∧ file_input_disabled (ui b) = true
     ∧ texts (upload_button (ui b)) = [VStr (str "업로드 중...")])
  ∧ (at_ b = Cleared →
     uploadQueue (ui b) = [] ∧ file_input_disabled (ui b) = false).
Proof.
  intros Hrun Hpc. pose proof (batch_started _ _ _ _ Hrun Hpc) as Hne.
  destruct (batch_healthy files u evs b Hne Hrun) as (_ & Hd & _).
  destruct Hd as (Hnames & Hclr & _).
  split_and!.
  - intros f. rewrite list_elem_of_filter. unfold is_pdf.
    rewrite endsWith_spec. tauto.
  - intros Hc. rewrite (Hnames Hc), queued_names. split; [done|].
    assert (0 < length (uploadQueue (ui b))) as Hpos.
    { assert (length (name <$> uploadQueue (ui b))
              = length (fname <$> filter is_pdf files)) as Hl
        by (by rewrite (Hnames Hc), queued_names).
      rewrite !length_fmap in Hl. rewrite Hl.
      destruct (filter is_pdf files); [done|cbn; lia]. }
    unfold file_input_disabled, upload_button.
    by rewrite bool_decide_eq_true_2.
  - intros Hc. unfold file_input_disabled. by rewrite (Hclr Hc).
Qed.

(** X11. When the routine has left its loop it has issued exactly one
    upload request per selected PDF file, in the order of the selection,
    followed by one reload of the document list; no upload is waiting or in
    flight any more. *)
Theorem every_pdf_uploaded_once files u evs b :
  run evs (handleFileUpload files u) = Some b →
  past_loop (at_ b) = true →
  requests (ui b)
  = requests u ++ (uploadDocument_request <$> filter is_pdf files)
    ++ [listDocuments_request]
  ∧ pending b = [] ∧ active b = ∅.
Proof.
  intros Hrun Hpast.
  assert (at_ b ≠ Returned) as Hpc by (intros H; by rewrite H in Hpast).
  pose proof (batch_started _ _ _ _ Hrun Hpc) as Hne.
  destruct (batch_healthy files u evs b Hne Hrun) as ([k Hs] & _ & _).
  destruct Hs as (Hq & _ & _ & Hk & Hpend & _ & _ & Hreq & Hdone).
  destruct (Hdone Hpast) as [Hp Ha]. split; [|done].
  rewrite Hp in Hpend.
  assert (length (queued <$> filter is_pdf files) - k = 0) as Hz.
  { destruct (length (queued <$> filter is_pdf files) - k); [done|].
    discriminate. }
  rewrite Hreq, Hpast, take_ge by lia.
  by rewrite <- list_fmap_compose.
Qed.

Lemma summary_waiting q :
  Forall (fun it => status it = str "waiting") q →
  summary q
  = alert [of_nat 0; VStr (str "개 파일이 성공적으로 업로드되었습니다!")].
Proof.
  intros Hw. unfold summary.
  destruct statuses_distinct as (D1 & D2 & D3 & D4 & D5 & D6).
  assert (∀ s, s ≠ str "waiting" →
            filter (fun it => status it = s) q = []) as Hnone.
  { intros s Hs. induction Hw as [|it l Hit _ IH]; [done|].
    rewrite filter_cons_False; [done|]. congruence. }
  rewrite !Hnone by congruence. done.
Qed.

(** X12. The summary shown at the end of a batch does not depend on what
    the uploads did: it counts over the local [queue], whose entries are
    never updated, so it always reports 0 files uploaded and never the
    failure text. *)
Theorem summary_ignores_outcomes files u evs b net :
  run evs (handleFileUpload files u) = Some b →
  at_ b = Reloading →
  ∃ b', step (Loaded net) b = Some b' ∧ at_ b' = Finished
        ∧ alerts (ui b')
          = alerts (ui b)
            ++ [[of_nat 0;
                 VStr (str "개 파일이 성공적으로 업로드되었습니다!")]].
Proof.
  intros Hrun Hat.
  pose proof (local_queue_stays_waiting files u evs b Hrun) as Hw.
  eexists. split; [unfold step; by rewrite Hat|]. split; [done|].
  rewrite (summary_waiting _ Hw).
  destruct net as [r|e]; reflexivity.
Qed.

Lemma batch_run_snoc evs e b :
  run (evs ++ [e]) b = run evs b ≫= step e.
Proof.
  revert b. induction evs as [|e' evs IH]; intros b; cbn.
  - by destruct (step e b).
  - destruct (step e' b) as [b1|]; [apply IH|done].
Qed.

Lemma frame_step e b b' :
  step e b = Some b' →
  backendStatus (ui b') = backendStatus (ui b)
  ∧ failure (ui b') = failure (ui b)
  ∧ (at_ b' ≠ Finished → at_ b' ≠ Cleared →
     documents (ui b') = documents (ui b) ∧ loading (ui b') = loading (ui b)
     ∧ at_ b ≠ Finished ∧ at_ b ≠ Cleared).
Proof.
  intros Hstep. destruct e.
  - apply step_start_inv in Hstep as (i & rest & it & Hat & _ & _ & _ & ->).
    rewrite Hat. by repeat split.
  - apply step_sleep_inv in Hstep as (Hat & _ & ->). rewrite Hat.
    by repeat split.
  - apply step_progress_inv in Hstep as (it & Hat & _ & _ & ->).
    rewrite Hat. by repeat split.
  - apply step_settle_inv in Hstep as (it & Hat & _ & _ & ->).
    rewrite Hat. destruct net; by repeat split.
  - apply step_timer_inv in Hstep as (Hat & [[_ ->]|[_ ->]]);
      rewrite Hat; by repeat split.
  - apply step_loaded_inv in Hstep as (Hat & ->).
    unfold summary. destruct net; cbn; case_decide; by repeat split.
  - apply step_clear_inv in Hstep as (Hat & ->). by repeat split.
Qed.

Lemma frame_entry files u :
  backendStatus (ui (handleFileUpload files u)) = backendStatus u
  ∧ failure (ui (handleFileUpload files u)) = failure u
  ∧ documents (ui (handleFileUpload files u)) = documents u
  ∧ loading (ui (handleFileUpload files u)) = loading u
  ∧ at_ (handleFileUpload files u) ≠ Finished
  ∧ at_ (handleFileUpload files u) ≠ Cleared.
Proof.
  unfold handleFileUpload, uploadWithConcurrency.
  repeat case_decide; by repeat split.
Qed.

Lemma frame_run files u evs :
  ∀ b, run evs (handleFileUpload files u) = Some b →
  backendStatus (ui b) = backendStatus u ∧ failure (ui b) = failure u
  ∧ (at_ b ≠ Finished → at_ b ≠ Cleared →
     documents (ui b) = documents u ∧ loading (ui b) = loading u).
Proof.
  induction evs as [|e evs IH] using rev_ind; intros b.
  - cbn. intros [= <-].
    destruct (frame_entry files u) as (? & ? & ? & ? & _). by repeat split.
  - rewrite batch_run_snoc.
    destruct (run evs (handleFileUpload files u)) as [b1|] eqn:Hrun;
      [|done].
    cbn. intros Hstep. destruct (IH b1 eq_refl) as (Hb & Hf & Hd).
    destruct (frame_step e b1 b Hstep) as (Hb' & Hf' & Hd').
    split; [congruence|]. split; [congruence|].
    intros H1 H2. destruct (Hd' H1 H2) as (-> & -> & H3 & H4). by apply Hd.
Qed.

(** X13. A batch does not touch the back-end status nor the render
    failure of the page, and it leaves the document list and the loading
    state alone until its reload settles; the reload replaces the list by
    the reply when it resolved, keeps the list otherwise, and ends the
    loading state. *)
Theorem batch_leaves_page_alone files u evs b :
  run evs (handleFileUpload files u) = Some b →
  backendStatus (ui b) = backendStatus u ∧ failure (ui b) = failure u
  ∧ (at_ b ≠ Finished → at_ b ≠ Cleared →
     documents (ui b) = documents u ∧ loading (ui b) = loading u)
  ∧ (∀ net b', step (Loaded net) b = Some b' →
       documents (ui b')
       = match net with
         | Resolved r => resp_data r
         | Rejected _ => documents u
         end
       ∧ loading (ui b') = false).
Proof.
  intros Hrun. destruct (frame_run files u evs b Hrun) as (Hb & Hf & Hd).
  split; [done|]. split; [done|]. split; [done|].
  intros net b' (Hat & ->)%step_loaded_inv.
  destruct Hd as [Hdoc _]; [by rewrite Hat..|].
  unfold summary. destruct net; cbn; case_decide; by repeat split.
Qed.

Lemma loop_finishes base q answers reload n :
  ∀ k b,
    scheduled base q k b → remaining b < n →
    at_ b = Filling ∨ at_ b = Sleeping →
    ∃ evs b', run evs b = Some b' ∧ at_ b' = Finished
              ∧ Forall (follows answers reload) evs.
Proof.
  induction n as [|n IH]; intros k b Hs Hn Hat; [lia|].
  destruct Hat as [Hat|Hat].
  - destruct (decide (size (active b) < maxConcurrent b
                      ∧ 0 < length (pending b))) as [[Hfree Hp]|Hfull].
    + destruct (step_start_ok base q k b Hs Hat Hfree Hp)
        as (b1 & Hstep & Hat1 & Hlt).
      destruct (IH (S k) b1) as (evs & b' & Hrun & Hfin & Hall);
        [|lia|auto|].
      { exact (scheduled_step base q k Start b b1 Hs Hstep). }
      exists (Start :: evs), b'. split; [eauto using run_cons|].
      split; [done|]. by constructor.
    + assert (step Sleep b = Some (goto Sleeping b)) as Hstep.
      { unfold step. by rewrite Hat, decide_False. }
      destruct (IH k (goto Sleeping b)) as (evs & b' & Hrun & Hfin & Hall);
        [|unfold remaining in *; rewrite Hat in Hn; cbn; lia|by right|].
      { exact (scheduled_step base q k Sleep b _ Hs Hstep). }
      exists (Sleep :: evs), b'. split; [eauto using run_cons|].
      split; [done|]. by constructor.
  - destruct (decide (active b = ∅)) as [Hidle|Hbusy].
    + destruct (pending b) as [|i rest] eqn:Hp.
      * assert (step Timer b
                = Some (goto Reloading
                          (exec (on_ui (send listDocuments_request)) b)))
          as Hstep.
        { unfold step. rewrite Hat, decide_False; [done|].
          rewrite Hp, Hidle, size_empty. cbn. lia. }
        exists [Timer; Loaded reload].
        exists (goto Finished
                  (exec (on_ui (loadDocuments reload ;; summary (queue b)))
                     (goto Reloading
                        (exec (on_ui (send listDocuments_request)) b)))).
        split; [|split; [reflexivity|by repeat constructor]].
        eapply run_cons; [exact Hstep|]. reflexivity.
      * assert (step Timer b = Some (goto Filling b)) as Hstep.
        { unfold step. rewrite Hat, decide_True; [done|].
          rewrite Hp. cbn. lia. }
        pose proof (scheduled_step base q k Timer b _ Hs Hstep) as Hs1.
        destruct (step_start_ok base q k (goto Filling b) Hs1 eq_refl)
          as (b2 & Hstep2 & Hat2 & Hlt).
        { cbn. rewrite Hidle, size_empty.
          destruct Hs as (_ & -> & _). lia. }
        { cbn. rewrite Hp. cbn. lia. }
        destruct (IH (S k) b2) as (evs & b' & Hrun & Hfin & Hall); [| |auto|].
        { exact (scheduled_step base q k Start _ b2 Hs1 Hstep2). }
        { unfold remaining in *. rewrite Hat in Hn.
          change (at_ (goto Filling b)) with Filling in Hlt.
          change (pending (goto Filling b)) with (pending b) in Hlt.
          change (active (goto Filling b)) with (active b) in Hlt.
          rewrite Hidle, size_empty in *. lia. }
        exists (Timer :: Start :: evs), b'.
        split; [eauto using run_cons|]. split; [done|].
        by repeat constructor.
    + apply set_choose_L in Hbusy as [i Hi].
      destruct (step_settle_ok base q k b i (answers i) Hs Hat Hi)
        as (b1 & Hstep & Hat1 & Hlt).
      destruct (IH k b1) as (evs & b' & Hrun & Hfin & Hall); [|lia|auto|].
      { exact (scheduled_step base q k (Settle i (answers i)) b b1 Hs Hstep). }
      exists (Settle i (answers i) :: evs), b'.
      split; [eauto using run_cons|]. split; [done|]. by constructor.
Qed.

(** X14. A batch cannot get stuck: from every state it can be in, and
    whatever each upload and the reload answer, there are events, with
    those answers, that take it to the end, where the queue is cleared. *)
Theorem batch_can_always_finish files u evs b
    (answers : nat → settled response) (reload : settled response) :
  run evs (handleFileUpload files u) = Some b →
  at_ b ≠ Returned →
  ∃ evs' b', run evs' b = Some b' ∧ at_ b' = Cleared
             ∧ uploadQueue (ui b') = []
             ∧ Forall (follows answers reload) evs'.
Proof.
  intros Hrun Hpc. pose proof (batch_started _ _ _ _ Hrun Hpc) as Hne.
  destruct (batch_healthy files u evs b Hne Hrun) as ([k Hs] & Hd & _).
  assert (∀ b1, at_ b1 = Finished →
            run [Clear] b1
            = Some (goto Cleared
                      (exec (on_ui (setUploadQueue (fun _ => []))) b1)))
    as Hclear.
  { intros b1 H1. cbn. unfold step. by rewrite H1. }
  destruct (at_ b) eqn:Hat; [done|..].
  - destruct (loop_finishes _ _ answers reload _ k b Hs
                (Nat.lt_succ_diag_r _)) as (evs' & b1 & Hr & Hf & Hall);
      [by left|].
    exists (evs' ++ [Clear]). eexists. rewrite batch_run_snoc, Hr. cbn.
    split; [unfold step; by rewrite Hf|]. split; [done|]. split; [done|].
    apply Forall_app. split; [done|]. by repeat constructor.
  - destruct (loop_finishes _ _ answers reload _ k b Hs
                (Nat.lt_succ_diag_r _)) as (evs' & b1 & Hr & Hf & Hall);
      [by right|].
    exists (evs' ++ [Clear]). eexists. rewrite batch_run_snoc, Hr. cbn.
    split; [unfold step; by rewrite Hf|]. split; [done|]. split; [done|].
    apply Forall_app. split; [done|]. by repeat constructor.
  - exists [Loaded reload; Clear]. eexists. split.
    { eapply run_cons; [unfold step; by rewrite Hat|]. by apply Hclear. }
    split; [done|]. split; [done|]. by repeat constructor.
  - exists [Clear]. eexists. rewrite (Hclear b Hat).
    split; [done|]. split; [done|]. split; [done|]. by repeat constructor.
  - exists [], b. cbn. split; [done|]. split; [done|].
    split; [|constructor]. destruct Hd as (_ & Hclr & _). by apply Hclr.
Qed.

(** X15. Every entry of the queue shows its name and exactly one status
    text, the one of its status (with the progress for an upload under way
    and the error for a failed one), and a progress bar exactly while it is
    'uploading'. *)
Theorem entry_shows_one_status (print : rounded → jsstring)
    files u evs b it :
  run evs (handleFileUpload files u) = Some b →
  at_ b ≠ Returned →
  it ∈ uploadQueue (ui b) →
  ∃ label,
    visible (upload_item_info print it) = [VStr (name it); VStr label]
    ∧ ((status it = str "waiting" ∧ label = str "⏳ 대기 중")
       ∨ (status it = str "uploading"
          ∧ label = str "📤 업로드 중 (" ++ print (progress it)
                    ++ str "%)")
       ∨ (status it = str "completed" ∧ label = str "✅ 완료")
       ∨ (status it = str "error"
          ∧ label = str "❌ 실패: " ++ error_to_string (error it)))
    ∧ (progress_bar it = Text (VBool false) ↔ status it ≠ str "uploading").
Proof.
  intros Hrun Hpc Hit. pose proof (batch_started _ _ _ _ Hrun Hpc) as Hne.
  destruct (batch_healthy files u evs b Hne Hrun) as (_ & Hd & _).
  destruct Hd as (_ & _ & Hvalid & _). specialize (Hvalid it Hit).
  destruct statuses_distinct as (D1 & D2 & D3 & D4 & D5 & D6).
  unfold statuses in Hvalid. rewrite !elem_of_cons, elem_of_nil in Hvalid.
  unfold visible, upload_item_info, upload_status, progress_bar.
  cbn [texts flat_map fmap list_fmap app].
  destruct Hvalid as [Hs|[Hs|[Hs|[Hs|[]]]]]; rewrite Hs;
    eexists; (split; [|split]).
  all: try (rewrite ?bool_decide_eq_true_2 by done;
            rewrite ?bool_decide_eq_false_2 by congruence; reflexivity).
  all: try (rewrite ?bool_decide_eq_true_2 by done;
            rewrite ?bool_decide_eq_false_2 by congruence;
            split; congruence).
  all: tauto.
Qed.

Lemma completed_and_failed (l : list item) :
  length (filter (fun q => status q = str "completed") l)
  + length (filter (fun q => status q = str "error") l) ≤ length l
  ∧ (Forall finished l →
     length (filter (fun q => status q = str "completed") l)
     + length (filter (fun q => status q = str "error") l) = length l).
Proof.
  destruct statuses_distinct as (D1 & D2 & D3 & D4 & D5 & D6).
  induction l as [|q l [IH1 IH2]]; [done|].
  rewrite !filter_cons. split.
  - repeat case_decide; cbn; try lia. congruence.
  - intros [Hq Hl]%Forall_cons. specialize (IH2 Hl).
    repeat case_decide; cbn; try lia.
    + congruence.
    + by destruct Hq.
Qed.

(** X16. Until the queue is cleared its heading shows the number of
    completed entries out of the number of selected PDF files; completed
    and failed entries never exceed that number and add up to it once the
    routine has left its loop. *)
Theorem heading_counts files u evs b :
  run evs (handleFileUpload files u) = Some b →
  at_ b ≠ Returned → at_ b ≠ Cleared →
  let completed :=
    length (filter (fun q => status q = str "completed")
              (uploadQueue (ui b))) in
  let failed :=
    length (filter (fun q => status q = str "error") (uploadQueue (ui b))) in
  texts (upload_heading (ui b))
  = [VStr (str "업로드 진행 상황 ("); of_nat completed; VStr (str "/");
     of_nat (length (filter is_pdf files)); VStr (str ")")]
  ∧ completed + failed ≤ length (filter is_pdf files)
  ∧ (past_loop (at_ b) = true →
     completed + failed = length (filter is_pdf files)).
Proof.
  intros Hrun Hpc Hcl completed failed.
  pose proof (batch_started _ _ _ _ Hrun Hpc) as Hne.
  destruct (batch_healthy files u evs b Hne Hrun) as ([k Hs] & Hd & _).
  assert (length (uploadQueue (ui b)) = length (filter is_pdf files)) as Hlen.
  { destruct Hd as (Hnames & _).
    assert (length (name <$> uploadQueue (ui b))
            = length (fname <$> filter is_pdf files)) as Hl
      by (by rewrite (Hnames Hcl), queued_names).
    by rewrite !length_fmap in Hl. }
  destruct (completed_and_failed (uploadQueue (ui b))) as [Hle Heq].
  split; [|split].
  - cbn. by rewrite Hlen.
  - subst completed failed. lia.
  - intros Hpast. subst completed failed. rewrite <- Hlen. apply Heq.
    apply Forall_forall.
    destruct Hs as (_ & _ & _ & _ & _ & _ & _ & _ & Hdone).
    destruct (Hdone Hpast). by eapply finished_of_displayed.
Qed.

Lemma mark_other q uq it0 i0 f j :
  NoDup (name <$> q) → name <$> uq = name <$> q →
  q !! i0 = Some it0 → j ≠ i0 →
  mark it0 f uq !! j = uq !! j.
Proof.
  intros Hnd Hn Hi Hne. rewrite mark_lookup.
  destruct (uq !! j) as [y|] eqn:Hy; [|done]. cbn.
  case_decide as Hname; [|done].
  by destruct Hne; apply (same_name_same_index q uq j i0 y it0).
Qed.

Lemma tells_verdict net q : tells net (verdict net q).
Proof. unfold tells, verdict. by destruct (returns net). Qed.

Lemma tells_settle base q b b' i net :
  healthy base q b → step (Settle i net) b = Some b' →
  (i ∉ active b') ∧ (i ∉ pending b')
  ∧ ∀ it, uploadQueue (ui b') !! i = Some it → tells net it.
Proof.
  intros ([k Hs] & Hd & _) (it0 & Hat & Hi & Hq & Hb)%step_settle_inv.
  destruct (resume_fields i it0 net b b' Hb) as (_ & _ & Hp & Ha & _ & Hu & _).
  destruct Hs as (Hqq & _ & _ & _ & Hpend & Hact & _).
  destruct Hd as (Hnames & _).
  rewrite Hp, Ha, Hu.
  split; [rewrite not_elem_of_difference, elem_of_singleton; auto|]. split.
  - rewrite Hpend. intros [? _]%elem_of_seq. specialize (Hact i Hi). lia.
  - intros it. rewrite mark_lookup.
    destruct (uploadQueue (ui b) !! i) as [y|] eqn:Hy; [|done]. cbn.
    assert (name y = name it0) as Hn.
    { assert ((name <$> uploadQueue (ui b)) !! i = Some (name y)) as Hl
        by (by rewrite list_lookup_fmap, Hy).
      rewrite Hnames, <- Hqq, list_lookup_fmap, Hq in Hl
        by (by rewrite Hat).
      by injection Hl. }
    rewrite decide_True by done. intros [= <-]. apply tells_verdict.
Qed.

Lemma tells_step base q e b b' j net :
  NoDup (name <$> q) → healthy base q b → step e b = Some b' →
  j ∉ active b → j ∉ pending b →
  (∀ it, uploadQueue (ui b) !! j = Some it → tells net it) →
  (j ∉ active b') ∧ (j ∉ pending b')
  ∧ (at_ b' ≠ Cleared →
     ∀ it, uploadQueue (ui b') !! j = Some it → tells net it).
Proof.
  intros Hnd ([k Hs] & Hd & _) Hstep Hja Hjp Hj.
  destruct Hs as (Hqq & _). destruct Hd as (Hnames & _).
  destruct e.
  - apply step_start_inv in Hstep
      as (i0 & rest & it0 & Hat & _ & Hp & Hq & Hb).
    destruct (start_fields it0 i0 rest b b' Hb)
      as (_ & _ & -> & -> & _ & -> & _).
    rewrite Hp in Hjp. apply not_elem_of_cons in Hjp as [Hne Hrest].
    split; [by rewrite not_elem_of_union, not_elem_of_singleton|].
    split; [done|]. intros _ it.
    rewrite (mark_other q _ it0 i0 _ j); auto.
    + apply Hnames. by rewrite Hat.
    + by rewrite <- Hqq.
  - apply step_sleep_inv in Hstep as (_ & _ & ->). by repeat split.
  - apply step_progress_inv in Hstep as (it0 & Hat & Hi & Hq & Hb).
    destruct (progress_fields it0 _ b b' Hb)
      as (_ & _ & -> & -> & _ & -> & _).
    split; [done|]. split; [done|]. intros _ it.
    rewrite (mark_other q _ it0 i _ j); auto.
    + apply Hnames. by rewrite Hat.
    + by rewrite <- Hqq.
    + by intros ->.
  - apply step_settle_inv in Hstep as (it0 & Hat & Hi & Hq & Hb).
    destruct (resume_fields i it0 net0 b b' Hb)
      as (_ & _ & -> & -> & _ & -> & _).
    split; [by intros [? _]%elem_of_difference|].
    split; [done|]. intros _ it.
    rewrite (mark_other q _ it0 i _ j); auto.
    + apply Hnames. by rewrite Hat.
    + by rewrite <- Hqq.
    + by intros ->.
  - apply step_timer_inv in Hstep as (_ & [[_ ->]|[_ Hb]]);
      [by repeat split|].
    destruct (reload_fields b b' Hb) as (_ & _ & -> & -> & _ & -> & _).
    by repeat split.
  - apply step_loaded_inv in Hstep as (_ & Hb).
    destruct (loaded_fields net0 b b' Hb) as (_ & _ & -> & -> & _ & -> & _).
    by repeat split.
  - apply step_clear_inv in Hstep as (_ & Hb).
    destruct (clear_fields b b' Hb) as (_ & _ & -> & -> & Hc & _).
    by repeat split.
Qed.

Lemma tells_run files u evs :
  NoDup (fname <$> filter is_pdf files) →
  ∀ b i net,
    run evs (handleFileUpload files u) = Some b →
    Settle i net ∈ evs →
    (i ∉ active b) ∧ (i ∉ pending b)
    ∧ (at_ b ≠ Cleared →
       ∀ it, uploadQueue (ui b) !! i = Some it → tells net it).
Proof.
  intros Hnd. rewrite <- queued_names in Hnd.
  induction evs as [|e evs IH] using rev_ind; intros b i net.
  - by intros _ ?%elem_of_nil.
  - rewrite batch_run_snoc.
    destruct (run evs (handleFileUpload files u)) as [b1|] eqn:Hrun; [|done].
    cbn. intros Hstep Hin.
    assert (at_ b1 ≠ Returned) as Hpc.
    { intros Hat. unfold step in Hstep. rewrite Hat in Hstep.
      by destruct e. }
    pose proof (batch_started _ _ _ _ Hrun Hpc) as Hne.
    pose proof (batch_healthy files u evs b1 Hne Hrun) as Hh.
    assert (at_ b1 ≠ Cleared) as Hcl.
    { intros Hat. unfold step in Hstep. rewrite Hat in Hstep.
      by destruct e. }
    apply elem_of_app in Hin as [Hin|Hin].
    + destruct (IH b1 i net eq_refl Hin) as (Ha & Hp & Ht).
      eapply tells_step; eauto.
    + apply list_elem_of_singleton in Hin as <-.
      destruct (tells_settle _ _ b1 b i net Hh Hstep) as (Ha & Hp & Ht).
      by repeat split.
Qed.

(** X17. When the queued files have distinct names, an entry of the queue
    tells the outcome of its own upload from the moment the upload has
    settled: the entry at position [i] carries the name of the [i]-th PDF
    file of the selection and is 'completed' with progress 100 when that
    file's upload resolved, and 'error' with the message of the error when
    it was rejected. *)
Theorem statuses_tell_outcomes files u evs b i net it :
  NoDup (fname <$> filter is_pdf files) →
  run evs (handleFileUpload files u) = Some b →
  Settle i net ∈ evs →
  uploadQueue (ui b) !! i = Some it →
  (fname <$> filter is_pdf files) !! i = Some (name it)
  ∧ match net with
    | Resolved _ => status it = str "completed" ∧ progress it = Whole 100
    | Rejected e =>
        status it = str "error"
        ∧ error it = Some (message (on_rejected e))
    end.
Proof.
  intros Hnd Hrun Hin Hit.
  assert (at_ b ≠ Returned) as Hpc.
  { intros Hat. destruct (handleFileUpload_cases files u)
      as [(_ & u' & Hu & _)|(Hne & _)].
    - rewrite Hu in Hrun. apply returned_stuck in Hrun as [-> _].
      by apply elem_of_nil in Hin.
    - destruct (batch_healthy files u evs b Hne Hrun) as ([k Hs] & _).
      by destruct Hs as (_ & _ & Hr & _). }
  pose proof (batch_started _ _ _ _ Hrun Hpc) as Hne.
  destruct (batch_healthy files u evs b Hne Hrun) as (_ & Hd & _).
  destruct Hd as (Hnames & Hclr & _).
  assert (at_ b ≠ Cleared) as Hcl.
  { intros Hat. by rewrite (Hclr Hat) in Hit. }
  split.
  - by rewrite <- queued_names, <- (Hnames Hcl), list_lookup_fmap, Hit.
  - destruct (tells_run files u evs Hnd b i net Hrun Hin) as (_ & _ & Ht).
    specialize (Ht Hcl it Hit). unfold tells in Ht. by destruct net.
Qed.

Lemma queue_lists_selection_witness :
  let pdf n := {| fname := str n; fbytes := [] |} in
  let files := [pdf "a.pdf"; pdf "notes.txt"; pdf "b.pdf"] in
  let start := handleFileUpload files initial in
  let b := default start (run [Start; Start; Sleep] start) in
  run [Start; Start; Sleep] start = Some b
  ∧ name <$> uploadQueue (ui b) = [str "a.pdf"; str "b.pdf"]
  ∧ file_input_disabled (ui b) = true.
Proof.
  intros pdf files start b.
  assert (run [Start; Start; Sleep] start = Some b) as Hrun
    by (vm_compute; reflexivity).
  split; [exact Hrun|].
  destruct (queue_lists_selection files initial _ b Hrun) as (_ & H & _).
  - vm_compute. discriminate.
  - destruct H as (H1 & H2 & _).
    + vm_compute. discriminate.
    + split; [|exact H2]. rewrite H1. vm_compute. reflexivity.
Defined.

Lemma every_pdf_uploaded_once_witness :
  let pdf n := {| fname := str n; fbytes := [] |} in
  let ok := Resolved {| resp_data := VNull; resp_status := 200 |} in
  let ko := Rejected (Exn None (str "Network Error")) in
  let files := [pdf "a.pdf"; pdf "notes.txt"; pdf "b.pdf"] in
  let evs := [Start; Start; Sleep; Settle 1 ok; Settle 0 ko; Timer] in
  let start := handleFileUpload files initial in
  let b := default start (run evs start) in
  run evs start = Some b
  ∧ requests (ui b)
    = [uploadDocument_request (pdf "a.pdf");
       uploadDocument_request (pdf "b.pdf"); listDocuments_request].
Proof.
  intros pdf ok ko files evs start b.
  assert (run evs start = Some b) as Hrun by (vm_compute; reflexivity).
  split; [exact Hrun|].
  destruct (every_pdf_uploaded_once files initial evs b Hrun) as [H _].
  - vm_compute. reflexivity.
  - rewrite H. vm_compute. reflexivity.
Defined.

Lemma summary_ignores_outcomes_witness :
  let pdf n := {| fname := str n; fbytes := [] |} in
  let ok := Resolved {| resp_data := VNull; resp_status := 200 |} in
  let ko := Rejected (Exn None (str "Network Error")) in
  let files := [pdf "a.pdf"; pdf "notes.txt"; pdf "b.pdf"] in
  let evs := [Start; Start; Sleep; Settle 1 ok; Settle 0 ko; Timer] in
  let start := handleFileUpload files initial in
  let b := default start (run evs start) in
  run evs start = Some b
  ∧ ∃ b', step (Loaded ok) b = Some b'
          ∧ alerts (ui b')
            = alerts (ui b)
              ++ [[of_nat 0;
                   VStr (str "개 파일이 성공적으로 업로드되었습니다!")]].
Proof.
  intros pdf ok ko files evs start b.
  assert (run evs start = Some b) as Hrun by (vm_compute; reflexivity).
  split; [exact Hrun|].
  destruct (summary_ignores_outcomes files initial evs b ok Hrun)
    as (b' & Hstep & _ & Ha).
  - vm_compute. reflexivity.
  - by exists b'.
Defined.

Lemma batch_leaves_page_alone_witness :
  let pdf n := {| fname := str n; fbytes := [] |} in
  let files := [pdf "a.pdf"; pdf "notes.txt"; pdf "b.pdf"] in
  let start := handleFileUpload files initial in
  let b := default start (run [Start; Start; Sleep] start) in
  run [Start; Start; Sleep] start = Some b
  ∧ backendStatus (ui b) = str "checking" ∧ documents (ui b) = VArr [].
Proof.
  intros pdf files start b.
  assert (run [Start; Start; Sleep] start = Some b) as Hrun
    by (vm_compute; reflexivity).
  split; [exact Hrun|].
  destruct (batch_leaves_page_alone files initial _ b Hrun)
    as (H1 & _ & H2 & _).
  split; [exact H1|]. destruct H2 as [H2 _].
  - vm_compute. discriminate.
  - vm_compute. discriminate.
  - exact H2.
Defined.

Lemma batch_can_always_finish_witness :
  let pdf n := {| fname := str n; fbytes := [] |} in
  let ko : settled response := Rejected (Exn None (str "Network Error")) in
  let files := [pdf "a.pdf"; pdf "notes.txt"; pdf "b.pdf"] in
  let start := handleFileUpload files initial in
  let b := default start (run [Start; Start; Sleep] start) in
  run [Start; Start; Sleep] start = Some b
  ∧ ∃ evs' b', run evs' b = Some b' ∧ at_ b' = Cleared.
Proof.
  intros pdf ko files start b.
  assert (run [Start; Start; Sleep] start = Some b) as Hrun
    by (vm_compute; reflexivity).
  split; [exact Hrun|].
  destruct (batch_can_always_finish files initial _ b (fun _ => ko) ko Hrun)
    as (evs' & b' & Hr & Hc & _).
  - vm_compute. discriminate.
  - by exists evs', b'.
Defined.

Lemma entry_shows_one_status_witness :
  let pdf n := {| fname := str n; fbytes := [] |} in
  let files := [pdf "a.pdf"; pdf "notes.txt"; pdf "b.pdf"] in
  let print n := match n with NaN => str "NaN" | _ => str "0" end in
  let evs := [Start; Start; Sleep; Progress 0 NaN] in
  let start := handleFileUpload files initial in
  let b := default start (run evs start) in
  let it := with_progress NaN
              (with_status (str "uploading") (queued (pdf "a.pdf"))) in
  run evs start = Some b
  ∧ uploadQueue (ui b)
    = [it; with_status (str "uploading") (queued (pdf "b.pdf"))]
  ∧ visible (upload_item_info print it)
    = [VStr (str "a.pdf"); VStr (str "📤 업로드 중 (NaN%)")].
Proof.
  intros pdf files print evs start b it.
  assert (run evs start = Some b) as Hrun by (vm_compute; reflexivity).
  assert (uploadQueue (ui b)
          = [it; with_status (str "uploading") (queued (pdf "b.pdf"))])
    as Hq by (vm_compute; reflexivity).
  split; [exact Hrun|]. split; [exact Hq|].
  destruct (entry_shows_one_status print files initial _ b it Hrun)
    as (label & Hv & Hl & _).
  - vm_compute. discriminate.
  - rewrite Hq. apply elem_of_cons. by left.
  - rewrite Hv. do 2 f_equal.
    destruct Hl as [[Hs _]|[[_ ->]|[[Hs _]|[Hs _]]]];
      [by vm_compute in Hs|vm_compute; reflexivity
      |by vm_compute in Hs|by vm_compute in Hs].
Defined.

Lemma heading_counts_witness :
  let pdf n := {| fname := str n; fbytes := [] |} in
  let ok := Resolved {| resp_data := VNull; resp_status := 200 |} in
  let ko := Rejected (Exn None (str "Network Error")) in
  let files := [pdf "a.pdf"; pdf "notes.txt"; pdf "b.pdf"] in
  let evs := [Start; Start; Sleep; Settle 1 ok; Settle 0 ko; Timer] in
  let start := handleFileUpload files initial in
  let b := default start (run evs start) in
  run evs start = Some b
  ∧ texts (upload_heading (ui b))
    = [VStr (str "업로드 진행 상황 ("); of_nat 1; VStr (str "/"); of_nat 2;
       VStr (str ")")].
Proof.
  intros pdf ok ko files evs start b.
  assert (run evs start = Some b) as Hrun by (vm_compute; reflexivity).
  split; [exact Hrun|].
  destruct (heading_counts files initial evs b Hrun) as (H & _).
  - vm_compute. discriminate.
  - vm_compute. discriminate.
  - rewrite H. vm_compute. reflexivity.
Defined.

Lemma statuses_tell_outcomes_witness :
  let pdf n := {| fname := str n; fbytes := [] |} in
  let ok := Resolved {| resp_data := VNull; resp_status := 200 |} in
  let ko := Rejected (Exn None (str "Network Error")) in
  let files := [pdf "a.pdf"; pdf "notes.txt"; pdf "b.pdf"] in
  let evs := [Start; Start; Sleep; Settle 1 ok; Settle 0 ko; Timer] in
  let start := handleFileUpload files initial in
  let b := default start (run evs start) in
  let it := default (queued (pdf "a.pdf")) (uploadQueue (ui b) !! 0) in
  run evs start = Some b
  ∧ uploadQueue (ui b) !! 0 = Some it
  ∧ status it = str "error" ∧ error it = Some (str "Network Error").
Proof.
  intros pdf ok ko files evs start b it.
  assert (run evs start = Some b) as Hrun by (vm_compute; reflexivity).
  assert (uploadQueue (ui b) !! 0 = Some it) as Hit
    by (vm_compute; reflexivity).
  split; [exact Hrun|]. split; [exact Hit|].
  refine (proj2 (statuses_tell_outcomes files initial evs b 0 ko it
                   _ Hrun _ Hit)).
  - vm_compute. repeat constructor; rewrite ?elem_of_cons, ?elem_of_nil;
      intuition discriminate.
  - subst evs. rewrite !elem_of_cons. auto 10.
Defined.

End BatchProps.

(** ** The chat page over a whole session *)

Module ConversationProps.
Import Api React ChatPage HomeView ChatView ChatProps.

Lemma trimStart_snoc l c :
  is_white_space c = false → trimStart (l ++ [c]) = trimStart l ++ [c].
Proof.
  intros Hc. induction l as [|x l IH]; cbn.
  - by rewrite Hc.
  - destruct (is_white_space x); [done|done].
Qed.

Lemma trimEnd_cons c rest :
  is_white_space c = false → trimEnd (c :: rest) = c :: trimEnd rest.
Proof.
  intros Hc. unfold trimEnd.
  by rewrite reverse_cons, (trimStart_snoc _ _ Hc), reverse_app.
Qed.

Lemma trimEnd_last s c :
  last (trimEnd s) = Some c → is_white_space c = false.
Proof.
  unfold trimEnd. destruct (trimStart (reverse s)) as [|x u] eqn:Hu; [done|].
  rewrite reverse_cons, last_snoc. intros [= <-].
  by apply trimStart_head in Hu.
Qed.

Lemma trim_tidy s : trim s ≠ [] → tidy (trim s).
Proof.
  intros Hne. split; [done|]. split.
  - unfold trim in *. destruct (trimStart s) as [|x t] eqn:Ht; [done|].
    apply trimStart_head in Ht. rewrite (trimEnd_cons _ _ Ht).
    by intros c [= <-].
  - apply trimEnd_last.
Qed.

#[local] Arguments handleSend_start : simpl never.
#[local] Arguments handleSend_resume : simpl never.
#[local] Arguments handleKeyPress : simpl never.

(** X18. The send button is disabled exactly when [handleSend] would do
    nothing (the input is blank or a request is pending), and enabled
    exactly when [handleSend] issues a request. *)
Theorem send_button_matches_guard (s : chat) (now : N) :
  (send_disabled s = true ↔ handleSend_start now s = (Normal None, s))
  ∧ (send_disabled s = false
     ↔ ∃ r s', handleSend_start now s = (Normal (Some r), s')).
Proof.
  unfold send_disabled. cbn [truthy]. rewrite negb_involutive.
  destruct (loading s) eqn:Hl; cbn [orb].
  - rewrite (handleSend_blocked s now) by auto.
    split; [done|]. split; [done|]. by intros (r & s' & ?).
  - destruct (decide (trim (inputValue s) = [])) as [Ht|Ht].
    + rewrite (handleSend_blocked s now) by auto.
      rewrite bool_decide_eq_true_2 by done.
      split; [done|]. split; [done|]. by intros (r & s' & ?).
    + rewrite (handleSend_accepted s now Ht Hl).
      rewrite bool_decide_eq_false_2 by done.
      split; [done|]. split; [eauto|done].
Qed.

(** What a step can do to the history and to the requests. *)
Lemma step_cases e s n s' n' :
  step e (s, n) = Some (s', n') →
  docName s' = docName s
  ∧ ((messages s' = messages s ∧ requests s' = requests s
      ∧ (loading s' = loading s
         ∨ ∃ net now, e = Settle net now ∧ ¬ answered net))
     ∨ (∃ now, trim (inputValue s) ≠ [] ∧ loading s = false
               ∧ loading s' = true
               ∧ messages s'
                 = messages s ++ [user_message (trim (inputValue s)) now]
               ∧ requests s'
                 = requests s
                   ++ [askQuestion_request (trim (inputValue s)) (docName s)])
     ∨ (∃ net now m, e = Settle net now ∧ loading s' = false
                     ∧ messages s' = messages s ++ [m]
                     ∧ requests s' = requests s
                     ∧ (type m = str "assistant" ∨ type m = str "error")
                     ∧ (answered net → m = reply net now))).
Proof.
  assert (∀ now r s1,
            handleSend_start now s = (r, s1) →
            docName s1 = docName s
            ∧ ((messages s1 = messages s ∧ requests s1 = requests s
                ∧ loading s1 = loading s ∧ r = Normal None)
               ∨ (trim (inputValue s) ≠ [] ∧ loading s = false
                  ∧ loading s1 = true
                  ∧ messages s1
                    = messages s ++ [user_message (trim (inputValue s)) now]
                  ∧ requests s1
                    = requests s
                      ++ [askQuestion_request (trim (inputValue s))
                            (docName s)]
                  ∧ ∃ q, r = Normal (Some q)))) as Hsend.
  { intros now r s1.
    destruct (handleSend_start_cases now s) as [->|[Ht Hl]].
    - intros [= <- <-]. split; [done|]. left. by repeat split.
    - rewrite (handleSend_accepted s now Ht Hl). intros [= <- <-].
      split; [done|]. right. repeat split; try done. by eexists. }
  destruct e as [text|k now|now|net now]; cbn [step].
  - intros [= <- <-]. split; [done|]. left. repeat split. by left.
  - unfold handleKeyPress.
    destruct (bool_decide (key k = str "Enter") && negb (shiftKey k)).
    + destruct (handleSend_start now s) as [r s1] eqn:Hr.
      destruct (Hsend now r s1 Hr)
        as (Hd & [(Hm & Hq & Hl & ->)|(Ht & Hl & Hl' & Hm & Hq & q & ->)]).
      * intros [= <- <-]. split; [done|]. left. repeat split; auto.
      * intros [= <- <-]. split; [done|]. right. left. by exists now.
    + cbn. intros [= <- <-]. split; [done|]. left. repeat split. by left.
  - destruct (handleSend_start now s) as [r s1] eqn:Hr.
    destruct (Hsend now r s1 Hr)
      as (Hd & [(Hm & Hq & Hl & ->)|(Ht & Hl & Hl' & Hm & Hq & q & ->)]).
    + intros [= <- <-]. split; [done|]. left. repeat split; auto.
    + intros [= <- <-]. split; [done|]. right. left. by exists now.
  - destruct n as [|n0]; [done|]. intros [= <- <-].
    destruct (handleSend_resume_docName now net s) as [Hd Hq].
    split; [done|].
    pose proof (handleSend_resume_loading now net s) as Hl.
    destruct net as [r|err].
    + unfold handleSend_resume, exec, try_finally, try_catch, bind, await,
        returns, intercept, ret, setMessages, modify, assistant_message in *.
      cbn in *.
      destruct (get (resp_data r) (str "answer")) as [a|e1] eqn:Ha; cbn.
      * destruct (get (resp_data r) (str "sources")) as [b|e2] eqn:Hb; cbn.
        -- right. right. eexists _, now, _. split; [done|]. split; [done|].
           split; [done|]. split; [done|]. split; [by left|].
           intros _. unfold reply, get_opt. by rewrite Ha, Hb.
        -- destruct (resp_data r); discriminate.
      * left. repeat split. right. eexists _, _. split; [done|].
        cbn. destruct (resp_data r); try discriminate; by intros ?.
    + right. right. eexists _, now, _. split; [done|]. split; [done|].
      split; [done|]. split; [done|]. split; [by right|]. done.
Qed.

(** A user message carries a question; a reply carries none. *)
Lemma asked_user text now : asked (user_message text now) = Some text.
Proof. unfold asked. cbn. by rewrite bool_decide_eq_true_2. Qed.

Lemma asked_reply m :
  type m = str "assistant" ∨ type m = str "error" → asked m = None.
Proof.
  intros Ht. unfold asked. rewrite bool_decide_eq_false_2; [done|].
  intros Hu. rewrite Hu in Ht. destruct Ht as [H|H]; by vm_compute in H.
Qed.

Lemma questions_step ls e s n s' n' :
  docName s = scope ls →
  requests s
  = (fun q => askQuestion_request q (scope ls)) <$> omap asked (messages s) →
  Forall tidy (omap asked (messages s)) →
  step e (s, n) = Some (s', n') →
  docName s' = scope ls
  ∧ requests s'
    = (fun q => askQuestion_request q (scope ls)) <$> omap asked (messages s')
  ∧ Forall tidy (omap asked (messages s')).
Proof.
  intros Hd Hq Ht Hstep.
  destruct (step_cases e s n s' n' Hstep)
    as (Hd' & [(Hm & Hr & _)
              |[(now & Hne & _ & _ & Hm & Hr)
               |(net & now & m & _ & _ & Hm & Hr & Hty & _)]]).
  - rewrite Hd', Hm, Hr. by repeat split.
  - rewrite Hd', Hm, Hr, omap_app, fmap_app. cbn.
    rewrite asked_user. cbn. rewrite Hq, Hd. split; [done|]. split; [done|].
    apply Forall_app. split; [done|]. constructor; [|done].
    by apply trim_tidy.
  - rewrite Hd', Hm, Hr, omap_app. cbn. rewrite (asked_reply m Hty). cbn.
    rewrite app_nil_r. by repeat split.
Qed.

Lemma questions_run ls evs :
  ∀ s n s' n',
    docName s = scope ls →
    requests s
    = (fun q => askQuestion_request q (scope ls)) <$> omap asked (messages s) →
    Forall tidy (omap asked (messages s)) →
    run evs (s, n) = Some (s', n') →
    requests s'
    = (fun q => askQuestion_request q (scope ls)) <$> omap asked (messages s')
    ∧ Forall tidy (omap asked (messages s')).
Proof.
  induction evs as [|e evs IH]; intros s n s' n' Hd Hq Ht; cbn [run].
  - by intros [= <- <-].
  - destruct (step e (s, n)) as [[s1 n1]|] eqn:Hstep; [|done]. cbn.
    destruct (questions_step ls e s n s1 n1 Hd Hq Ht Hstep) as (? & ? & ?).
    by apply IH.
Qed.

(** X19. The requests a chat page has issued are, in order, one per user
    message of the history, each carrying the text of its message and the
    scope of the page; every such text is non-empty and neither begins nor
    ends with white space. *)
Theorem questions_sent_as_typed (ls : value) (evs : list event)
    (s : chat) (n : nat) :
  run evs (initial ls, 0) = Some (s, n) →
  requests s
  = (fun q => askQuestion_request q (scope ls)) <$> omap asked (messages s)
  ∧ Forall tidy (omap asked (messages s)).
Proof. by apply questions_run. Qed.

Lemma conversation_step e s n s' n' :
  readable e → calm (s, n) → conversation (messages s) (loading s) →
  step e (s, n) = Some (s', n') →
  conversation (messages s') (loading s').
Proof.
  intros He Hcalm Hc Hstep.
  destruct (step_cases e s n s' n' Hstep)
    as (_ & [(Hm & _ & [Hl|(net & now & -> & Hna)])
            |[(now & _ & Hl & Hl' & Hm & _)
             |(net & now & m & -> & Hl' & Hm & _ & Hty & _)]]).
  - by rewrite Hm, Hl.
  - by destruct Hna.
  - rewrite Hm, Hl'. rewrite Hl in Hc. by constructor.
  - rewrite Hm, Hl'. apply conv_reply; [|done].
    cbn in Hstep. destruct n as [|n0]; [done|].
    destruct Hcalm as [[Hl _]|[_ ?]]; [|done]. cbn in Hl. by rewrite <- Hl.
Qed.

Lemma conversation_run evs :
  ∀ s n s' n',
    Forall readable evs → calm (s, n) →
    conversation (messages s) (loading s) →
    run evs (s, n) = Some (s', n') →
    conversation (messages s') (loading s').
Proof.
  induction evs as [|e evs IH]; intros s n s' n' Hall Hcalm Hc; cbn [run].
  - by intros [= <- <-].
  - destruct (step e (s, n)) as [[s1 n1]|] eqn:Hstep; [|done]. cbn.
    apply Forall_cons in Hall as [He Hall].
    apply (IH s1 n1); [done| |].
    + exact (calm_step e (s, n) (s1, n1) Hcalm Hstep).
    + exact (conversation_step e s n s1 n1 He Hcalm Hc Hstep).
Qed.

(** X20. As long as every reply can be read, the history is a
    conversation: questions and replies alternate, starting with a
    question, and the page is loading exactly when the last question has no
    reply yet. *)
Theorem conversation_alternates (ls : value) (evs : list event)
    (s : chat) (n : nat) :
  Forall readable evs →
  run evs (initial ls, 0) = Some (s, n) →
  conversation (messages s) (loading s).
Proof.
  intros Hall. apply conversation_run; [done|by right|constructor].
Qed.

Lemma append_only_run evs :
  ∀ s n s' n',
    run evs (s, n) = Some (s', n') →
    messages s `prefix_of` messages s'
    ∧ requests s `prefix_of` requests s' ∧ docName s' = docName s.
Proof.
  induction evs as [|e evs IH]; intros s n s' n'; cbn [run].
  - by intros [= <- <-].
  - destruct (step e (s, n)) as [[s1 n1]|] eqn:Hstep; [|done]. cbn.
    intros (Hm & Hr & Hd)%IH.
    destruct (step_cases e s n s1 n1 Hstep)
      as (Hd' & [(Hm1 & Hr1 & _)
                |[(now & _ & _ & _ & Hm1 & Hr1)
                 |(net & now & m & _ & _ & Hm1 & Hr1 & _)]]);
      rewrite Hm1, Hr1 in *; (split; [|split; [|congruence]]);
      try done; by eapply prefix_app_l.
Qed.

(** X21. Nothing ever removes or rewrites a message or changes the scope:
    the history and the request log of a later state extend those of an
    earlier one; at most one request is pending at any time, and the page
    is loading exactly while one is. *)
Theorem history_is_append_only (ls : value) (evs evs' : list event)
    (s s' : chat) (n n' : nat) :
  run evs (initial ls, 0) = Some (s, n) →
  run evs' (s, n) = Some (s', n') →
  messages s `prefix_of` messages s'
  ∧ requests s `prefix_of` requests s'
  ∧ docName s' = scope ls
  ∧ n' ≤ 1 ∧ (loading s' = true ↔ n' = 1).
Proof.
  intros Hrun Hrun'.
  destruct (append_only_run evs' s n s' n' Hrun') as (Hm & Hr & Hd).
  destruct (append_only_run evs _ _ s n Hrun) as (_ & _ & Hd0).
  assert (calm (s', n')) as Hcalm.
  { eapply calm_run; [|exact Hrun'].
    eapply calm_run; [|exact Hrun]. by right. }
  split; [done|]. split; [done|]. split; [by rewrite Hd, Hd0|].
  destruct Hcalm as [[Hl Hn]|[Hl Hn]]; cbn in Hl, Hn; rewrite Hl, Hn;
    split; (lia || (split; congruence || lia)).
Qed.

(** X22. User messages and error messages never show a sources block, and
    neither does any message whose sources are missing, [null] or an empty
    array. *)
Theorem no_sources_no_block :
  (∀ text now, hidden (sources_block (user_message text now)))
  ∧ (∀ e now, hidden (sources_block (error_message e now)))
  ∧ (∀ m, sources m = VArr [] ∨ nullish (sources m) = true →
          hidden (sources_block m)).
Proof.
  split; [by eexists|]. split; [by eexists|].
  intros m [Hs|Hs]; unfold sources_block.
  - rewrite Hs. by eexists.
  - destruct (sources m); try discriminate; by eexists.
Qed.

(** X23. A reply that resolved with [null] or [undefined] as its body
    appends no message, neither an answer nor an error: the loading state
    ends, the history stays as it was, and the page fails when it
    renders. *)
Theorem unreadable_reply_is_dropped (s : chat) (now : N) (r : response) :
  nullish (resp_data r) = true →
  let s' := exec (handleSend_resume now (Resolved r)) s in
  messages s' = messages s ∧ loading s' = false ∧ requests s' = requests s
  ∧ ∃ e, failure s' = Some e.
Proof.
  intros Hn s'. subst s'.
  destruct (resp_data r) eqn:Hr; try discriminate;
    unfold handleSend_resume, exec, try_finally, try_catch, bind, await,
      returns, intercept, ret, setMessages, modify, assistant_message;
    cbn; rewrite Hr; cbn; repeat split; by eexists.
Qed.

Lemma questions_sent_as_typed_witness :
  let ls := VObj [(str "docName", VStr (str "a.pdf"))] in
  let evs := [Edit (str " what is it? "); Click 1%N] in
  let st := default (initial ls, 0) (run evs (initial ls, 0)) in
  run evs (initial ls, 0) = Some (st.1, st.2)
  ∧ omap asked (messages st.1) = [str "what is it?"]
  ∧ requests st.1
    = [askQuestion_request (str "what is it?") (VStr (str "a.pdf"))].
Proof.
  intros ls evs st.
  assert (run evs (initial ls, 0) = Some (st.1, st.2)) as Hrun
    by (vm_compute; reflexivity).
  split; [exact Hrun|].
  destruct (questions_sent_as_typed ls evs st.1 st.2 Hrun) as [H _].
  assert (omap asked (messages st.1) = [str "what is it?"]) as Hq
    by (vm_compute; reflexivity).
  split; [exact Hq|]. rewrite H, Hq. vm_compute. reflexivity.
Defined.

Lemma conversation_alternates_witness :
  let ok := Resolved {| resp_data :=
                          VObj [(str "answer", VStr (str "42"));
                                (str "sources", VArr [])];
                        resp_status := 200 |} in
  let evs := [Edit (str " why? "); Click 1%N; Settle ok 2%N] in
  let st := default (initial VNull, 0) (run evs (initial VNull, 0)) in
  run evs (initial VNull, 0) = Some (st.1, st.2)
  ∧ conversation (messages st.1) (loading st.1).
Proof.
  intros ok evs st.
  assert (run evs (initial VNull, 0) = Some (st.1, st.2)) as Hrun
    by (vm_compute; reflexivity).
  split; [exact Hrun|].
  apply (conversation_alternates VNull evs st.1 st.2); [|exact Hrun].
  repeat constructor.
Defined.

Lemma history_is_append_only_witness :
  let ok := Resolved {| resp_data :=
                          VObj [(str "answer", VStr (str "42"));
                                (str "sources", VArr [])];
                        resp_status := 200 |} in
  let evs := [Edit (str " why? "); Click 1%N] in
  let st := default (initial VNull, 0) (run evs (initial VNull, 0)) in
  let st' := default st (run [Settle ok 2%N] st) in
  run evs (initial VNull, 0) = Some (st.1, st.2)
  ∧ run [Settle ok 2%N] (st.1, st.2) = Some (st'.1, st'.2)
  ∧ messages st.1 `prefix_of` messages st'.1.
Proof.
  intros ok evs st st'.
  assert (run evs (initial VNull, 0) = Some (st.1, st.2)) as Hrun
    by (vm_compute; reflexivity).
  assert (run [Settle ok 2%N] (st.1, st.2) = Some (st'.1, st'.2)) as Hrun'
    by (vm_compute; reflexivity).
  split; [exact Hrun|]. split; [exact Hrun'|].
  exact (proj1 (history_is_append_only VNull evs _ _ _ _ _ Hrun Hrun')).
Defined.

Lemma unreadable_reply_is_dropped_witness :
  let s := exec (handleSend_resume 2%N
                   (Resolved {| resp_data := VNull; resp_status := 200 |}))
             (initial VNull) in
  messages s = [] ∧ loading s = false.
Proof.
  intros s.
  destruct (unreadable_reply_is_dropped (initial VNull) 2%N
              {| resp_data := VNull; resp_status := 200 |} eq_refl)
    as (H1 & H2 & _).
  split; [exact H1|exact H2].
Defined.

End ConversationProps.

(** ** The main process *)

Module MainProcessProps.
Import MainProcess.

(** What one event adds to what the process has done. *)
Lemma step_effects h e s s' :
  step h e s = Some s' →
  exited s = false
  ∧ ∃ es, effects s' = effects s ++ es
          ∧ Forall (allowed h) es
          ∧ (e ≠ Ready → Forall (fun x => is_spawn x = false) es
                         ∧ backendProcess s' = backendProcess s
                         ∧ activate_listener s' = activate_listener s)
          ∧ (e ≠ Quit → Forall (fun x => is_kill x = false) es
                        ∧ exited s' = false).
Proof.
  unfold step. destruct (exited s) eqn:Hx; [done|]. intros Hstep.
  split; [done|]. revert Hstep.
  destruct e as [| | |id|id|].
  - destruct (activate_listener s); [done|]. intros [= <-].
    eexists. split; [reflexivity|]. destruct (isDev h); cbn;
      repeat split; try done; repeat constructor.
  - destruct (timer s); [|done]. intros [= <-].
    unfold dispatch, createWindow, bind, gets, emit, modify; cbn.
    destruct (isDev h) eqn:Hd; cbn; rewrite <- !app_assoc;
      (eexists; split; [reflexivity|]);
      unfold allowed, startUrl; rewrite Hd; repeat split; try done;
      repeat constructor; done.
  - intros [= <-]. destruct (activate_listener s) eqn:Ha.
    + unfold dispatch, on_activate, createWindow, bind, gets, emit, modify;
        cbn.
      case_decide; cbn.
      * destruct (isDev h) eqn:Hd; cbn; rewrite <- !app_assoc;
          (eexists; split; [reflexivity|]);
          unfold allowed, startUrl; rewrite Hd; repeat split; try done;
          repeat constructor; done.
      * exists []. rewrite app_nil_r. by repeat split.
    + exists []. rewrite app_nil_r. by repeat split.
  - case_decide; [|done]. intros [= <-].
    unfold dispatch, on_ready_to_show, bind, gets, emit, modify; cbn.
    destruct (mainWindow s) eqn:Hw; cbn.
    + eexists. split; [reflexivity|]. repeat split; try done;
        repeat constructor.
    + exists []. rewrite app_nil_r. by repeat split.
  - case_decide; [|done]. intros [= <-]. cbn.
    case_decide; cbn.
    + unfold dispatch, on_window_all_closed. case_decide; cbn.
      * eexists. split; [reflexivity|]. repeat split; try done;
          repeat constructor; done.
      * exists []. rewrite app_nil_r. by repeat split.
    + exists []. rewrite app_nil_r. by repeat split.
  - intros [= <-].
    unfold dispatch, on_quit, bind, gets, emit, modify; cbn.
    destruct (backendProcess s) eqn:Hb; cbn.
    + eexists. split; [reflexivity|]. repeat split; try done;
        repeat constructor.
    + exists []. rewrite app_nil_r. by repeat split.
Qed.

Lemma step_quit h s s' :
  step h Quit s = Some s' →
  exited s' = true
  ∧ effects s'
    = effects s ++ match backendProcess s with
                   | Some pid => [Kill pid]
                   | None => []
                   end.
Proof.
  unfold step. destruct (exited s); [done|]. intros [= <-].
  unfold dispatch, on_quit, bind, gets, emit, modify; cbn.
  destruct (backendProcess s); cbn; [done|]. by rewrite app_nil_r.
Qed.

Lemma main_run_snoc h evs e s :
  run h (evs ++ [e]) s = run h evs s ≫= step h e.
Proof.
  revert s. induction evs as [|e' evs IH]; intros s; cbn.
  - by destruct (step h e s).
  - destruct (step h e' s) as [s1|]; [apply IH|done].
Qed.

(** Before the ready callback nothing has been done; after it the first
    thing done is the start of the back end, and nothing else starts a
    process. *)
Lemma started_step h e s s' :
  ((activate_listener s = false ∧ effects s = [] ∧ backendProcess s = None
    ∧ timer s = false ∧ windows s = [])
   ∨ (activate_listener s = true ∧ backendProcess s = Some 0
      ∧ ∃ rest, effects s = backend_command h :: rest
                ∧ Forall (fun x => is_spawn x = false) rest)) →
  step h e s = Some s' →
  (activate_listener s' = false ∧ effects s' = [] ∧ backendProcess s' = None
   ∧ timer s' = false ∧ windows s' = [])
  ∨ (activate_listener s' = true ∧ backendProcess s' = Some 0
     ∧ ∃ rest, effects s' = backend_command h :: rest
               ∧ Forall (fun x => is_spawn x = false) rest).
Proof.
  intros [(Ha & He & Hb & Ht & Hw)|(Ha & Hb & rest & He & Hrest)] Hstep.
  - revert Hstep. unfold step. destruct (exited s) eqn:Hx; [done|].
    destruct e as [| | |id|id|]; rewrite ?Ha, ?Ht, ?Hw.
    + intros [= <-]. right. cbn. rewrite He. cbn.
      split; [done|]. split; [done|]. exists [].
      split; [|done]. unfold backend_command. by destruct (isDev h).
    + done.
    + intros [= <-]. by left.
    + rewrite decide_False; [done|]. intros [H _]. by apply elem_of_nil in H.
    + rewrite decide_False; [done|]. intros H. by apply elem_of_nil in H.
    + intros [= <-]. left.
      unfold dispatch, on_quit, bind, gets; cbn. rewrite Hb. cbn.
      by repeat split.
  - assert (e = Ready ∨ e ≠ Ready) as [->|Hne]
      by (destruct e; auto; right; discriminate).
    { revert Hstep. unfold step. destruct (exited s); [done|].
      by rewrite Ha. }
    destruct (step_effects h e s s' Hstep)
      as (_ & es & He' & _ & Hsp & _).
    destruct (Hsp Hne) as (Hes & Hb' & Ha').
    right. rewrite Ha', Hb'. split; [done|]. split; [done|].
    exists (rest ++ es). rewrite He', He. split; [done|].
    by apply Forall_app.
Qed.

Lemma started_run h evs :
  ∀ s, run h evs initial = Some s →
  (activate_listener s = false ∧ effects s = [] ∧ backendProcess s = None
   ∧ timer s = false ∧ windows s = [])
  ∨ (activate_listener s = true ∧ backendProcess s = Some 0
     ∧ ∃ rest, effects s = backend_command h :: rest
               ∧ Forall (fun x => is_spawn x = false) rest).
Proof.
  induction evs as [|e evs IH] using rev_ind; intros s.
  - intros [= <-]. left. by repeat split.
  - rewrite main_run_snoc. destruct (run h evs initial) as [s1|]; [|done].
    cbn. by apply started_step, IH.
Qed.

Lemma allowed_run h evs :
  ∀ s, run h evs initial = Some s →
  Forall (allowed h) (effects s)
  ∧ (exited s = false → Forall (fun x => is_kill x = false) (effects s)).
Proof.
  induction evs as [|e evs IH] using rev_ind; intros s.
  - intros [= <-]. by split.
  - rewrite main_run_snoc. destruct (run h evs initial) as [s1|]; [|done].
    cbn. intros Hstep. destruct (IH s1 eq_refl) as [Hall Hkill].
    destruct (step_effects h e s1 s Hstep)
      as (Hx & es & -> & Hes & _ & Hk).
    split; [by apply Forall_app|].
    intros Hx'.
    assert (e = Quit ∨ e ≠ Quit) as [->|Hne]
      by (destruct e; auto; right; discriminate).
    + apply step_quit in Hstep as [Hq _]. congruence.
    + destruct (Hk Hne) as [Hes' _]. apply Forall_app. auto.
Qed.

(** X24. The back end is started exactly once, as the first thing the main
    process does when Electron is ready, with the same command in
    development and in production ([python -m uvicorn src.api.main:app] on
    127.0.0.1:8000, in the [backend] directory); before that the process
    does nothing. *)
Theorem backend_started_first (h : host) (evs : list event) (s : main) :
  run h evs initial = Some s →
  (Ready ∉ evs → effects s = [] ∧ backendProcess s = None)
  ∧ (Ready ∈ evs →
     backendProcess s = Some 0
     ∧ ∃ rest, effects s = backend_command h :: rest
               ∧ Forall (fun x => is_spawn x = false) rest).
Proof.
  intros Hrun.
  assert (activate_listener s = true ↔ Ready ∈ evs) as Hready.
  { revert s Hrun. induction evs as [|e evs IH] using rev_ind; intros s.
    - intros [= <-]. cbn. split; [done|]. by intros ?%elem_of_nil.
    - rewrite main_run_snoc. destruct (run h evs initial) as [s1|]; [|done].
      cbn. intros Hstep. specialize (IH s1 eq_refl).
      rewrite elem_of_app, list_elem_of_singleton.
      assert (e = Ready ∨ e ≠ Ready) as [->|Hne]
        by (destruct e; auto; right; discriminate).
      + split; [auto|]. intros _. revert Hstep. unfold step.
        destruct (exited s1); [done|].
        destruct (activate_listener s1); [done|]. by intros [= <-].
      + destruct (step_effects h e s1 s Hstep) as (_ & es & _ & _ & Hsp & _).
        destruct (Hsp Hne) as (_ & _ & ->). rewrite IH.
        split; [auto|]. by intros [?|?]. }
  destruct (started_run h evs s Hrun)
    as [(Ha & He & Hb & _)|(Ha & Hb & Hrest)].
  - split; [done|]. intros Hin%Hready. congruence.
  - split; [|done]. intros Hnin. by destruct Hnin; apply Hready.
Qed.

Lemma backend_started_first_witness :
  let h := {| isDev := false; platform := str "win32";
              dirname := str "C:/app/electron" |} in
  ∃ s rest, run h [Ready; Timer; ReadyToShow 1] initial = Some s
            ∧ effects s = backend_command h :: rest.
Proof.
  intros h.
  pose (s := default initial (run h [Ready; Timer; ReadyToShow 1] initial)).
  assert (run h [Ready; Timer; ReadyToShow 1] initial = Some s) as Hrun
    by (vm_compute; reflexivity).
  destruct (proj2 (backend_started_first h _ s Hrun)) as (_ & rest & He & _).
  { rewrite elem_of_cons. by left. }
  by exists s, rest.
Defined.

(** X25. The back end is never killed while the application runs. When the
    application quits, the back end is killed if it was started, and
    nothing is killed otherwise. *)
Theorem quit_kills_backend (h : host) (evs : list event) (s : main) :
  run h evs initial = Some s →
  exited s = false →
  Forall (fun x => is_kill x = false) (effects s)
  ∧ ∃ s', step h Quit s = Some s'
          ∧ effects s'
            = effects s ++ (if activate_listener s then [Kill 0] else []).
Proof.
  intros Hrun Hx. destruct (allowed_run h evs s Hrun) as [_ Hk].
  split; [auto|].
  destruct (step h Quit s) as [s'|] eqn:Hstep;
    [|unfold step in Hstep; by rewrite Hx in Hstep].
  exists s'. split; [done|].
  destruct (step_quit h s s' Hstep) as [_ ->].
  destruct (started_run h evs s Hrun)
    as [(-> & _ & -> & _)|(-> & -> & _)]; [by rewrite app_nil_r|done].
Qed.

Lemma quit_kills_backend_witness :
  let h := {| isDev := false; platform := str "win32";
              dirname := str "C:/app/electron" |} in
  ∃ s s', run h [Ready; Timer; Closed 1] initial = Some s
          ∧ step h Quit s = Some s'
          ∧ effects s' = effects s ++ [Kill 0].
Proof.
  intros h.
  pose (s := default initial (run h [Ready; Timer; Closed 1] initial)).
  assert (run h [Ready; Timer; Closed 1] initial = Some s) as Hrun
    by (vm_compute; reflexivity).
  destruct (proj2 (quit_kills_backend h _ s Hrun eq_refl))
    as (s' & Hstep & He).
  by exists s, s'.
Defined.

Lemma createWindow_effects h s :
  (createWindow h s).1 = Normal tt
  ∧ effects (createWindow h s).2
    = effects s ++ window_effects h (length (effects s))
  ∧ windows (createWindow h s).2 = windows s ++ [length (effects s)].
Proof.
  unfold createWindow, window_effects, bind, gets, emit, modify, set_windows,
    set_mainWindow, ret; cbn.
  destruct (isDev h); cbn; rewrite <- ?app_assoc; by repeat split.
Qed.

Lemma step_shape h e s s' :
  step h e s = Some s' →
  ∃ es, effects s' = effects s ++ es
        ∧ ((Forall (fun x => about_window x = false) es
            ∧ ∀ id, id ∈ windows s' → id ∈ windows s)
           ∨ ∃ id, es = window_effects h id
                   ∧ windows s' = windows s ++ [id]).
Proof.
  assert (∀ s0 : main,
            ∃ id, effects (dispatch (createWindow h) s0)
                  = effects s0 ++ window_effects h id
                  ∧ windows (dispatch (createWindow h) s0)
                    = windows s0 ++ [id]) as Hcreate.
  { intros s0. destruct (createWindow_effects h s0) as (Hn & He & Hw).
    unfold dispatch. destruct (createWindow h s0) as [[[]|x] s1];
      cbn in *; [|done].
    by eexists. }
  unfold step. destruct (exited s) eqn:Hx; [done|].
  destruct e as [| | |id0|id0|].
  - destruct (activate_listener s); [done|]. intros [= <-].
    eexists. split; [reflexivity|]. left. split; [by repeat constructor|].
    done.
  - destruct (timer s); [|done]. intros [= <-].
    destruct (Hcreate (exec (set_pending (activate_listener s) false) s))
      as (id & He & Hw).
    eexists. split; [exact He|]. right. by exists id.
  - intros [= <-]. destruct (activate_listener s) eqn:Ha.
    + unfold on_activate, dispatch, bind, gets. cbn.
      case_decide.
      * destruct (Hcreate s) as (id & He & Hw).
        eexists. split; [exact He|]. right. by exists id.
      * exists []. rewrite app_nil_r. split; [done|]. by left.
    + exists []. rewrite app_nil_r. split; [done|]. by left.
  - case_decide; [|done]. intros [= <-].
    unfold dispatch, on_ready_to_show, bind, gets, emit, modify; cbn.
    destruct (mainWindow s) eqn:Hw; cbn.
    + eexists. split; [reflexivity|]. left. split; [by repeat constructor|].
      done.
    + exists []. rewrite app_nil_r. split; [done|]. by left.
  - case_decide; [|done]. intros [= <-]. cbn.
    case_decide; cbn.
    + unfold dispatch, on_window_all_closed. case_decide; cbn.
      * eexists. split; [reflexivity|]. left.
        split; [by repeat constructor|].
        by intros id [_ ?]%list_elem_of_filter.
      * exists []. rewrite app_nil_r. split; [done|]. left.
        split; [done|]. by intros id [_ ?]%list_elem_of_filter.
    + exists []. rewrite app_nil_r. split; [done|]. left.
      split; [done|]. by intros id [_ ?]%list_elem_of_filter.
  - intros [= <-].
    unfold dispatch, on_quit, bind, gets, emit, modify; cbn.
    destruct (backendProcess s) eqn:Hb; cbn.
    + eexists. split; [reflexivity|]. left. split; [by repeat constructor|].
      done.
    + exists []. rewrite app_nil_r. split; [done|]. by left.
Qed.

Lemma window_effects_spec h id :
  (∀ x, x ∈ window_effects h id →
     x = NewWindow id {| from := dirname h; to := str "preload.js" |}
     ∨ x = LoadURL id (startUrl h)
     ∨ (x = OpenDevTools id ∧ isDev h = true))
  ∧ NewWindow id {| from := dirname h; to := str "preload.js" |}
    ∈ window_effects h id
  ∧ LoadURL id (startUrl h) ∈ window_effects h id
  ∧ (isDev h = true → OpenDevTools id ∈ window_effects h id).
Proof.
  unfold window_effects. destruct (isDev h); cbn; split_and!.
  - intros x. rewrite !elem_of_cons, elem_of_nil. intuition.
  - rewrite !elem_of_cons. auto.
  - rewrite !elem_of_cons. auto.
  - intros _. rewrite !elem_of_cons. auto.
  - intros x. rewrite !elem_of_cons, elem_of_nil. intuition.
  - rewrite !elem_of_cons. auto.
  - rewrite !elem_of_cons. auto.
  - done.
Qed.

Lemma windows_run h evs :
  ∀ s, run h evs initial = Some s →
  (∀ id p, NewWindow id p ∈ effects s →
     LoadURL id (startUrl h) ∈ effects s
     ∧ (isDev h = true → OpenDevTools id ∈ effects s))
  ∧ (∀ id url, LoadURL id url ∈ effects s → ∃ p, NewWindow id p ∈ effects s)
  ∧ (∀ id, OpenDevTools id ∈ effects s → ∃ p, NewWindow id p ∈ effects s)
  ∧ (∀ id, id ∈ windows s → ∃ p, NewWindow id p ∈ effects s).
Proof.
  induction evs as [|e evs IH] using rev_ind; intros s.
  - intros [= <-]. cbn. split_and!; intros *; by intros ?%elem_of_nil.
  - rewrite main_run_snoc. destruct (run h evs initial) as [s1|]; [|done].
    cbn. intros Hstep. destruct (IH s1 eq_refl) as (I1 & I2 & I3 & I4).
    destruct (step_shape h e s1 s Hstep)
      as (es & -> & [[Hplain Hw]|(id0 & -> & Hw)]).
    + rewrite Forall_forall in Hplain. split_and!.
      * intros id p [Hin|Hin]%elem_of_app.
        -- destruct (I1 id p Hin) as [H1 H2]. rewrite !elem_of_app. auto.
        -- by specialize (Hplain _ Hin).
      * intros id url [Hin|Hin]%elem_of_app.
        -- destruct (I2 id url Hin) as [p Hp]. exists p.
           rewrite elem_of_app. auto.
        -- by specialize (Hplain _ Hin).
      * intros id [Hin|Hin]%elem_of_app.
        -- destruct (I3 id Hin) as [p Hp]. exists p.
           rewrite elem_of_app. auto.
        -- by specialize (Hplain _ Hin).
      * intros id Hin%Hw. destruct (I4 id Hin) as [p Hp]. exists p.
        rewrite elem_of_app. auto.
    + destruct (window_effects_spec h id0) as (Hall & Hn & Hl & Hd).
      split_and!.
      * intros id p [Hin|Hin]%elem_of_app.
        -- destruct (I1 id p Hin) as [H1 H2]. rewrite !elem_of_app. auto.
        -- destruct (Hall _ Hin) as [H|[H|[H _]]];
             [injection H as Hid _; subst id|discriminate H|discriminate H].
           rewrite !elem_of_app. auto.
      * intros id url [Hin|Hin]%elem_of_app.
        -- destruct (I2 id url Hin) as [p Hp]. exists p.
           rewrite elem_of_app. auto.
        -- destruct (Hall _ Hin) as [H|[H|[H _]]];
             [discriminate H|injection H as Hid _; subst id|discriminate H].
           eexists. rewrite elem_of_app. eauto.
      * intros id [Hin|Hin]%elem_of_app.
        -- destruct (I3 id Hin) as [p Hp]. exists p.
           rewrite elem_of_app. auto.
        -- destruct (Hall _ Hin) as [H|[H|[H _]]];
             [discriminate H|discriminate H|injection H as Hid; subst id].
           eexists. rewrite elem_of_app. eauto.
      * rewrite Hw. intros id [Hin|Hin]%elem_of_app.
        -- destruct (I4 id Hin) as [p Hp]. exists p.
           rewrite elem_of_app. auto.
        -- apply list_elem_of_singleton in Hin as ->.
           eexists. rewrite elem_of_app. eauto.
Qed.

(** X26. Every window the main process creates is created with the preload
    script beside [main.js], loads the start URL of the host (the
    development server in development, the built [index.html] otherwise)
    and, in development, has the developer tools opened; every open window
    was created by the process. The timer that follows readiness creates one
    window; an activation creates one exactly when the listener is
    registered and no window is open, and changes nothing otherwise. The
    developer tools are opened in development only, and on macOS the
    process never asks the application to quit. *)
Theorem main_process_respects_host (h : host) (evs : list event) (s : main) :
  run h evs initial = Some s →
  Forall (allowed h) (effects s)
  ∧ (∀ id p, NewWindow id p ∈ effects s →
       LoadURL id (startUrl h) ∈ effects s
       ∧ (isDev h = true → OpenDevTools id ∈ effects s))
  ∧ (∀ id, id ∈ windows s → ∃ p, NewWindow id p ∈ effects s)
  ∧ (∀ s', step h Timer s = Some s' →
       ∃ id, effects s' = effects s ++ window_effects h id
             ∧ windows s' = windows s ++ [id])
  ∧ (∀ s', step h Activate s = Some s' →
       if decide (activate_listener s = true ∧ windows s = [])
       then ∃ id, effects s' = effects s ++ window_effects h id
                  ∧ windows s' = [id]
       else s' = s).
Proof.
  intros Hrun. destruct (allowed_run h evs s Hrun) as [Hall _].
  destruct (windows_run h evs s Hrun) as (H1 & _ & _ & H4).
  split; [done|]. split; [done|]. split; [done|]. split.
  - intros s'. unfold step. destruct (exited s); [done|].
    destruct (timer s); [|done]. intros [= <-].
    destruct (createWindow_effects h
                (exec (set_pending (activate_listener s) false) s))
      as (Hn & He & Hw).
    unfold dispatch.
    destruct (createWindow h
                (exec (set_pending (activate_listener s) false) s))
      as [[[]|x] s1]; cbn in *; [|done].
    by eexists.
  - intros s'. unfold step. destruct (exited s); [done|]. intros [= <-].
    destruct (activate_listener s) eqn:Ha.
    + unfold on_activate, dispatch, bind, gets. cbn.
      case_decide as Hnil.
      * destruct Hnil as [_ Hnil].
        rewrite decide_True by (by rewrite Hnil).
        destruct (createWindow_effects h s) as (Hn & He & Hw).
        destruct (createWindow h s) as [[[]|x] s1]; cbn in *; [|done].
        rewrite Hnil in Hw. by eexists.
      * rewrite decide_False; [done|]. intros Hlen%nil_length_inv. auto.
    + rewrite decide_False by (by intros [? _]). done.
Qed.

Lemma main_process_respects_host_witness :
  let h := {| isDev := true; platform := str "darwin";
              dirname := str "/app/electron" |} in
  let evs := [Ready; Timer; Closed 1; Activate] in
  let s := default initial (run h evs initial) in
  run h evs initial = Some s
  ∧ windows s = [4]
  ∧ LoadURL 4 (Http (str "http://localhost:3000")) ∈ effects s
  ∧ OpenDevTools 4 ∈ effects s.
Proof.
  intros h evs s.
  assert (run h evs initial = Some s) as Hrun by (vm_compute; reflexivity).
  assert (windows s = [4]) as Hw by (vm_compute; reflexivity).
  split; [exact Hrun|]. split; [exact Hw|].
  destruct (main_process_respects_host h evs s Hrun)
    as (_ & Hload & Hopen & _).
  destruct (Hopen 4) as [p Hp]; [rewrite Hw; by apply list_elem_of_singleton|].
  destruct (Hload 4 p Hp) as [Hl Hd]. split; [exact Hl|]. by apply Hd.
Defined.

End MainProcessProps.

(** ** The retrieval core *)

Module CoreProps.
Import Core.

Lemma record_ids name hash chunks embeddings (id : chunk_id) :
  id ∈ chunk <$> records_of name hash chunks embeddings
  ↔ id.1 = hash ∧ id.2 < length chunks.
Proof.
  unfold records_of. rewrite list_elem_of_fmap. split.
  - intros (r & -> & (k & ch & -> & Hk)%elem_of_lookup_imap). cbn.
    split; [done|]. by apply lookup_lt_Some in Hk.
  - intros [<- Hk]. apply lookup_lt_is_Some in Hk as [ch Hch].
    eexists. split; [|by apply elem_of_lookup_imap_2].
    by destruct id.
Qed.

Lemma dom_upsert (records : list IndexRecord)
    (m : gmap chunk_id IndexRecord) (id : chunk_id) :
  id ∈ dom (upsert records m) ↔ id ∈ chunk <$> records ∨ id ∈ dom m.
Proof.
  unfold upsert. rewrite dom_union_L, elem_of_union, dom_list_to_map_L,
    elem_of_list_to_set, <- list_fmap_compose. done.
Qed.

Lemma dom_remove (ids : gset chunk_id)
    (m : gmap chunk_id IndexRecord) (id : chunk_id) :
  id ∈ dom (remove ids m) ↔ id ∈ dom m ∧ id ∉ ids.
Proof.
  unfold remove. rewrite !elem_of_dom. unfold is_Some.
  setoid_rewrite map_lookup_filter_Some. cbn. split.
  - intros (r & Hr & Hout). eauto.
  - intros [[r Hr] Hout]. eauto.
Qed.

(** Writing fresh records and deleting them again restores the index. *)
Lemma remove_upsert (records : list IndexRecord)
    (m : gmap chunk_id IndexRecord) :
  (∀ id, id ∈ chunk <$> records → id ∉ dom m) →
  remove (list_to_set (chunk <$> records)) (upsert records m) = m.
Proof.
  intros Hfresh. apply map_eq. intros id. unfold remove, upsert.
  rewrite map_lookup_filter.
  destruct (decide (id ∈ chunk <$> records)) as [Hin|Hin].
  - rewrite (not_elem_of_dom_1 m id) by auto.
    destruct ((_ ∪ m) !! id); cbn; [|done].
    rewrite option_guard_False; [done|].
    cbn. rewrite elem_of_list_to_set. auto.
  - rewrite lookup_union_r.
    + destruct (m !! id); cbn; [|done].
      rewrite option_guard_True; [done|].
      cbn. by rewrite elem_of_list_to_set.
    + apply not_elem_of_list_to_map_1.
      by rewrite <- list_fmap_compose.
Qed.

Lemma chunks_of_spec (name : string) (docs : gmap N (string * nat))
    (id : chunk_id) :
  id ∈ chunks_of name docs
  ↔ ∃ count, docs !! id.1 = Some (name, count) ∧ id.2 < count.
Proof.
  unfold chunks_of. rewrite elem_of_list_to_set, list_elem_of_In, in_flat_map.
  split.
  - intros ([h [n count]] & Hin & Hid). cbn in Hid.
    apply list_elem_of_In, elem_of_map_to_list in Hin.
    case_decide as Hn; [|by apply in_nil in Hid]. subst n.
    apply list_elem_of_In, list_elem_of_fmap in Hid as (k & -> & Hk).
    apply elem_of_seq in Hk. cbn. exists count. split; [done|lia].
  - intros (count & Hdoc & Hlt).
    exists (id.1, (name, count)). split.
    + by apply list_elem_of_In, elem_of_map_to_list.
    + cbn. rewrite decide_True by done.
      apply list_elem_of_In, list_elem_of_fmap. exists id.2.
      split; [by destruct id|]. apply elem_of_seq. lia.
Qed.

Lemma sound_upload sv name hash chunks embeddings c :
  sound c →
  (upload sv name hash chunks embeddings c).1 ≠ Failed IndexConsistencyError →
  sound (upload sv name hash chunks embeddings c).2.
Proof.
  intros [Heq Hdoc]. unfold upload.
  destruct (ingested c !! hash) as [[existing count]|] eqn:Hnew; [done|].
  case_decide; [done|].
  destruct (embedding_up sv); cbn; [|done].
  set (records := records_of name hash chunks embeddings).
  assert (∀ id, id ∈ chunk <$> records → id ∉ dom (lexical c)) as Hfresh.
  { intros id [Hh _]%record_ids Hin.
    destruct (Hdoc id Hin) as (n & k & Hn & _). congruence. }
  destruct (vector_write sv), (lexical_write sv); cbn.
  - intros _. split; cbn; [by rewrite Heq|].
    intros id [Hin|Hin]%dom_upsert.
    + apply record_ids in Hin as [-> Hlt].
      exists name, (length chunks). by rewrite lookup_insert_eq.
    + destruct (Hdoc id Hin) as (n & k & Hn & Hlt).
      exists n, k. split; [|done].
      rewrite lookup_insert_ne; [done|]. congruence.
  - destruct (compensation sv); cbn; [|done]. intros _.
    split; cbn; [|done].
    rewrite remove_upsert; [done|]. by rewrite <- Heq.
  - destruct (compensation sv); cbn; [|done]. intros _.
    split; cbn.
    + by rewrite remove_upsert.
    + rewrite remove_upsert by done. done.
  - done.
Qed.

Lemma sound_delete name c :
  sound c → sound (delete_document name c).2.
Proof.
  intros [Heq Hdoc]. unfold delete_document. case_decide; [done|].
  split; cbn; [by rewrite Heq|].
  intros id [Hin Hout]%dom_remove.
  destruct (Hdoc id Hin) as (n & k & Hn & Hlt).
  exists n, k. split; [|done].
  apply map_lookup_filter_Some. split; [done|]. cbn.
  intros ->. apply Hout, chunks_of_spec. eauto.
Qed.

Lemma sound_handle r c :
  sound c → (handle r c).1 ≠ Failed IndexConsistencyError →
  sound (handle r c).2.
Proof.
  destruct r as [sv name hash chunks embeddings|name|doc_name]; cbn.
  - apply sound_upload.
  - intros. by apply sound_delete.
  - intros Hs _. unfold ask. destruct doc_name; [case_decide|]; done.
Qed.

Lemma sound_tracked c : tracked c → sound c.
Proof.
  induction 1 as [|r c _ IH Hok].
  - split; [done|]. cbn. intros id Hin. by rewrite dom_empty_L in Hin.
  - by apply sound_handle.
Qed.

(** C4 (amended). Between requests, as long as no ingestion has ended in
    [IndexConsistencyError], a chunk ID is in the Lexical Index exactly when
    it is in the Vector Store; an ingestion that ends otherwise, a deletion
    and a query each keep it so. *)
Theorem dual_index_consistent c :
  tracked c →
  consistent c
  ∧ ∀ r, (handle r c).1 ≠ Failed IndexConsistencyError →
         consistent (handle r c).2.
Proof.
  intros Ht.
  assert (∀ c', sound c' → consistent c') as Hcons.
  { intros c' [Heq _] id. by rewrite Heq. }
  split.
  - by apply Hcons, sound_tracked.
  - intros r Hok. by apply Hcons, sound_handle; [apply sound_tracked|].
Qed.

(** An ingestion whose lexical write fails and whose compensating delete
    fails too leaves its chunks in the Vector Store alone. *)
Lemma failed_compensation_diverges :
  let sv := {| embedding_up := true; vector_write := true;
               lexical_write := false; compensation := false |} in
  let r := Upload sv "a.pdf" 1%N
             [{| text := "t"; page := 1; toc_section := "s" |}] [[1 # 1]%Q] in
  consistent empty
  ∧ observable (handle r empty).2
  ∧ (handle r empty).1 = Failed IndexConsistencyError
  ∧ ¬ consistent (handle r empty).2.
Proof.
  intros sv r. split_and!.
  - done.
  - apply observable_handle, observable_empty.
  - reflexivity.
  - intros Hc. specialize (Hc (1%N, 0)). destruct Hc as [_ Hc].
    assert ((1%N, 0) ∈ dom (lexical (handle r empty).2)) as Hin.
    { apply Hc. cbn. apply dom_upsert. left. apply record_ids. cbn. lia. }
    revert Hin. change ((1%N, 0) ∉ dom (∅ : gmap chunk_id IndexRecord)).
    rewrite dom_empty_L. apply not_elem_of_empty.
Qed.

Lemma dual_index_consistent_witness :
  let sv := {| embedding_up := true; vector_write := true;
               lexical_write := true; compensation := true |} in
  let r := Upload sv "a.pdf" 1%N
             [{| text := "t"; page := 1; toc_section := "s" |}] [[1 # 1]%Q] in
  tracked (handle r empty).2 ∧ consistent (handle r empty).2.
Proof.
  intros sv r.
  assert (tracked (handle r empty).2) as Ht.
  { apply tracked_handle; [apply tracked_empty|]. vm_compute. discriminate. }
  split; [exact Ht|].
  exact (proj1 (dual_index_consistent _ Ht)).
Defined.

Local Open Scope Q_scope.

Lemma Qdiv_le_cross (a b c d : Q) :
  0 < b → 0 < d → a * d <= c * b → a / b <= c / d.
Proof.
  intros Hb Hd H. apply Qle_shift_div_r; [done|].
  assert (c / d * b == c * b / d) as -> by (field; lra).
  by apply Qle_shift_div_l.
Qed.

(** The closed form of min-max normalization of a score [x] among other
    scores that lie between [m] and [M]. *)
Lemma normalize_monotone (flat m M x x' lo hi lo' hi' : Q) :
  0 <= flat → flat <= 1 → m <= M → x <= x' →
  lo == Qmin x m → hi == Qmax x M → lo' == Qmin x' m → hi' == Qmax x' M →
  (if Qeq_bool hi lo then flat else (x - lo) / (hi - lo))
  <= (if Qeq_bool hi' lo' then flat else (x' - lo') / (hi' - lo')).
Proof.
  intros Hf0 Hf1 HmM Hx Hlo Hhi Hlo' Hhi'.
  destruct (Q.min_spec x m) as [[? E1]|[? E1]]; rewrite E1 in Hlo;
  destruct (Q.max_spec x M) as [[? E2]|[? E2]]; rewrite E2 in Hhi;
  destruct (Q.min_spec x' m) as [[? E3]|[? E3]]; rewrite E3 in Hlo';
  destruct (Q.max_spec x' M) as [[? E4]|[? E4]]; rewrite E4 in Hhi';
  clear E1 E2 E3 E4;
  (destruct (Qeq_bool hi lo) eqn:B;
     [apply Qeq_bool_iff in B|apply Qeq_bool_neq in B]);
  (destruct (Qeq_bool hi' lo') eqn:B';
     [apply Qeq_bool_iff in B'|apply Qeq_bool_neq in B']);
  try lra;
  try (apply Qdiv_le_cross; [lra|lra|rewrite Hlo, Hhi, Hlo', Hhi'; nra]);
  try (apply Qle_shift_div_r; [lra|rewrite Hlo, Hhi; nra]);
  try (apply Qle_shift_div_l; [lra|rewrite Hlo', Hhi'; nra]).
Qed.

(** The least and the greatest of a seed and a list of scores. *)
Lemma extremes_closed_form (l : list Q) :
  (∀ x, foldr Qmin x l == x ∧ foldr Qmax x l == x)
  ∨ ∃ m M, m <= M
           ∧ ∀ x, foldr Qmin x l == Qmin x m ∧ foldr Qmax x l == Qmax x M.
Proof.
  induction l as [|y l [IH|(m & M & HmM & IH)]]; [by left|right..].
  - exists y, y. split; [lra|]. intros x. cbn. destruct (IH x) as [E1 E2]. rewrite E1, E2.
    split; [apply Q.min_comm|apply Q.max_comm].
  - exists (Qmin y m), (Qmax y M). split.
    + pose proof (Q.le_min_r y m). pose proof (Q.le_max_r y M). lra.
    + intros x. cbn. destruct (IH x) as [E1 E2]. rewrite E1, E2. split.
      * rewrite !Q.min_assoc, (Q.min_comm y x). reflexivity.
      * rewrite !Q.max_assoc, (Q.max_comm y x). reflexivity.
Qed.

Lemma score_of_rescore c x l s :
  score_of c l = Some s →
  score_of c (rescore c x l) = Some x ∧ rescore c s l = l.
Proof.
  induction l as [|[k y] l IH]; cbn; [done|].
  case_decide as Hk.
  - intros [= ->]. subst k. cbn. by rewrite decide_True.
  - intros Hs. destruct (IH Hs) as [E1 E2]. cbn.
    by rewrite decide_False, E1, E2.
Qed.

(** The extremes of a stream as a function of the score of [c]. *)
Lemma rescore_closed_form c l s :
  score_of c l = Some s →
  (∀ x, foldr Qmin x (rescore c x l).*2 == x
        ∧ foldr Qmax x (rescore c x l).*2 == x)
  ∨ ∃ m M, m <= M
           ∧ ∀ x, foldr Qmin x (rescore c x l).*2 == Qmin x m
                  ∧ foldr Qmax x (rescore c x l).*2 == Qmax x M.
Proof.
  induction l as [|[k y] l IH]; cbn; [done|].
  case_decide as Hk.
  - intros _. destruct (extremes_closed_form l.*2) as [E|(m & M & HmM & E)].
    + left. intros x. cbn. destruct (E x) as [E1 E2]. rewrite E1, E2.
      split; [apply Q.min_id|apply Q.max_id].
    + right. exists m, M. split; [done|]. intros x. cbn.
      destruct (E x) as [E1 E2]. rewrite E1, E2.
      rewrite Q.min_assoc, Q.max_assoc, Q.min_id, Q.max_id. done.
  - intros Hs. right. destruct (IH Hs) as [E|(m & M & HmM & E)].
    + exists y, y. split; [lra|]. intros x. cbn. destruct (E x) as [E1 E2]. rewrite E1, E2.
      split; [apply Q.min_comm|apply Q.max_comm].
    + exists (Qmin y m), (Qmax y M). split.
      * pose proof (Q.le_min_r y m). pose proof (Q.le_max_r y M). lra.
      * intros x. cbn. destruct (E x) as [E1 E2]. rewrite E1, E2. split.
        -- rewrite !Q.min_assoc, (Q.min_comm y x). reflexivity.
        -- rewrite !Q.max_assoc, (Q.max_comm y x). reflexivity.
Qed.

Lemma normalize_rescore_monotone flat c l s s' :
  0 <= flat → flat <= 1 → score_of c l = Some s → s <= s' →
  normalize flat l.*2 s <= normalize flat (rescore c s' l).*2 s'.
Proof.
  intros Hf0 Hf1 Hs Hle.
  destruct (score_of_rescore c s l s Hs) as [_ Hsame].
  rewrite <- Hsame at 1. unfold normalize.
  destruct (rescore_closed_form c l s Hs) as [E|(m & M & HmM & E)].
  - destruct (E s) as [E1 E2], (E s') as [E3 E4].
    rewrite (proj2 (Qeq_bool_iff _ _)) by (by rewrite E1, E2).
    rewrite (proj2 (Qeq_bool_iff _ _)) by (by rewrite E3, E4). lra.
  - destruct (E s) as [E1 E2], (E s') as [E3 E4].
    by apply (normalize_monotone flat m M).
Qed.

Lemma share_monotone flat w c l s s' :
  0 <= flat → flat <= 1 → 0 <= w →
  score_of c l = Some s → s <= s' →
  share flat w l c <= share flat w (rescore c s' l) c.
Proof.
  intros Hf0 Hf1 Hw Hs Hle. unfold share.
  destruct (score_of_rescore c s' l s Hs) as [-> _]. rewrite Hs.
  pose proof (normalize_rescore_monotone flat c l s s' Hf0 Hf1 Hs Hle).
  nra.
Qed.

(** C7. With non-negative weights, raising the lexical score of a candidate
    and leaving the vector stream as it is, or raising its vector score and
    leaving the lexical stream as it is, does not lower its fused score. *)
Theorem fusion_monotone flat w lex vec c s s' :
  0 <= flat → flat <= 1 →
  0 <= lexical_weight w → 0 <= vector_weight w →
  s <= s' →
  (score_of c lex = Some s →
   fused (fuse flat w lex vec c) <= fused (fuse flat w (rescore c s' lex) vec c))
  ∧ (score_of c vec = Some s →
     fused (fuse flat w lex vec c)
     <= fused (fuse flat w lex (rescore c s' vec) c)).
Proof.
  intros Hf0 Hf1 Hwl Hwv Hle. split; intros Hs; cbn.
  - pose proof (share_monotone flat _ c lex s s' Hf0 Hf1 Hwl Hs Hle). lra.
  - pose proof (share_monotone flat _ c vec s s' Hf0 Hf1 Hwv Hs Hle). lra.
Qed.

Lemma fusion_monotone_witness :
  let lex := [((1%N, 0%nat), 2 # 1); ((1%N, 1%nat), 5 # 1);
              ((7%N, 0%nat), 9 # 1)] in
  let vec := [((1%N, 1%nat), 1 # 2); ((7%N, 0%nat), 3 # 4)] in
  fused (fuse 1 default_weights lex vec (1%N, 1%nat))
  <= fused (fuse 1 default_weights (rescore (1%N, 1%nat) (8 # 1) lex) vec
              (1%N, 1%nat)).
Proof.
  intros lex vec.
  refine (proj1 (fusion_monotone 1 default_weights lex vec (1%N, 1%nat)
                   (5 # 1) (8 # 1) _ _ _ _ _) eq_refl);
    vm_compute; discriminate.
Defined.

End CoreProps.
